(** * SharePoint file download client: a shallow embedding of
      [sharepoint_api.py] and the properties of its tree walk and mirror,
      of its lookups and of its script.

    The client talks to two remote services (the identity endpoint and the
    Graph API) and to the local file system.  The embedding keeps the three
    apart:

    - the remote side is a function [net] from requests to responses (an
      unchanged remote state answers equal requests alike);
    - the local side is a [world]: the file system, the lines printed on
      standard output, and the requests sent so far (in order);
    - a method of the class is a computation in the monad [M], which threads
      the world and may raise a Python exception.

    Python values that travel through the code untyped (decoded JSON, the
    dictionaries of the listing) are values of [pyval]; the dynamic checks
    Python performs on them ([in], subscription, iteration, [.get]) are
    written out with the exceptions they raise.

    The local file system is that of Linux: a path is walked component by
    component through the directories that are there, a name has at most
    255 bytes and a path fewer than 4096, and a NUL byte is refused; the
    calls of [os] and [open] raise what they raise there, and
    [os.makedirs] is the recursive function of the standard library.  A
    [string] holds the bytes of the UTF-8 encoding of a Python string.

    What is left out: failures of the transport (a request always gets a
    response), JSON numbers with a fraction, strings that have no UTF-8
    encoding, and on the local side symbolic links, permissions, full disks
    and file systems that fold the case of names.  The two recursive
    methods take the number of nested calls they may make (the
    interpreter's recursion limit) as [fuel]; the nested calls of
    [os.makedirs], one for each missing directory of a path, are not counted
    against it.  The script at the end of the module is [Script.main]; its
    global [resource], which a method reads, is a definition of its own. *)

From Stdlib Require Import ZArith String Ascii List Lia.
From Stdlib Require Import Init.Byte.
From stdpp Require Import base strings list gmap pretty.

Local Open Scope string_scope.
Local Open Scope Z_scope.
Local Open Scope list_scope.

(** ** Python values and exceptions *)

#[warnings="-register-all"]
Inductive pyval : Type :=
| PNone
| PBool (b : bool)
| PInt (z : Z)
| PStr (s : string)
| PList (l : list pyval)
| PDict (d : list (string * pyval)).

Inductive pyerr : Type :=
| TypeError
| KeyError
| AttributeError
| JSONDecodeError
| FileNotFoundError
| FileExistsError
| NotADirectoryError
| IsADirectoryError
| OSError
| ValueError.

(** The outcome of a call: a value, a raised exception, or [NoFuel] when the
    recursion did not bottom out within the number of nested calls it was
    given. *)
Inductive res (A : Type) : Type :=
| Ok (a : A)
| Raise (e : pyerr)
| NoFuel.
Arguments Ok {A} a.
Arguments Raise {A} e.
Arguments NoFuel {A}.

(** A decoded JSON object is a Python dict; [d] lists its items in order and
    a key is looked up from the front. *)
Fixpoint dict_lookup (k : string) (d : list (string * pyval)) : option pyval :=
  match d with
  | [] => None
  | (k', v) :: d' => if String.eqb k k' then Some v else dict_lookup k d'
  end.

Definition dict_has (k : string) (d : list (string * pyval)) : bool :=
  match dict_lookup k d with Some _ => true | None => false end.

Definition is_str (s : string) (v : pyval) : bool :=
  match v with PStr t => String.eqb s t | _ => false end.

(** [s in t] on strings: [s] occurs in [t]. *)
Fixpoint occurs_in (s t : string) : bool :=
  String.prefix s t ||
  match t with
  | EmptyString => false
  | String _ t' => occurs_in s t'
  end.

(** [k in v] for a string [k]. *)
Definition py_in (k : string) (v : pyval) : res bool :=
  match v with
  | PDict d => Ok (dict_has k d)
  | PList l => Ok (existsb (is_str k) l)
  | PStr t => Ok (occurs_in k t)
  | PNone | PBool _ | PInt _ => Raise TypeError
  end.

(** [v[k]] for a string [k]. *)
Definition py_getitem (v : pyval) (k : string) : res pyval :=
  match v with
  | PDict d => match dict_lookup k d with Some x => Ok x | None => Raise KeyError end
  | _ => Raise TypeError
  end.

(** [v.get(k, default)]. *)
Definition py_get (v : pyval) (k : string) (default : pyval) : res pyval :=
  match v with
  | PDict d => Ok (match dict_lookup k d with Some x => x | None => default end)
  | _ => Raise AttributeError
  end.

Fixpoint chars (s : string) : list pyval :=
  match s with
  | EmptyString => []
  | String c s' => PStr (String c EmptyString) :: chars s'
  end.

(** The elements [for x in v] runs over. *)
Definition py_iter (v : pyval) : res (list pyval) :=
  match v with
  | PList l => Ok l
  | PDict d => Ok (map (fun kv => PStr (fst kv)) d)
  | PStr s => Ok (chars s)
  | PNone | PBool _ | PInt _ => Raise TypeError
  end.

Definition join_with (sep : string) (l : list string) : string :=
  match l with
  | [] => ""
  | x :: l' => fold_left (fun acc y => acc +:+ sep +:+ y) l' x
  end.

Definition apostrophe : ascii := "039"%char.
Definition double_quote : ascii := "034"%char.
Definition backslash : ascii := "092"%char.

Fixpoint has_char (c : ascii) (s : string) : bool :=
  match s with
  | EmptyString => false
  | String c' s' => Ascii.eqb c c' || has_char c s'
  end.

Definition hex_digit (n : nat) : ascii :=
  nth n (list_ascii_of_string "0123456789abcdef") "0"%char.

(** One character of a string inside [repr], between quotes [quote]. *)
Definition repr_char (quote c : ascii) : string :=
  let n := nat_of_ascii c in
  if Ascii.eqb c quote || Ascii.eqb c backslash then String backslash (String c "")
  else if Ascii.eqb c "009"%char then String backslash "t"
  else if Ascii.eqb c "010"%char then String backslash "n"
  else if Ascii.eqb c "013"%char then String backslash "r"
  else if (n <? 32)%nat || (n =? 127)%nat
  then String backslash
              (String "x"%char
                      (String (hex_digit (n / 16)) (String (hex_digit (n mod 16)) "")))
  else String c "".

Fixpoint repr_chars (quote : ascii) (s : string) : string :=
  match s with
  | EmptyString => ""
  | String c s' => repr_char quote c +:+ repr_chars quote s'
  end.

(** [repr(s)] for a string: in double quotes when the string holds an
    apostrophe and no double quote, else in apostrophes; the quote, the
    backslash and the control characters are escaped.  Bytes above 127 are
    kept, which is what Python does with the printable characters they
    encode. *)
Definition repr_str (s : string) : string :=
  let quote :=
    if has_char apostrophe s && negb (has_char double_quote s)
    then double_quote else apostrophe in
  String quote (repr_chars quote s +:+ String quote "").

(** Strings of ASCII characters only; on these [repr_str] is Python's
    [repr] to the letter. *)
Definition is_ascii (s : string) : bool :=
  forallb (fun c => (nat_of_ascii c <? 128)%nat) (list_ascii_of_string s).

(** Values whose strings are ASCII. *)
Fixpoint ascii_val (v : pyval) : bool :=
  match v with
  | PStr s => is_ascii s
  | PList l => forallb ascii_val l
  | PDict d => forallb (fun kv => is_ascii (fst kv) && ascii_val (snd kv)) d
  | PNone | PBool _ | PInt _ => true
  end.

(** [repr(v)]. *)
Fixpoint py_repr (v : pyval) : string :=
  match v with
  | PNone => "None"
  | PBool true => "True"
  | PBool false => "False"
  | PInt z => pretty z
  | PStr s => repr_str s
  | PList l => "[" +:+ join_with ", " (map py_repr l) +:+ "]"
  | PDict d =>
      "{" +:+ join_with ", "
                (map (fun kv => repr_str (fst kv) +:+ ": " +:+ py_repr (snd kv)) d)
          +:+ "}"
  end.

(** [str(v)], the text an f-string puts in place of [{v}]. *)
Definition py_str (v : pyval) : string :=
  match v with
  | PStr s => s
  | _ => py_repr v
  end.

(** ** HTTP *)

Inductive http_method : Type := GET | POST.

Record request : Type := {
  rq_method : http_method;
  rq_url : string;
  rq_headers : list (string * string);
  rq_data : list (string * string)
}.

(** What the code reads from a [requests] response.  [rsp_json] is the value
    [response.json()] decodes, absent when the body is not JSON;
    [rsp_content] is the raw body. *)
Record response : Type := {
  rsp_status : Z;
  rsp_reason : string;
  rsp_json : option pyval;
  rsp_content : list byte
}.

(** ** The world of a run *)

Inductive node : Type :=
| Dir
| File (content : list byte).

(** The file system maps locations, lists of names, to nodes. *)
Record world : Type := {
  w_fs : gmap (list string) node;
  w_stdout : list string;
  w_sent : list request
}.

Definition set_fs (fs : gmap (list string) node) (w : world) : world :=
  {| w_fs := fs; w_stdout := w_stdout w; w_sent := w_sent w |}.

(** ** The monad of the methods *)

Definition M (A : Type) : Type := world -> res A * world.

Definition ret {A} (a : A) : M A := fun w => (Ok a, w).

Definition bind {A B} (m : M A) (k : A -> M B) : M B :=
  fun w =>
    match m w with
    | (Ok a, w') => k a w'
    | (Raise e, w') => (Raise e, w')
    | (NoFuel, w') => (NoFuel, w')
    end.

Definition lift {A} (r : res A) : M A := fun w => (r, w).

Definition raise {A} (e : pyerr) : M A := lift (Raise e).

Definition out_of_fuel {A} : M A := lift NoFuel.

Notation "'let*' x ':=' m 'in' k" := (bind m (fun x => k))
  (at level 10, x name, m at level 100, k at level 200).
Notation "m ';;;' k" := (bind m (fun _ => k))
  (at level 100, k at level 200, right associativity).

(** [for x in items: s = body(x, s)], stopping at the first exception. *)
Fixpoint for_each {S} (body : pyval -> S -> M S) (items : list pyval) (s : S) : M S :=
  match items with
  | [] => ret s
  | x :: rest => let* s' := body x s in for_each body rest s'
  end.

Definition print (line : string) : M unit :=
  fun w => (Ok tt, {| w_fs := w_fs w; w_stdout := (w_stdout w ++ [line])%list;
                      w_sent := w_sent w |}).

Definition as_str (v : pyval) : M string :=
  match v with
  | PStr s => ret s
  | _ => raise TypeError
  end.

(** ** Paths ([posixpath]) *)

Definition slash : ascii := "/"%char.

Definition starts_with_slash (p : string) : bool :=
  match p with
  | String c _ => Ascii.eqb c slash
  | EmptyString => false
  end.

Fixpoint ends_with_slash (p : string) : bool :=
  match p with
  | EmptyString => false
  | String c EmptyString => Ascii.eqb c slash
  | String _ p' => ends_with_slash p'
  end.

(** [os.path.join(a, b)]. *)
Definition os_path_join (a b : string) : string :=
  if starts_with_slash b then b
  else if String.eqb a "" || ends_with_slash a then a +:+ b
  else a +:+ "/" +:+ b.

Fixpoint all_slashes (p : string) : bool :=
  match p with
  | EmptyString => true
  | String c p' => Ascii.eqb c slash && all_slashes p'
  end.

(** [p.rstrip('/')]. *)
Fixpoint rstrip_slashes (p : string) : string :=
  match p with
  | EmptyString => ""
  | String c p' => if all_slashes p then "" else String c (rstrip_slashes p')
  end.

(** The text of [p] up to its last slash, the slash included, and the text
    after it. *)
Fixpoint split_last (p : string) : string * string :=
  match p with
  | EmptyString => ("", "")
  | String c p' =>
      match split_last p' with
      | (EmptyString, t) =>
          if Ascii.eqb c slash then (String c "", t) else ("", String c t)
      | (h, t) => (String c h, t)
      end
  end.

(** [posixpath.split(p)]: the head is the text up to the last slash, without
    its trailing slashes unless it is made of slashes only. *)
Definition posix_split (p : string) : string * string :=
  let (h, t) := split_last p in
  (if all_slashes h then h else rstrip_slashes h, t).

(** The head of the path of an entry of the directory [a]: [a] without its
    trailing slashes, or [a] itself when it is made of slashes only. *)
Definition trim (a : string) : string :=
  if all_slashes a then a else rstrip_slashes a.

(** The components of a path, empty ones included: ["a//b"] has the
    components ["a"], [""] and ["b"]. *)
Fixpoint split_slash (p : string) : list string :=
  match p with
  | EmptyString => [""]
  | String c p' =>
      if Ascii.eqb c slash then "" :: split_slash p'
      else match split_slash p' with
           | [] => [String c ""]
           | h :: t => String c h :: t
           end
  end.

(** The names a walk along the path looks up: slashes that follow each
    other count as one. *)
Definition components (p : string) : list string :=
  List.filter (fun c => negb (String.eqb c "")) (split_slash p).

(** ** The local file system

    A location in the file system is the list of the names on the way to it.
    Relative paths start at the working directory [[]]; an absolute path
    starts at the root [["/"]]; leading [".."] components climb above the
    working directory.  The file system maps locations to nodes.  The name
    of the working directory is not part of it: a path that leaves the
    working directory and comes back into it by name leads to a location of
    its own. *)

(** Where the walk along a path starts. *)
Definition start (p : string) : list string :=
  if starts_with_slash p then ["/"] else [].

(** Leaving a directory through [".."]. *)
Definition parent_of (k : list string) : list string :=
  match last k with
  | None => [".."]
  | Some l =>
      if String.eqb l ".." then k ++ [".."]
      else if String.eqb l "/" then k
      else removelast k
  end.

Definition walk_component (k : list string) (c : string) : list string :=
  if String.eqb c "" || String.eqb c "." then k
  else if String.eqb c ".." then parent_of k
  else k ++ [c].

(** The location a path leads to when every directory on the way is there
    (there are no symbolic links); [walk] and [namei] below find out whether
    they are. *)
Definition resolve (p : string) : list string :=
  fold_left walk_component (split_slash p) (start p).

(** Locations that are directories whatever the map holds: the working
    directory, the root, and the directories above the working directory. *)
Definition is_anchor (k : list string) : bool :=
  forallb (fun c => String.eqb c ".." || String.eqb c "/") k.

Definition fs_node (fs : gmap (list string) node) (k : list string) : option node :=
  if is_anchor k then Some Dir else fs !! k.

(** The limits of Linux on the bytes of a name and of a path (the byte that
    ends the path included). *)
Definition NAME_MAX : nat := 255.
Definition PATH_MAX : nat := 4096.

Fixpoint has_nul (p : string) : bool :=
  match p with
  | EmptyString => false
  | String c p' => Ascii.eqb c Ascii.zero || has_nul p'
  end.

(** What is wrong with a path before any directory is looked at: Python
    refuses a NUL byte with [ValueError]; the system call refuses the empty
    path with [ENOENT] and a path of [PATH_MAX] bytes or more with
    [ENAMETOOLONG], which Python raises as a plain [OSError]. *)
Definition path_error (p : string) : option pyerr :=
  if has_nul p then Some ValueError
  else if String.eqb p "" then Some FileNotFoundError
  else if (PATH_MAX <=? String.length p)%nat then Some OSError
  else None.

(** The walk from the directory [k] through the directories [cs]: each one
    has to be there, and to be a directory. *)
Fixpoint walk (fs : gmap (list string) node) (k : list string) (cs : list string)
  : res (list string) :=
  match cs with
  | [] => Ok k
  | c :: rest =>
      if String.eqb c "." then walk fs k rest
      else if String.eqb c ".." then walk fs (parent_of k) rest
      else if (NAME_MAX <? String.length c)%nat then Raise OSError
      else match fs_node fs (k ++ [c]) with
           | Some Dir => walk fs (k ++ [c]) rest
           | Some (File _) => Raise NotADirectoryError
           | None => Raise FileNotFoundError
           end
  end.

(** What a path names once the directories before its last component have
    been walked: a directory that is there ([.], [..] or the root), or the
    entry [c], there or not, of the directory [k]. *)
Inductive target : Type :=
| Here (k : list string)
| Entry (k : list string) (c : string).

Definition namei (fs : gmap (list string) node) (p : string) : res target :=
  match path_error p with
  | Some e => Raise e
  | None =>
      match last (components p) with
      | None => Ok (Here (start p))
      | Some c =>
          match walk fs (start p) (removelast (components p)) with
          | Ok k =>
              if String.eqb c "." then Ok (Here k)
              else if String.eqb c ".." then Ok (Here (parent_of k))
              else Ok (Entry k c)
          | Raise e => Raise e
          | NoFuel => NoFuel
          end
      end
  end.

Definition too_long (c : string) : bool := (NAME_MAX <? String.length c)%nat.

(** [os.path.exists(p)]: whether [os.stat(p)] succeeds.  A path that ends in
    a slash has to name a directory. *)
Definition path_exists (fs : gmap (list string) node) (p : string) : bool :=
  match namei fs p with
  | Ok (Here _) => true
  | Ok (Entry k c) =>
      if too_long c then false
      else match fs_node fs (k ++ [c]) with
           | Some Dir => true
           | Some (File _) => negb (ends_with_slash p)
           | None => false
           end
  | _ => false
  end.

(** [os.mkdir(p)]. *)
Definition fs_mkdir (fs : gmap (list string) node) (p : string)
  : res (gmap (list string) node) :=
  match namei fs p with
  | Ok (Here _) => Raise FileExistsError
  | Ok (Entry k c) =>
      if too_long c then Raise OSError
      else match fs_node fs (k ++ [c]) with
           | Some _ => Raise FileExistsError
           | None => Ok (<[k ++ [c] := Dir]> fs)
           end
  | Raise e => Raise e
  | NoFuel => NoFuel
  end.

(** [os.makedirs(name)] (with [exist_ok=False]), as the standard library has
    it: the head of the path is made first when it is not there, a
    [FileExistsError] of that call is passed over, and the directories made
    stay when a later step raises.  The recursion is that of the library;
    [fuel] is the number of its nested calls. *)
Fixpoint makedirs (fuel : nat) (fs : gmap (list string) node) (name : string)
  : res unit * gmap (list string) node :=
  match fuel with
  | O => (NoFuel, fs)
  | S fuel' =>
      let (head, tail) := posix_split name in
      let (head, tail) :=
        if String.eqb tail "" then posix_split head else (head, tail) in
      let mkdir fs1 :=
        match fs_mkdir fs1 name with
        | Ok fs2 => (Ok tt, fs2)
        | Raise e => (Raise e, fs1)
        | NoFuel => (NoFuel, fs1)
        end in
      if negb (String.eqb head "") && negb (String.eqb tail "")
         && negb (path_exists fs head)
      then
        match makedirs fuel' fs head with
        | (Ok _, fs1) | (Raise FileExistsError, fs1) =>
            if String.eqb tail "." then (Ok tt, fs1) else mkdir fs1
        | (Raise e, fs1) => (Raise e, fs1)
        | (NoFuel, fs1) => (NoFuel, fs1)
        end
      else mkdir fs
  end.

(** The heads of a path get shorter, so the library's recursion on a path
    is no deeper than the path is long.  Its nested calls are not counted
    against the [fuel] of the methods. *)
Definition fs_makedirs (fs : gmap (list string) node) (p : string)
  : res unit * gmap (list string) node :=
  makedirs (S (String.length p)) fs p.

(** [with open(p, 'wb') as file: file.write(content)]: the file is created
    or truncated, then holds [content]. *)
Definition fs_write (fs : gmap (list string) node) (p : string) (content : list byte)
  : res (gmap (list string) node) :=
  match namei fs p with
  | Ok (Here _) => Raise IsADirectoryError
  | Ok (Entry k c) =>
      if ends_with_slash p then Raise IsADirectoryError
      else if too_long c then Raise OSError
      else match fs_node fs (k ++ [c]) with
           | Some Dir => Raise IsADirectoryError
           | Some (File _) | None => Ok (<[k ++ [c] := File content]> fs)
           end
  | Raise e => Raise e
  | NoFuel => NoFuel
  end.

Definition os_path_exists (p : string) : M bool :=
  fun w => (Ok (path_exists (w_fs w) p), w).

Definition os_makedirs (p : string) : M unit :=
  fun w => let (r, fs') := fs_makedirs (w_fs w) p in (r, set_fs fs' w).

Definition open_wb_write (p : string) (content : list byte) : M unit :=
  fun w =>
    match fs_write (w_fs w) p content with
    | Ok fs' => (Ok tt, set_fs fs' w)
    | Raise e => (Raise e, w)
    | NoFuel => (NoFuel, w)
    end.

(** ** The client *)

Record SharePointClient : Type := {
  tenant_id : string;
  client_id : string;
  client_secret : string;
  resource_url : string;
  base_url : string;
  headers : list (string * string);
  access_token : pyval
}.

(** The module-level name [resource] of the script, which
    [download_folder_contents] reads when it builds a download URL. *)
Definition resource : string := "https://graph.microsoft.com/".

Definition folder_entry (name : pyval) : pyval :=
  PDict [("name", name); ("type", PStr "Folder"); ("mimeType", PNone)].

Definition file_entry (name mime : pyval) : pyval :=
  PDict [("name", name); ("type", PStr "File"); ("mimeType", mime)].

Section Methods.

(** The remote side: the answer to each request. *)
Variable net : request -> response.

Definition send (rq : request) : M response :=
  fun w => (Ok (net rq),
            {| w_fs := w_fs w; w_stdout := w_stdout w;
               w_sent := (w_sent w ++ [rq])%list |}).

Definition requests_get (url : string) (hdrs : list (string * string)) : M response :=
  send {| rq_method := GET; rq_url := url; rq_headers := hdrs; rq_data := [] |}.

Definition requests_post (url : string) (hdrs data : list (string * string))
  : M response :=
  send {| rq_method := POST; rq_url := url; rq_headers := hdrs; rq_data := data |}.

(** [response.json()]. *)
Definition response_json (r : response) : M pyval :=
  match rsp_json r with
  | Some v => ret v
  | None => raise JSONDecodeError
  end.

(** [{'Authorization': f'Bearer {self.access_token}'}]. *)
Definition authorization (self : SharePointClient) : list (string * string) :=
  [("Authorization", "Bearer " +:+ py_str (access_token self))].

Definition get_access_token (self : SharePointClient) : M pyval :=
  let body := [("grant_type", "client_credentials");
               ("client_id", client_id self);
               ("client_secret", client_secret self);
               ("scope", resource_url self +:+ ".default")] in
  let* response := requests_post (base_url self) (headers self) body in
  let* decoded := response_json response in
  lift (py_get decoded "access_token" PNone).

(** [SharePointClient(tenant_id, client_id, client_secret, resource_url)]:
    [get_access_token] runs on the object before its [access_token]
    attribute is set, and reads none but the attributes set before. *)
Definition __init__ (tenant client secret resource_url : string)
  : M SharePointClient :=
  let self :=
    {| tenant_id := tenant; client_id := client; client_secret := secret;
       resource_url := resource_url;
       base_url := "https://login.microsoftonline.com/" +:+ tenant +:+ "/oauth2/v2.0/token";
       headers := [("Content-Type", "application/x-www-form-urlencoded")];
       access_token := PNone |} in
  let* token := get_access_token self in
  ret {| tenant_id := tenant_id self; client_id := client_id self;
         client_secret := client_secret self; resource_url := resource_url;
         base_url := base_url self; headers := headers self;
         access_token := token |}.

Definition get_site_id (self : SharePointClient) (site_url : string) : M pyval :=
  let full_url := "https://graph.microsoft.com/v1.0/sites/" +:+ site_url in
  let* response := requests_get full_url (authorization self) in
  let* decoded := response_json response in
  lift (py_get decoded "id" PNone).

Definition get_drive_id (self : SharePointClient) (site_id : pyval)
  : M (list (pyval * pyval)) :=
  let drives_url :=
    "https://graph.microsoft.com/v1.0/sites/" +:+ py_str site_id +:+ "/drives" in
  let* response := requests_get drives_url (authorization self) in
  let* decoded := response_json response in
  let* drives := lift (py_get decoded "value" (PList [])) in
  let* drives := lift (py_iter drives) in
  for_each (fun drive acc =>
              let* id := lift (py_getitem drive "id") in
              let* name := lift (py_getitem drive "name") in
              ret (acc ++ [(id, name)])%list)
           drives [].

Definition root_children_url (site_id drive_id : pyval) : string :=
  "https://graph.microsoft.com/v1.0/sites/" +:+ py_str site_id
    +:+ "/drives/" +:+ py_str drive_id +:+ "/root/children".

Definition get_folder_content (self : SharePointClient) (site_id drive_id : pyval)
           (folder_path : pyval) : M (list (pyval * pyval)) :=
  let folder_url := root_children_url site_id drive_id in
  let* response := requests_get folder_url (authorization self) in
  let* items_data := response_json response in
  let rootdir := [] in
  let* has_value := lift (py_in "value" items_data) in
  if has_value then
    let* value := lift (py_getitem items_data "value") in
    let* items := lift (py_iter value) in
    for_each (fun item rootdir =>
                let* id := lift (py_getitem item "id") in
                let* name := lift (py_getitem item "name") in
                ret (rootdir ++ [(id, name)])%list)
             items rootdir
  else ret rootdir.

Definition children_url (site_id drive_id folder_id : pyval) : string :=
  "https://graph.microsoft.com/v1.0/sites/" +:+ py_str site_id
    +:+ "/drives/" +:+ py_str drive_id
    +:+ "/items/" +:+ py_str folder_id +:+ "/children".

(** The body of the loop of [list_folder_contents]; [recur] is the
    recursive call on a subfolder's identifier. *)
Definition list_item (recur : pyval -> M (list pyval))
           (item : pyval) (items_list : list pyval) : M (list pyval) :=
  let* is_folder := lift (py_in "folder" item) in
  if is_folder then
    let* name := lift (py_getitem item "name") in
    let items_list := (items_list ++ [folder_entry name])%list in
    let* id := lift (py_getitem item "id") in
    let* sub := recur id in
    ret (items_list ++ sub)%list
  else
    let* is_file := lift (py_in "file" item) in
    if is_file then
      let* name := lift (py_getitem item "name") in
      let* file := lift (py_getitem item "file") in
      let* mime := lift (py_getitem file "mimeType") in
      ret (items_list ++ [file_entry name mime])%list
    else ret items_list.

Fixpoint list_folder_contents (fuel : nat) (self : SharePointClient)
         (site_id drive_id folder_id : pyval) (level : Z) : M (list pyval) :=
  match fuel with
  | O => out_of_fuel
  | S fuel' =>
      let folder_contents_url := children_url site_id drive_id folder_id in
      let contents_headers := authorization self in
      let* contents_response := requests_get folder_contents_url contents_headers in
      let* folder_contents := response_json contents_response in
      let items_list := [] in
      let* has_value := lift (py_in "value" folder_contents) in
      if has_value then
        let* value := lift (py_getitem folder_contents "value") in
        let* items := lift (py_iter value) in
        for_each
          (list_item (fun id =>
                        list_folder_contents fuel' self site_id drive_id id (level + 1)))
          items items_list
      else ret items_list
  end.

Definition download_file (self : SharePointClient) (download_url : string)
           (local_path : string) (file_name : pyval) : M unit :=
  let hdrs := authorization self in
  let* response := requests_get download_url hdrs in
  if rsp_status response =? 200 then
    let* name := as_str file_name in
    let full_path := os_path_join local_path name in
    open_wb_write full_path (rsp_content response) ;;;
    print ("File downloaded: " +:+ full_path)
  else
    print ("Failed to download " +:+ py_str file_name +:+ ": "
             +:+ pretty (rsp_status response) +:+ " - " +:+ rsp_reason response).

(** The download URL as line 99 builds it. *)
Definition file_download_url (site_id drive_id item_id : pyval) : string :=
  resource +:+ "/v1.0/sites/" +:+ py_str site_id
    +:+ "/drives/" +:+ py_str drive_id
    +:+ "/items/" +:+ py_str item_id +:+ "/content".

(** The body of the loop of [download_folder_contents]. *)
Definition download_item (self : SharePointClient) (site_id drive_id : pyval)
           (recur : pyval -> string -> M unit)
           (local_folder_path : string) (item : pyval) (_ : unit) : M unit :=
  let* is_folder := lift (py_in "folder" item) in
  if is_folder then
    let* name := lift (py_getitem item "name") in
    let* name := as_str name in
    let new_path := os_path_join local_folder_path name in
    let* present := os_path_exists new_path in
    (if present then ret tt else os_makedirs new_path) ;;;
    let* id := lift (py_getitem item "id") in
    recur id new_path
  else
    let* is_file := lift (py_in "file" item) in
    if is_file then
      let* file_name := lift (py_getitem item "name") in
      let* id := lift (py_getitem item "id") in
      let url := file_download_url site_id drive_id id in
      download_file self url local_folder_path file_name
    else ret tt.

Fixpoint download_folder_contents (fuel : nat) (self : SharePointClient)
         (site_id drive_id folder_id : pyval) (local_folder_path : string)
         (level : Z) : M unit :=
  match fuel with
  | O => out_of_fuel
  | S fuel' =>
      let folder_contents_url := children_url site_id drive_id folder_id in
      let contents_headers := authorization self in
      let* contents_response := requests_get folder_contents_url contents_headers in
      let* folder_contents := response_json contents_response in
      let* has_value := lift (py_in "value" folder_contents) in
      if has_value then
        let* value := lift (py_getitem folder_contents "value") in
        let* items := lift (py_iter value) in
        for_each
          (download_item self site_id drive_id
             (fun id new_path =>
                download_folder_contents fuel' self site_id drive_id id new_path
                                         (level + 1))
             local_folder_path)
          items tt
      else ret tt
  end.

End Methods.

(** ** The script

    The statements at the end of the module (lines 102 to 127), run against
    a service [net].  A tuple [(id, name)] of [get_drive_id] and
    [get_folder_content] is a pair. *)

Module Script.

(** How a run ends: the last statement is done, or an exception that no
    statement catches ends it. *)
Inductive script_end : Type :=
| Completed
| Uncaught (e : pyerr)
| UncaughtIndexError
| RecursionTooDeep.

(** A statement that calls [m] and goes on with [k]; an exception of the
    call ends the run. *)
Definition run {A} (m : M A) (k : A -> world -> script_end * world)
  : world -> script_end * world :=
  fun w =>
    match m w with
    | (Ok a, w') => k a w'
    | (Raise e, w') => (Uncaught e, w')
    | (NoFuel, w') => (RecursionTooDeep, w')
    end.

(** [l[0][0]] on a list of pairs: [IndexError] on the empty list. *)
Definition first_id (l : list (pyval * pyval)) (k : pyval -> world -> script_end * world)
  : world -> script_end * world :=
  fun w =>
    match l with
    | [] => (UncaughtIndexError, w)
    | p :: _ => k (fst p) w
    end.

(** [str] of a list of pairs, as [print] shows it. *)
Definition repr_pair (p : pyval * pyval) : string :=
  "(" +:+ py_repr (fst p) +:+ ", " +:+ py_repr (snd p) +:+ ")".

Definition repr_pairs (l : list (pyval * pyval)) : string :=
  "[" +:+ join_with ", " (map repr_pair l) +:+ "]".

Definition tenant_id : string := "your-tenant-id".
Definition client_id : string := "your-client-id".
Definition client_secret : string := "your-client-secret".
Definition site_url : string := "your-site-url".
Definition local_save_path : string := "data".

(** The body of the loop of lines 123 and 124. *)
Definition print_content (content : pyval) (_ : unit) : M unit :=
  let* name := lift (py_getitem content "name") in
  let* type := lift (py_getitem content "type") in
  let* mime := lift (py_get content "mimeType" (PStr "N/A")) in
  print ("Name: " +:+ py_str name +:+ ", Type: " +:+ py_str type
           +:+ ", MimeType: " +:+ py_str mime).

Definition main (net : request -> response) (fuel : nat)
  : world -> script_end * world :=
  run (__init__ net tenant_id client_id client_secret resource) (fun client =>
  run (get_site_id net client site_url) (fun site_id =>
  run (print ("Site ID: " +:+ py_str site_id)) (fun _ =>
  run (get_drive_id net client site_id) (fun drive_info =>
  run (print ("Root folder: " +:+ repr_pairs drive_info)) (fun _ =>
  first_id drive_info (fun drive_id =>
  run (get_folder_content net client site_id drive_id (PStr "root"))
      (fun folder_content =>
  run (print ("Root Content: " +:+ repr_pairs folder_content)) (fun _ =>
  first_id folder_content (fun folder_id =>
  run (list_folder_contents net fuel client site_id drive_id folder_id 0)
      (fun contents =>
  run (for_each print_content contents tt) (fun _ =>
  run (download_folder_contents net fuel client site_id drive_id folder_id
                                local_save_path 0) (fun _ =>
  fun w => (Completed, w))))))))))))).

End Script.

(** ** Remote trees

    The items below a folder, in the order the API lists them: a folder item
    carries the items below it, a file item carries its content type and the
    response the service gives to a download of its content. *)

Inductive forest : Type :=
| Fnil
| Ffolder (id name : string) (children : forest) (rest : forest)
| Ffile (id name mimeType : string) (download : response) (rest : forest).

Fixpoint nfolders (cs : forest) : nat :=
  match cs with
  | Fnil => 0
  | Ffolder _ _ sub rest => S (nfolders sub + nfolders rest)
  | Ffile _ _ _ _ rest => nfolders rest
  end.

Fixpoint nfiles (cs : forest) : nat :=
  match cs with
  | Fnil => 0
  | Ffolder _ _ sub rest => (nfiles sub + nfiles rest)%nat
  | Ffile _ _ _ _ rest => S (nfiles rest)
  end.

(** The number of nested folder levels. *)
Fixpoint depth (cs : forest) : nat :=
  match cs with
  | Fnil => 0
  | Ffolder _ _ sub rest => Nat.max (S (depth sub)) (depth rest)
  | Ffile _ _ _ _ rest => depth rest
  end.

(** An element of the [value] field of a children listing describes an item
    (section 6 of the interface): it is an object with the item's [id] and
    [name], and a [folder] marker or, without one, a [file] marker with a
    nested [mimeType].  The object may have any other fields. *)
Definition is_folder_item (item : pyval) (id name : string) : Prop :=
  exists d,
    item = PDict d
    /\ dict_has "folder" d = true
    /\ dict_lookup "name" d = Some (PStr name)
    /\ dict_lookup "id" d = Some (PStr id).

Definition is_file_item (item : pyval) (id name mime : string) : Prop :=
  exists d f,
    item = PDict d
    /\ dict_has "folder" d = false
    /\ dict_lookup "file" d = Some (PDict f)
    /\ dict_lookup "mimeType" f = Some (PStr mime)
    /\ dict_lookup "name" d = Some (PStr name)
    /\ dict_lookup "id" d = Some (PStr id).

(** The elements [items] describe the items [cs], one by one and in order. *)
Fixpoint describes (items : list pyval) (cs : forest) : Prop :=
  match cs, items with
  | Fnil, [] => True
  | Ffolder id name _ rest, item :: items' =>
      is_folder_item item id name /\ describes items' rest
  | Ffile id name mime _ rest, item :: items' =>
      is_file_item item id name mime /\ describes items' rest
  | _, _ => False
  end.

(** A response lists the items [cs]: its body decodes to an object whose
    [value] is a list of elements that describe them. *)
Definition lists (r : response) (cs : forest) : Prop :=
  exists d items,
    rsp_json r = Some (PDict d)
    /\ dict_lookup "value" d = Some (PList items)
    /\ describes items cs.

(** The descriptions with no field beyond those the code reads. *)
Definition folder_json (id name : string) : pyval :=
  PDict [("id", PStr id); ("name", PStr name); ("folder", PDict [])].

Definition file_json (id name mime : string) : pyval :=
  PDict [("id", PStr id); ("name", PStr name);
         ("file", PDict [("mimeType", PStr mime)])].

Fixpoint items_json (cs : forest) : list pyval :=
  match cs with
  | Fnil => []
  | Ffolder id name _ rest => folder_json id name :: items_json rest
  | Ffile id name mime _ rest => file_json id name mime :: items_json rest
  end.

(** The content download endpoint of section 6. *)
Definition content_url (site_id drive_id item_id : pyval) : string :=
  "https://graph.microsoft.com/v1.0/sites/" +:+ py_str site_id
    +:+ "/drives/" +:+ py_str drive_id
    +:+ "/items/" +:+ py_str item_id +:+ "/content".

Definition get_request (self : SharePointClient) (url : string) : request :=
  {| rq_method := GET; rq_url := url; rq_headers := authorization self; rq_data := [] |}.

Section Serving.

Variable net : request -> response.
Variable self : SharePointClient.
Variables site_id drive_id : pyval.

(** The service holds the items [cs] (and all below them): it lists the
    children of each folder, and answers the download request the mirror
    sends for a file with the file's response. *)
Fixpoint serves_items (cs : forest) : Prop :=
  match cs with
  | Fnil => True
  | Ffolder id _ sub rest =>
      lists (net (get_request self (children_url site_id drive_id (PStr id)))) sub
      /\ serves_items sub /\ serves_items rest
  | Ffile id _ _ rsp rest =>
      net (get_request self (file_download_url site_id drive_id (PStr id))) = rsp
      /\ serves_items rest
  end.

(** The folder [folder_id] holds exactly the tree [cs]. *)
Definition serves (folder_id : pyval) (cs : forest) : Prop :=
  lists (net (get_request self (children_url site_id drive_id folder_id))) cs
  /\ serves_items cs.

End Serving.

(** The listing entries of a tree in pre-order: a folder's entry, then the
    entries of its subtree, then those of its next siblings. *)
Fixpoint preorder (cs : forest) : list pyval :=
  match cs with
  | Fnil => []
  | Ffolder _ name sub rest =>
      folder_entry (PStr name) :: (preorder sub ++ preorder rest)%list
  | Ffile _ name mime _ rest =>
      file_entry (PStr name) (PStr mime) :: preorder rest
  end.

(** ** A service built from a tree *)

Definition ok_json (v : pyval) : response :=
  {| rsp_status := 200; rsp_reason := "OK"; rsp_json := Some v; rsp_content := [] |}.

Definition listing (cs : forest) : response :=
  ok_json (PDict [("value", PList (items_json cs))]).

Definition not_found : response :=
  {| rsp_status := 404; rsp_reason := "Not Found";
     rsp_json := Some (PDict [("error", PDict [("code", PStr "itemNotFound")])]);
     rsp_content := [] |}.

Section TreeService.

Variable self : SharePointClient.
Variables site_id drive_id : pyval.

Fixpoint answer (cs : forest) (url : string) : option response :=
  match cs with
  | Fnil => None
  | Ffolder id _ sub rest =>
      if String.eqb url (children_url site_id drive_id (PStr id))
      then Some (listing sub)
      else match answer sub url with
           | Some r => Some r
           | None => answer rest url
           end
  | Ffile id _ _ rsp rest =>
      if String.eqb url (content_url site_id drive_id (PStr id))
         || String.eqb url (file_download_url site_id drive_id (PStr id))
      then Some rsp
      else answer rest url
  end.

(** The service of a drive whose folder [folder_id] holds [cs]: it answers
    [GET] requests for the URLs of the tree and [404] otherwise. *)
Definition tree_net (folder_id : pyval) (cs : forest) (rq : request) : response :=
  match rq_method rq with
  | POST => not_found
  | GET =>
      if String.eqb (rq_url rq) (children_url site_id drive_id folder_id)
      then listing cs
      else match answer cs (rq_url rq) with
           | Some r => r
           | None => not_found
           end
  end.

End TreeService.

(** ** Names, paths and identifiers of a tree *)

Fixpoint has_slash (s : string) : bool :=
  match s with
  | EmptyString => false
  | String c s' => Ascii.eqb c slash || has_slash s'
  end.

(** A name that is one component of a path: not empty, not ["."] or [".."],
    and without a slash. *)
Definition plain_name (n : string) : bool :=
  negb (String.eqb n "") && negb (String.eqb n ".") && negb (String.eqb n "..")
  && negb (has_slash n).

(** The names of the items directly in a folder. *)
Fixpoint top_names (cs : forest) : list string :=
  match cs with
  | Fnil => []
  | Ffolder _ name _ rest => name :: top_names rest
  | Ffile _ name _ _ rest => name :: top_names rest
  end.

(** The names of a tree can be mirrored: every name is plain and the items
    of one folder have different names. *)
Fixpoint names_ok (cs : forest) : Prop :=
  match cs with
  | Fnil => True
  | Ffolder _ name sub rest =>
      plain_name name = true /\ ~ In name (top_names rest)
      /\ names_ok sub /\ names_ok rest
  | Ffile _ name _ _ rest =>
      plain_name name = true /\ ~ In name (top_names rest) /\ names_ok rest
  end.

(** The folders of a tree, each as the list of names that leads to it. *)
Fixpoint folder_paths (cs : forest) : list (list string) :=
  match cs with
  | Fnil => []
  | Ffolder _ name sub rest =>
      [name] :: map (cons name) (folder_paths sub) ++ folder_paths rest
  | Ffile _ _ _ _ rest => folder_paths rest
  end.

(** The files of a tree, each with the answer to its download. *)
Fixpoint file_paths (cs : forest) : list (list string * response) :=
  match cs with
  | Fnil => []
  | Ffolder _ name sub rest =>
      map (fun pr => (name :: fst pr, snd pr)) (file_paths sub) ++ file_paths rest
  | Ffile _ name _ r rest => ([name], r) :: file_paths rest
  end.

(** The name of the file a path leads to. *)
Definition leaf_name (p : list string) : string :=
  match last p with
  | Some n => n
  | None => ""
  end.

(** The identifiers of the items of a tree. *)
Fixpoint item_ids (cs : forest) : list string :=
  match cs with
  | Fnil => []
  | Ffolder id _ sub rest => id :: item_ids sub ++ item_ids rest
  | Ffile id _ _ _ rest => id :: item_ids rest
  end.

(** The URLs under which the service knows the item [id]. *)
Definition urls_of (site_id drive_id : pyval) (id : string) : list string :=
  [children_url site_id drive_id (PStr id);
   content_url site_id drive_id (PStr id);
   file_download_url site_id drive_id (PStr id)].

(** ** Requests, worlds and outcomes of the statements *)

Definition sent (rq : request) (w : world) : world :=
  {| w_fs := w_fs w; w_stdout := w_stdout w; w_sent := w_sent w ++ [rq] |}.

(** The token request [get_access_token] posts. *)
Definition token_request (self : SharePointClient) : request :=
  {| rq_method := POST; rq_url := base_url self; rq_headers := headers self;
     rq_data := [("grant_type", "client_credentials");
                 ("client_id", client_id self);
                 ("client_secret", client_secret self);
                 ("scope", resource_url self +:+ ".default")] |}.

(** The object [__init__] builds before it asks for the token. *)
Definition new_client (tenant client secret resource_url : string) (token : pyval)
  : SharePointClient :=
  {| tenant_id := tenant; client_id := client; client_secret := secret;
     resource_url := resource_url;
     base_url := "https://login.microsoftonline.com/" +:+ tenant +:+ "/oauth2/v2.0/token";
     headers := [("Content-Type", "application/x-www-form-urlencoded")];
     access_token := token |}.

(** A call surfaces an error when it ends with an exception. *)
Definition surfaces_error {A} (r : res A * world) : Prop :=
  exists e, fst r = Raise e.

(** The world after a download that was refused. *)
Definition logged_failure (self : SharePointClient) (download_url : string)
           (file_name : pyval) (r : response) (w : world) : world :=
  {| w_fs := w_fs w;
     w_stdout := w_stdout w ++
                 ["Failed to download " +:+ py_str file_name +:+ ": "
                    +:+ pretty (rsp_status r) +:+ " - " +:+ rsp_reason r];
     w_sent := w_sent w ++ [get_request self download_url] |}.

Definition failure_line (name : string) (r : response) : string :=
  "Failed to download " +:+ name +:+ ": " +:+ pretty (rsp_status r)
    +:+ " - " +:+ rsp_reason r.

(** Values that are neither containers nor strings: [in] and [for] raise
    [TypeError] on them. *)
Definition scalar (v : pyval) : bool :=
  match v with
  | PNone | PBool _ | PInt _ => true
  | PStr _ | PList _ | PDict _ => false
  end.

(** A malformed children response: the body is not JSON, or it decodes to a
    scalar, or to an object whose [value] is a scalar. *)
Inductive malformed (r : response) : Prop :=
| malformed_not_json : rsp_json r = None -> malformed r
| malformed_scalar v : rsp_json r = Some v -> scalar v = true -> malformed r
| malformed_value d v :
    rsp_json r = Some (PDict d) -> dict_lookup "value" d = Some v ->
    scalar v = true -> malformed r.

(** An item that carries neither marker. *)
Definition unmarked (item : pyval) : Prop :=
  py_in "folder" item = Ok false /\ py_in "file" item = Ok false.


(** The outcome of a computation and the file system it leaves. *)
Definition fs_view {A} (out : res A * world) : res A * gmap (list string) node :=
  (fst out, w_fs (snd out)).

(** ** The local side of a mirror *)

(** The path [local] leads to a directory that is there, through
    directories that are there.  (The empty path stands for the working
    directory, as it does in [os.path.join].) *)
Definition opens (fs : gmap (list string) node) (local : string) : Prop :=
  has_nul local = false
  /\ (String.length local < PATH_MAX)%nat
  /\ walk fs (start local) (components local) = Ok (resolve local).

(** What the system refuses in the path of the entry [n] of the directory
    [local], whatever the file system holds: a NUL byte in the name, a path
    of [PATH_MAX] bytes or more, a name of more than [NAME_MAX] bytes. *)
Definition entry_error (local n : string) : option pyerr :=
  if has_nul n then Some ValueError
  else if (PATH_MAX <=? String.length (os_path_join local n))%nat || too_long n
       then Some OSError
       else None.

(** The names and the local paths of the items of a tree mirrored into
    [local] are within these limits. *)
Fixpoint fits (local : string) (cs : forest) : Prop :=
  match cs with
  | Fnil => True
  | Ffolder _ name sub rest =>
      entry_error local name = None
      /\ fits (os_path_join local name) sub /\ fits local rest
  | Ffile _ name _ _ rest => entry_error local name = None /\ fits local rest
  end.

(** How a mirror of [cs] ends in a local folder [local] that is a regular
    file: with the first folder, or the first file whose download is answered
    with 200. *)
Fixpoint blocked (local : string) (cs : forest) : res unit :=
  match cs with
  | Fnil => Ok tt
  | Ffolder _ name _ _ =>
      Raise (match path_error (os_path_join local name) with
             | Some e => e
             | None => NotADirectoryError
             end)
  | Ffile _ name _ r rest =>
      if rsp_status r =? 200
      then Raise (match path_error (os_path_join local name) with
                  | Some e => e
                  | None => NotADirectoryError
                  end)
      else blocked local rest
  end.

(** No local entry below [k] is of the other kind than the remote item of
    the same path: no file where a folder goes, no directory where a
    downloaded file goes. *)
Definition no_clash (fs : gmap (list string) node) (k : list string) (cs : forest)
  : Prop :=
  (forall p c, In p (folder_paths cs) -> fs !! (k ++ p) <> Some (File c))
  /\ (forall p r, In (p, r) (file_paths cs) -> rsp_status r = 200 ->
                  fs !! (k ++ p) <> Some Dir).

(** The file system a mirror of [cs] below [k] leaves: a directory for each
    folder, the content of each file whose download was answered with 200. *)
Fixpoint overlay (k : list string) (cs : forest) (fs : gmap (list string) node)
  : gmap (list string) node :=
  match cs with
  | Fnil => fs
  | Ffolder _ name sub rest =>
      overlay k rest (overlay (k ++ [name]) sub (<[k ++ [name] := Dir]> fs))
  | Ffile _ name _ r rest =>
      overlay k rest
        (if rsp_status r =? 200 then <[k ++ [name] := File (rsp_content r)]> fs else fs)
  end.

(** The lines a mirror of [cs] into [local] prints. *)
Fixpoint mirror_log (local : string) (cs : forest) : list string :=
  match cs with
  | Fnil => []
  | Ffolder _ name sub rest =>
      mirror_log (os_path_join local name) sub ++ mirror_log local rest
  | Ffile _ name _ r rest =>
      (if rsp_status r =? 200
       then "File downloaded: " +:+ os_path_join local name
       else failure_line name r) :: mirror_log local rest
  end.

(** The requests a mirror of [cs] sends. *)
Fixpoint mirror_requests (self : SharePointClient) (site_id drive_id : pyval)
         (cs : forest) : list request :=
  match cs with
  | Fnil => []
  | Ffolder id _ sub rest =>
      get_request self (children_url site_id drive_id (PStr id))
        :: mirror_requests self site_id drive_id sub
        ++ mirror_requests self site_id drive_id rest
  | Ffile id _ _ _ rest =>
      get_request self (file_download_url site_id drive_id (PStr id))
        :: mirror_requests self site_id drive_id rest
  end.

(** The world after a mirror of [cs] into [local]. *)
Definition mirrored (self : SharePointClient) (site_id drive_id : pyval)
           (local : string) (cs : forest) (w : world) : world :=
  {| w_fs := overlay (resolve local) cs (w_fs w);
     w_stdout := w_stdout w ++ mirror_log local cs;
     w_sent := w_sent w ++ mirror_requests self site_id drive_id cs |}.

(** What a mirror of [cs] into [local] does to the file system, and how it
    ends: the steps of [download_folder_contents] on the local side alone. *)
Fixpoint mirror_fs (local : string) (cs : forest) (fs : gmap (list string) node)
  : res unit * gmap (list string) node :=
  match cs with
  | Fnil => (Ok tt, fs)
  | Ffolder _ name sub rest =>
      let new_path := os_path_join local name in
      match (if path_exists fs new_path then (Ok tt, fs)
             else fs_makedirs fs new_path) with
      | (Ok _, fs1) =>
          match mirror_fs new_path sub fs1 with
          | (Ok _, fs2) => mirror_fs local rest fs2
          | (Raise e, fs2) => (Raise e, fs2)
          | (NoFuel, fs2) => (NoFuel, fs2)
          end
      | (Raise e, fs1) => (Raise e, fs1)
      | (NoFuel, fs1) => (NoFuel, fs1)
      end
  | Ffile _ name _ r rest =>
      if rsp_status r =? 200 then
        match fs_write fs (os_path_join local name) (rsp_content r) with
        | Ok fs1 => mirror_fs local rest fs1
        | Raise e => (Raise e, fs)
        | NoFuel => (NoFuel, fs)
        end
      else mirror_fs local rest fs
  end.

Definition same_kind (x y : node) : Prop :=
  match x, y with
  | Dir, Dir => True
  | File _, File _ => True
  | _, _ => False
  end.

(** Every entry of [f] is in [g], as a directory or as a file like before. *)
Definition keeps_kind (f g : gmap (list string) node) : Prop :=
  forall key x, f !! key = Some x -> exists y, g !! key = Some y /\ same_kind x y.

(** The files of [f] at the locations [D] are in [g] with their content. *)
Definition keeps_content (D : list string -> Prop) (f g : gmap (list string) node)
  : Prop :=
  forall key c, D key -> f !! key = Some (File c) -> g !! key = Some (File c).

(** The locations a mirror of [cs] below [k] writes a file to. *)
Definition written (k : list string) (cs : forest) (key : list string) : Prop :=
  exists q r, In (q, r) (file_paths cs) /\ rsp_status r = 200 /\ key = k ++ q.

(** ** What a call may do to the world *)

(** However it ends, [m] leaves a world that is [R]-related to the one it
    started in. *)
Definition maintains {A} (R : world -> world -> Prop) (m : M A) : Prop :=
  forall w, R w (snd (m w)).

(** Whenever [m] ends, with a value or an exception, [m'] ends the same way
    in the same world. *)
Definition ends_as {A} (m m' : M A) : Prop :=
  forall w r w', m w = (r, w') -> r <> NoFuel -> m' w = (r, w').

(** A request for the children of some folder of the drive. *)
Definition children_request (self : SharePointClient) (site_id drive_id : pyval)
           (rq : request) : Prop :=
  exists id, rq = get_request self (children_url site_id drive_id id).

(** A request of the mirror: for the children of a folder, or for the
    content of an item at the URL of line 99. *)
Definition mirror_request (self : SharePointClient) (site_id drive_id : pyval)
           (rq : request) : Prop :=
  exists id,
    rq = get_request self (children_url site_id drive_id id)
    \/ rq = get_request self (file_download_url site_id drive_id id).

(** [w'] differs from [w] by requests for children only. *)
Definition reads_only (self : SharePointClient) (site_id drive_id : pyval)
           (w w' : world) : Prop :=
  w_fs w' = w_fs w
  /\ w_stdout w' = w_stdout w
  /\ exists rqs,
      w_sent w' = w_sent w ++ rqs
      /\ Forall (children_request self site_id drive_id) rqs.

(** [w'] differs from [w] by requests of the mirror, printed lines, and
    entries of the file system that were added or, for files, written
    over. *)
Definition mirrors_only (self : SharePointClient) (site_id drive_id : pyval)
           (w w' : world) : Prop :=
  keeps_kind (w_fs w) (w_fs w')
  /\ (exists lines, w_stdout w' = w_stdout w ++ lines)
  /\ exists rqs,
      w_sent w' = w_sent w ++ rqs
      /\ Forall (mirror_request self site_id drive_id) rqs.

(** An entry of the list [list_folder_contents] returns. *)
Definition is_entry (e : pyval) : Prop :=
  (exists name, e = folder_entry name) \/ (exists name mime, e = file_entry name mime).

(** The line the script prints for an entry. *)
Definition line_of (e : pyval) (line : string) : Prop :=
  (exists name,
      e = folder_entry name
      /\ line = "Name: " +:+ py_str name +:+ ", Type: Folder, MimeType: None")
  \/ (exists name mime,
         e = file_entry name mime
         /\ line = "Name: " +:+ py_str name +:+ ", Type: File, MimeType: "
                     +:+ py_str mime).

(** The requests a walk of [cs] sends: one for each folder, in pre-order. *)
Fixpoint walk_requests (self : SharePointClient) (site_id drive_id : pyval)
         (cs : forest) : list request :=
  match cs with
  | Fnil => []
  | Ffolder id _ sub rest =>
      get_request self (children_url site_id drive_id (PStr id))
        :: walk_requests self site_id drive_id sub
        ++ walk_requests self site_id drive_id rest
  | Ffile _ _ _ _ rest => walk_requests self site_id drive_id rest
  end.

(** The [(id, name)] pairs of the items directly in a folder. *)
Fixpoint top_pairs (cs : forest) : list (pyval * pyval) :=
  match cs with
  | Fnil => []
  | Ffolder id name _ rest => (PStr id, PStr name) :: top_pairs rest
  | Ffile id name _ _ rest => (PStr id, PStr name) :: top_pairs rest
  end.

(** The element [x] of a [value] list has the fields of the pair [p]. *)
Definition has_pair (x : pyval) (p : pyval * pyval) : Prop :=
  py_getitem x "id" = Ok (fst p) /\ py_getitem x "name" = Ok (snd p).

(** The element [x] lacks one of the two fields. *)
Definition lacks_field (x : pyval) : Prop :=
  (forall v, py_getitem x "id" <> Ok v) \/ (forall v, py_getitem x "name" <> Ok v).

(** ** The requests and the output of the script *)

(** The value [d.get(k)] of a field of a decoded object. *)
Definition field (k : string) (d : list (string * pyval)) : pyval :=
  match dict_lookup k d with
  | Some v => v
  | None => PNone
  end.

(** The client the script builds when the token response carries [token]. *)
Definition script_client (token : pyval) : SharePointClient :=
  new_client Script.tenant_id Script.client_id Script.client_secret resource token.

(** The requests of [get_site_id] and of [get_drive_id]. *)
Definition site_request (self : SharePointClient) (site_url : string) : request :=
  get_request self ("https://graph.microsoft.com/v1.0/sites/" +:+ site_url).

Definition drives_request (self : SharePointClient) (site_id : pyval) : request :=
  get_request self ("https://graph.microsoft.com/v1.0/sites/" +:+ py_str site_id
                      +:+ "/drives").

(** A response whose body is a JSON object with no element to list: the
    [value] field is missing or is the empty list. *)
Definition lists_nothing (r : response) : Prop :=
  exists d,
    rsp_json r = Some (PDict d)
    /\ (dict_lookup "value" d = None \/ dict_lookup "value" d = Some (PList [])).

(** Pairs of values whose strings are ASCII. *)
Definition ascii_pairs (pairs : list (pyval * pyval)) : Prop :=
  Forall (fun p => ascii_val (fst p) = true /\ ascii_val (snd p) = true) pairs.

(** The lines the script prints for the listing of a tree. *)
Fixpoint preorder_lines (cs : forest) : list string :=
  match cs with
  | Fnil => []
  | Ffolder _ name sub rest =>
      ("Name: " +:+ name +:+ ", Type: Folder, MimeType: None")
        :: preorder_lines sub ++ preorder_lines rest
  | Ffile _ name mime _ rest =>
      ("Name: " +:+ name +:+ ", Type: File, MimeType: " +:+ mime)
        :: preorder_lines rest
  end.

(** ** Examples *)

Definition bytes_of (s : string) : list byte := list_byte_of_string s.

(** A successful download of the given content. *)
Definition ok_content (content : string) : response :=
  {| rsp_status := 200; rsp_reason := "OK"; rsp_json := None;
     rsp_content := bytes_of content |}.

Definition example_tree : forest :=
  Ffolder "F1" "Reports"
    (Ffile "I1" "q1.pdf" "application/pdf" (ok_content "%PDF-1.7 q1") Fnil)
    (Ffile "I2" "readme.txt" "text/plain" (ok_content "read me") Fnil).

Definition example_client : SharePointClient :=
  {| tenant_id := "your-tenant-id"; client_id := "your-client-id";
     client_secret := "your-client-secret"; resource_url := resource;
     base_url := "https://login.microsoftonline.com/your-tenant-id/oauth2/v2.0/token";
     headers := [("Content-Type", "application/x-www-form-urlencoded")];
     access_token := PStr "token" |}.

Definition example_net : request -> response :=
  tree_net (PStr "S") (PStr "D") (PStr "R") example_tree.

Definition empty_world : world :=
  {| w_fs := ∅; w_stdout := []; w_sent := [] |}.

Definition example_listing : list pyval :=
  [folder_entry (PStr "Reports");
   file_entry (PStr "q1.pdf") (PStr "application/pdf");
   file_entry (PStr "readme.txt") (PStr "text/plain")].

(** An identity provider that rejects the credentials: the body has an
    [error] field and no [access_token]. *)
Definition rejecting_net (_ : request) : response :=
  {| rsp_status := 401; rsp_reason := "Unauthorized";
     rsp_json := Some (PDict [("error", PStr "invalid_client")]);
     rsp_content := [] |}.

(** The tree of the specification's example, with a download of [q1.pdf]
    that the service refuses. *)
Definition flaky_tree : forest :=
  Ffolder "F1" "Reports"
    (Ffile "I1" "q1.pdf" "application/pdf" not_found Fnil)
    (Ffile "I2" "readme.txt" "text/plain" (ok_content "read me") Fnil).

Definition flaky_net : request -> response :=
  tree_net (PStr "S") (PStr "D") (PStr "R") flaky_tree.

(** A local file system that holds the directory [data] and nothing else. *)
Definition data_world : world :=
  {| w_fs := {[ ["data"] := Dir ]}; w_stdout := []; w_sent := [] |}.


(** A gateway that answers every request with a page that is not JSON. *)
Definition broken_net (_ : request) : response :=
  {| rsp_status := 502; rsp_reason := "Bad Gateway"; rsp_json := None;
     rsp_content := bytes_of "<html>Bad Gateway</html>" |}.

(** A service that knows no folder. *)
Definition empty_net (_ : request) : response := not_found.


(** A listed item with neither marker. *)
Definition note_item : pyval := PDict [("id", PStr "N1"); ("name", PStr "note")].

(** A drive root that holds one file. *)
Definition root_file_tree : forest :=
  Ffile "I2" "readme.txt" "text/plain" (ok_content "read me") Fnil.

Definition root_file_net : request -> response :=
  tree_net (PStr "S") (PStr "D") (PStr "R") root_file_tree.

(** A drive root that holds one empty folder. *)
Definition empty_folder_tree : forest := Ffolder "F1" "Reports" Fnil Fnil.

Definition empty_folder_net : request -> response :=
  tree_net (PStr "S") (PStr "D") (PStr "R") empty_folder_tree.



(** A local file system that holds the directory [d] and nothing else. *)
Definition d_world : world :=
  {| w_fs := {[ ["d"] := Dir ]}; w_stdout := []; w_sent := [] |}.

(** A local file system in which [data/Reports] is a file. *)
Definition clash_world : world :=
  {| w_fs := {[ ["data"] := Dir; ["data"; "Reports"] := File (bytes_of "old") ]};
     w_stdout := []; w_sent := [] |}.

(** A service for a run of the script: the identity provider grants a
    token, the site [your-site-url] is [S] and has the one drive [D], the
    request for the root of the drive is answered with [root], and every
    other request by [drive]. *)
Definition site_net (root : response) (drive : request -> response) (rq : request)
  : response :=
  match rq_method rq with
  | POST =>
      ok_json (PDict [("token_type", PStr "Bearer"); ("access_token", PStr "token")])
  | GET =>
      if String.eqb (rq_url rq) "https://graph.microsoft.com/v1.0/sites/your-site-url"
      then ok_json (PDict [("id", PStr "S")])
      else if String.eqb (rq_url rq) "https://graph.microsoft.com/v1.0/sites/S/drives"
      then ok_json (PDict [("value",
                            PList [PDict [("id", PStr "D");
                                          ("name", PStr "Documents")]])])
      else if String.eqb (rq_url rq) (root_children_url (PStr "S") (PStr "D"))
      then root
      else drive rq
  end.

(** A drive root with the folder [Shared], which holds the tree of the
    specification's example, and a file. *)
Definition script_root : forest :=
  Ffolder "R" "Shared" example_tree
    (Ffile "I9" "notes.txt" "text/plain" (ok_content "notes") Fnil).

Definition script_net : request -> response :=
  site_net (listing script_root) example_net.

(** The same site with nothing in the root of its drive. *)
Definition empty_root_net : request -> response :=
  site_net (listing Fnil) empty_net.

(** A local file system with a file of the user's in [data]. *)
Definition kept_world : world :=
  {| w_fs := {[ ["data"] := Dir; ["data"; "keep.txt"] := File (bytes_of "mine") ]};
     w_stdout := []; w_sent := [] |}.

(** A file item whose name is an absolute path. *)
Definition absolute_item : pyval := file_json "I1" "/tmp/q1.pdf" "application/pdf".

(** A local file system that holds the directory [/tmp]. *)
Definition tmp_world : world :=
  {| w_fs := {[ ["/"; "tmp"] := Dir ]}; w_stdout := []; w_sent := [] |}.

(** * Properties *)

(** ** Running computations *)

Lemma bind_ok {A B} (m : M A) (k : A -> M B) w a w' :
  m w = (Ok a, w') -> bind m k w = k a w'.
Proof. intros H. unfold bind. now rewrite H. Qed.

Lemma bind_raise {A B} (m : M A) (k : A -> M B) w e w' :
  m w = (Raise e, w') -> bind m k w = (Raise e, w').
Proof. intros H. unfold bind. now rewrite H. Qed.

Lemma bind_no_fuel {A B} (m : M A) (k : A -> M B) w w' :
  m w = (NoFuel, w') -> bind m k w = (NoFuel, w').
Proof. intros H. unfold bind. now rewrite H. Qed.

Lemma bind_lift_ok {A B} (a : A) (k : A -> M B) w :
  bind (lift (Ok a)) k w = k a w.
Proof. reflexivity. Qed.

Lemma bind_ret {A B} (a : A) (k : A -> M B) w : bind (ret a) k w = k a w.
Proof. reflexivity. Qed.

Lemma bind_ext {A B} (m : M A) (k k' : A -> M B) w :
  (forall a w', k a w' = k' a w') -> bind m k w = bind m k' w.
Proof.
  intros H. unfold bind. destruct (m w) as [[a | e |] w']; auto.
Qed.

Lemma bind_assoc {A B C} (m : M A) (k : A -> M B) (k' : B -> M C) w :
  bind (bind m k) k' w = bind m (fun a => bind (k a) k') w.
Proof. unfold bind. destruct (m w) as [[a | e |] w']; reflexivity. Qed.

Lemma for_each_app {S} (body : pyval -> S -> M S) xs ys s w :
  for_each body (xs ++ ys) s w
  = bind (for_each body xs s) (fun s' => for_each body ys s') w.
Proof.
  revert s w. induction xs as [| x xs IH]; intros s w; simpl.
  - reflexivity.
  - unfold bind at 1 2 3. destruct (body x s w) as [[s' | e |] w']; auto.
Qed.

Lemma folder_json_is_folder_item id name :
  is_folder_item (folder_json id name) id name.
Proof. eexists. repeat split. Qed.

Lemma file_json_is_file_item id name mime :
  is_file_item (file_json id name mime) id name mime.
Proof. eexists _, _. repeat split. Qed.

Lemma describes_items_json cs : describes (items_json cs) cs.
Proof.
  induction cs as [| id name sub _ rest IH | id name mime rsp rest IH];
    cbn [describes items_json].
  - exact I.
  - split; [apply folder_json_is_folder_item | exact IH].
  - split; [apply file_json_is_file_item | exact IH].
Qed.

Lemma lists_listing cs : lists (listing cs) cs.
Proof.
  exists [("value", PList (items_json cs))], (items_json cs).
  repeat split. apply describes_items_json.
Qed.

Ltac read_listing Hj Hv :=
  unfold requests_get, send, bind at 1;
  unfold response_json; unfold get_request in Hj; rewrite Hj;
  rewrite bind_ret; cbn [py_in]; unfold dict_has; rewrite Hv;
  rewrite bind_lift_ok; cbn [py_getitem]; rewrite Hv;
  rewrite bind_lift_ok; cbn [py_iter]; rewrite bind_lift_ok.

(** One call of the walk on a folder whose listing arrives: the request is
    sent and the loop runs over the listed elements. *)
Lemma list_folder_contents_listing net self site_id drive_id folder_id cs :
  lists (net (get_request self (children_url site_id drive_id folder_id))) cs ->
  exists items,
    describes items cs
    /\ forall fuel level w,
        list_folder_contents net (S fuel) self site_id drive_id folder_id level w
        = for_each
            (list_item (fun id =>
               list_folder_contents net fuel self site_id drive_id id (level + 1)))
            items []
            (sent (get_request self (children_url site_id drive_id folder_id)) w).
Proof.
  intros (d & items & Hj & Hv & Hdesc). exists items. split; [exact Hdesc |].
  intros fuel level w. cbn [list_folder_contents]. read_listing Hj Hv. reflexivity.
Qed.

Lemma download_folder_contents_listing net self site_id drive_id folder_id cs :
  lists (net (get_request self (children_url site_id drive_id folder_id))) cs ->
  exists items,
    describes items cs
    /\ forall fuel local level w,
        download_folder_contents net (S fuel) self site_id drive_id folder_id
                                 local level w
        = for_each
            (download_item net self site_id drive_id
               (fun id new_path =>
                  download_folder_contents net fuel self site_id drive_id id new_path
                                           (level + 1))
               local)
            items tt
            (sent (get_request self (children_url site_id drive_id folder_id)) w).
Proof.
  intros (d & items & Hj & Hv & Hdesc). exists items. split; [exact Hdesc |].
  intros fuel local level w. cbn [download_folder_contents]. read_listing Hj Hv.
  reflexivity.
Qed.

(** The elements that describe a tree, taken apart. *)
Ltac describes_inv Hdesc items item :=
  destruct items as [| item items]; cbn [describes] in Hdesc;
  [try contradiction | try contradiction].

(** ** Names and local paths *)

Lemma split_slash_cons_eq p : exists h t, split_slash p = h :: t.
Proof.
  induction p as [| c p IH]; cbn [split_slash]; [now eauto |].
  destruct IH as (h & t & E). rewrite E.
  destruct (Ascii.eqb c slash); eauto.
Qed.

Lemma append_nil_l (s : string) : "" +:+ s = s.
Proof. reflexivity. Qed.

Lemma append_cons c (p q : string) : String c p +:+ q = String c (p +:+ q).
Proof. reflexivity. Qed.

Lemma split_slash_app p q :
  split_slash (p +:+ String slash q) = split_slash p ++ split_slash q.
Proof.
  induction p as [| c p IH];
    rewrite ?append_nil_l, ?append_cons; cbn [split_slash].
  - now rewrite Ascii.eqb_refl.
  - rewrite IH. destruct (Ascii.eqb c slash); [reflexivity |].
    destruct (split_slash_cons_eq p) as (h & t & E). now rewrite E.
Qed.

Lemma split_slash_plain n : has_slash n = false -> split_slash n = [n].
Proof.
  induction n as [| c n IH]; cbn [has_slash split_slash]; [reflexivity |].
  intros H. apply orb_false_iff in H as [Hc Hn]. rewrite Hc, (IH Hn). reflexivity.
Qed.

Lemma ends_with_slash_inv p :
  ends_with_slash p = true -> exists q, p = q +:+ String slash "".
Proof.
  induction p as [| c p IH]; cbn [ends_with_slash]; [discriminate |].
  destruct p as [| c' p'].
  - intros H. apply Ascii.eqb_eq in H. subst c. now exists "".
  - intros H. destruct (IH H) as (q & E). exists (String c q).
    rewrite append_cons. now rewrite <- E.
Qed.

Lemma starts_with_slash_app p q :
  p <> "" -> starts_with_slash (p +:+ q) = starts_with_slash p.
Proof. destruct p; [congruence | reflexivity]. Qed.

Lemma append_assoc (p q r : string) : (p +:+ q) +:+ r = p +:+ (q +:+ r).
Proof.
  induction p as [| c p IH]; rewrite ?append_nil_l, ?append_cons; congruence.
Qed.

Lemma length_append (p q : string) :
  String.length (p +:+ q) = (String.length p + String.length q)%nat.
Proof.
  induction p as [| c p IH]; rewrite ?append_nil_l, ?append_cons; cbn [String.length];
    [reflexivity | now rewrite IH].
Qed.

Lemma has_nul_append (p q : string) : has_nul (p +:+ q) = has_nul p || has_nul q.
Proof.
  induction p as [| c p IH]; rewrite ?append_nil_l, ?append_cons; cbn [has_nul];
    [reflexivity | now rewrite IH, orb_assoc].
Qed.

Lemma ends_with_slash_append p c q :
  ends_with_slash (p +:+ String c q) = ends_with_slash (String c q).
Proof.
  induction p as [| c' p IH]; rewrite ?append_nil_l, ?append_cons; [reflexivity |].
  rewrite <- IH. destruct p; reflexivity.
Qed.

Lemma ends_with_slash_no_slash n : has_slash n = false -> ends_with_slash n = false.
Proof.
  induction n as [| c n IH]; cbn [has_slash ends_with_slash]; [reflexivity |].
  intros H. apply orb_false_iff in H as [Hc Hn].
  destruct n; [exact Hc | now apply IH].
Qed.

Lemma all_slashes_append p q : all_slashes (p +:+ q) = all_slashes p && all_slashes q.
Proof.
  induction p as [| c p IH]; rewrite ?append_nil_l, ?append_cons; cbn [all_slashes];
    [reflexivity | now rewrite IH, andb_assoc].
Qed.

Lemma all_slashes_ends p : p <> "" -> all_slashes p = true -> ends_with_slash p = true.
Proof.
  induction p as [| c p IH]; [congruence |]. intros _ H. cbn [all_slashes] in H.
  apply andb_true_iff in H as [Hc Hp]. cbn [ends_with_slash].
  destruct p; [exact Hc |]. now apply IH.
Qed.

(** *** Components *)

Lemma components_app p q :
  components (p +:+ String slash q) = components p ++ components q.
Proof. unfold components. now rewrite split_slash_app, List.filter_app. Qed.

Lemma components_nil : components "" = [].
Proof. reflexivity. Qed.

Lemma components_not_empty p : Forall (fun c => c <> "") (components p).
Proof.
  unfold components. apply List.Forall_forall. intros c Hc.
  apply List.filter_In in Hc as [_ Hc]. apply negb_true_iff in Hc.
  now apply String.eqb_neq.
Qed.

Lemma fold_walk_filter cs :
  forall k,
    fold_left walk_component
              (List.filter (fun c => negb (String.eqb c "")) cs) k
    = fold_left walk_component cs k.
Proof.
  induction cs as [| c cs IH]; intros k; cbn [List.filter fold_left]; [reflexivity |].
  destruct (String.eqb_spec c "") as [-> | Hc]; cbn [negb fold_left]; now rewrite IH.
Qed.

Lemma resolve_components p :
  resolve p = fold_left walk_component (components p) (start p).
Proof. unfold resolve, components. now rewrite fold_walk_filter. Qed.

(** *** The head and the tail of a path *)

Lemma rstrip_slashes_append_slash p :
  rstrip_slashes (p +:+ String slash "") = rstrip_slashes p.
Proof.
  induction p as [| c p IH]; rewrite ?append_nil_l, ?append_cons; [reflexivity |].
  cbn [rstrip_slashes]. rewrite IH.
  change (String c (p +:+ String slash "")) with (String c p +:+ String slash "").
  rewrite all_slashes_append. cbn [all_slashes]. rewrite Ascii.eqb_refl.
  now rewrite andb_true_r.
Qed.

Lemma rstrip_slashes_id p : ends_with_slash p = false -> rstrip_slashes p = p.
Proof.
  induction p as [| c p IH]; [reflexivity |]. intros H. cbn [rstrip_slashes].
  destruct (all_slashes (String c p)) eqn:Ea.
  - rewrite all_slashes_ends in H; [discriminate | discriminate | exact Ea].
  - f_equal. apply IH. destruct p; [reflexivity | exact H].
Qed.

Lemma rstrip_slashes_length p : (String.length (rstrip_slashes p) <= String.length p)%nat.
Proof.
  induction p as [| c p IH]; cbn [rstrip_slashes]; [reflexivity |].
  destruct (all_slashes (String c p)); cbn [String.length]; lia.
Qed.

Lemma rstrip_slashes_not_empty p : all_slashes p = false -> rstrip_slashes p <> "".
Proof.
  destruct p as [| c p]; [discriminate |]. intros H. cbn [rstrip_slashes].
  now rewrite H.
Qed.

Lemma has_nul_rstrip p : has_nul p = false -> has_nul (rstrip_slashes p) = false.
Proof.
  induction p as [| c p IH]; [reflexivity |]. cbn [has_nul rstrip_slashes].
  intros H. apply orb_false_iff in H as [Hc Hp].
  destruct (all_slashes (String c p)); [reflexivity |].
  cbn [has_nul]. now rewrite Hc, IH.
Qed.

Lemma starts_with_slash_rstrip p :
  all_slashes p = false -> starts_with_slash (rstrip_slashes p) = starts_with_slash p.
Proof.
  destruct p as [| c p]; [discriminate |]. intros H. cbn [rstrip_slashes].
  now rewrite H.
Qed.


Lemma string_snoc p : p <> "" -> exists q d, p = q +:+ String d "".
Proof.
  induction p as [| c p IH]; [congruence |]. intros _.
  destruct p as [| c' p'].
  - now exists "", c.
  - destruct IH as (q & d & E); [discriminate |].
    exists (String c q), d. rewrite append_cons. now rewrite <- E.
Qed.

Lemma string_rev_ind (P : string -> Prop) :
  P "" -> (forall p c, P p -> P (p +:+ String c "")) -> forall p, P p.
Proof.
  intros H0 Hs p. remember (String.length p) as n eqn:En.
  revert p En. induction n as [| n IH]; intros p En.
  - destruct p; [exact H0 | discriminate En].
  - destruct (string_snoc p) as (q & d & ->); [now destruct p |].
    apply Hs, IH. rewrite length_append in En. cbn [String.length] in En. lia.
Qed.

Lemma components_rstrip p : components (rstrip_slashes p) = components p.
Proof.
  induction p as [| p c IH] using string_rev_ind; [reflexivity |].
  destruct (Ascii.eqb_spec c slash) as [-> | Hc].
  - rewrite rstrip_slashes_append_slash, IH, components_app, components_nil.
    now rewrite app_nil_r.
  - rewrite rstrip_slashes_id; [reflexivity |].
    rewrite ends_with_slash_append. cbn [ends_with_slash].
    now apply Ascii.eqb_neq.
Qed.

Lemma split_last_plain n : has_slash n = false -> split_last n = ("", n).
Proof.
  induction n as [| c n IH]; cbn [has_slash split_last]; [reflexivity |].
  intros H. apply orb_false_iff in H as [Hc Hn]. now rewrite (IH Hn), Hc.
Qed.

Lemma split_last_append h n :
  has_slash n = false -> h = "" \/ ends_with_slash h = true ->
  split_last (h +:+ n) = (h, n).
Proof.
  intros Hn. induction h as [| c h IH]; intros Hh.
  - now apply split_last_plain.
  - destruct Hh as [Hh | Hh]; [discriminate |].
    rewrite append_cons. cbn [split_last].
    destruct h as [| c' h'].
    + rewrite append_nil_l, (split_last_plain n Hn).
      cbn [ends_with_slash] in Hh. now rewrite Hh.
    + rewrite IH by (right; exact Hh). reflexivity.
Qed.

Lemma split_last_length p :
  (String.length (fst (split_last p)) + String.length (snd (split_last p))
   = String.length p)%nat.
Proof.
  induction p as [| c p IH]; [reflexivity |]. cbn [split_last].
  destruct (split_last p) as [[| d h] t]; cbn [fst snd String.length] in *.
  - destruct (Ascii.eqb c slash); cbn [fst snd String.length]; lia.
  - lia.
Qed.

Lemma posix_split_length p :
  (String.length (fst (posix_split p)) + String.length (snd (posix_split p))
   <= String.length p)%nat.
Proof.
  unfold posix_split. pose proof (split_last_length p) as H.
  destruct (split_last p) as [h t]. cbn [fst snd] in *.
  destruct (all_slashes h); [lia |].
  pose proof (rstrip_slashes_length h). lia.
Qed.

Lemma trim_components a : components (trim a) = components a.
Proof. unfold trim. destruct (all_slashes a); [reflexivity | apply components_rstrip]. Qed.

Lemma trim_start a : start (trim a) = start a.
Proof.
  unfold trim, start. destruct (all_slashes a) eqn:E; [reflexivity |].
  now rewrite starts_with_slash_rstrip.
Qed.

Lemma trim_length a : (String.length (trim a) <= String.length a)%nat.
Proof.
  unfold trim. destruct (all_slashes a); [reflexivity | apply rstrip_slashes_length].
Qed.

Lemma trim_has_nul a : has_nul a = false -> has_nul (trim a) = false.
Proof.
  unfold trim. destruct (all_slashes a); [easy | apply has_nul_rstrip].
Qed.

Lemma trim_not_empty a : a <> "" -> trim a <> "".
Proof.
  unfold trim. intros Ha. destruct (all_slashes a) eqn:E; [exact Ha |].
  now apply rstrip_slashes_not_empty.
Qed.

Lemma trim_id a : ends_with_slash a = false -> trim a = a.
Proof.
  intros H. unfold trim. destruct (all_slashes a); [reflexivity |].
  now apply rstrip_slashes_id.
Qed.

Section PlainNames.

Variable n : string.
Hypothesis Hn : plain_name n = true.

Lemma plain_name_inv :
  n <> "" /\ n <> "." /\ n <> ".." /\ has_slash n = false.
Proof.
  unfold plain_name in Hn.
  repeat (apply andb_true_iff in Hn as [Hn ?]).
  repeat match goal with
         | H : negb _ = true |- _ => apply negb_true_iff in H
         end.
  repeat split; try (apply String.eqb_neq; assumption); assumption.
Qed.

Lemma plain_name_no_leading_slash : starts_with_slash n = false.
Proof.
  destruct plain_name_inv as (_ & _ & _ & Hs).
  destruct n as [| c s]; [reflexivity |]. cbn in *.
  now apply orb_false_iff in Hs as [-> _].
Qed.

Lemma walk_component_plain k : walk_component k n = k ++ [n].
Proof.
  destruct plain_name_inv as (H1 & H2 & H3 & _).
  unfold walk_component.
  apply String.eqb_neq in H1, H2, H3. now rewrite H1, H2, H3.
Qed.

Lemma is_anchor_below k p : is_anchor (k ++ n :: p) = false.
Proof.
  destruct plain_name_inv as (_ & _ & H3 & Hs).
  unfold is_anchor. rewrite forallb_app. cbn [forallb].
  apply String.eqb_neq in H3. rewrite H3.
  destruct (String.eqb_spec n "/") as [E | _].
  - rewrite E in Hs. discriminate Hs.
  - cbn. apply andb_false_r.
Qed.

Lemma fs_node_below (fs : gmap (list string) node) k p :
  fs_node fs (k ++ n :: p) = fs !! (k ++ n :: p).
Proof. unfold fs_node. now rewrite is_anchor_below. Qed.

Lemma components_plain : components n = [n].
Proof.
  destruct plain_name_inv as (H1 & _ & _ & Hs).
  unfold components. rewrite (split_slash_plain _ Hs). cbn [List.filter].
  apply String.eqb_neq in H1. now rewrite H1.
Qed.

(** The path of the entry [n] of the directory [a], taken apart. *)
Lemma os_path_join_split a :
  exists h,
    os_path_join a n = h +:+ n
    /\ (h = "" \/ ends_with_slash h = true)
    /\ components h = components a
    /\ start (h +:+ n) = start a
    /\ has_nul h = has_nul a
    /\ trim h = trim a.
Proof.
  pose proof plain_name_no_leading_slash as Hl.
  unfold os_path_join. rewrite Hl.
  destruct (String.eqb_spec a "") as [-> | Ha]; cbn [orb].
  - exists "". rewrite append_nil_l. repeat split; try reflexivity; [now left |].
    unfold start. now rewrite Hl.
  - destruct (ends_with_slash a) eqn:He.
    + exists a. repeat split; try reflexivity; [now right |].
      unfold start. now rewrite starts_with_slash_app.
    + exists (a +:+ "/"). rewrite append_assoc. repeat split.
      * right. rewrite ends_with_slash_append. reflexivity.
      * change "/" with (String slash ""). rewrite components_app, components_nil.
        now rewrite app_nil_r.
      * unfold start. rewrite <- append_assoc.
        rewrite !starts_with_slash_app; [reflexivity | exact Ha |].
        destruct a; [congruence | discriminate].
      * rewrite has_nul_append. cbn. now rewrite orb_false_r.
      * unfold trim. rewrite all_slashes_append. cbn [all_slashes].
        rewrite Ascii.eqb_refl. cbn [andb]. rewrite andb_true_r.
        destruct (all_slashes a) eqn:Ea.
        -- rewrite (all_slashes_ends a Ha Ea) in He. discriminate He.
        -- apply rstrip_slashes_append_slash.
Qed.

Lemma os_path_join_components a :
  components (os_path_join a n) = components a ++ [n].
Proof.
  destruct (os_path_join_split a) as (h & -> & Hh & Hc & _).
  destruct Hh as [-> | Hh].
  - rewrite append_nil_l, components_plain. cbn in Hc. now rewrite <- Hc.
  - destruct (ends_with_slash_inv _ Hh) as (q & ->).
    rewrite append_assoc, append_cons, append_nil_l, components_app, components_plain.
    rewrite <- Hc, components_app, components_nil. now rewrite app_nil_r.
Qed.

Lemma os_path_join_start a : start (os_path_join a n) = start a.
Proof. now destruct (os_path_join_split a) as (h & -> & _ & _ & Hs & _). Qed.

Lemma os_path_join_no_trailing_slash a : ends_with_slash (os_path_join a n) = false.
Proof.
  destruct plain_name_inv as (H1 & _ & _ & Hs).
  destruct (os_path_join_split a) as (h & -> & _).
  destruct n as [| c s] eqn:E; [congruence |].
  rewrite ends_with_slash_append. now apply ends_with_slash_no_slash.
Qed.

Lemma os_path_join_has_nul a : has_nul (os_path_join a n) = has_nul a || has_nul n.
Proof.
  destruct (os_path_join_split a) as (h & -> & _ & _ & _ & Hnul & _).
  now rewrite has_nul_append, Hnul.
Qed.

Lemma os_path_join_not_empty a : os_path_join a n <> "".
Proof.
  destruct plain_name_inv as (H1 & _).
  destruct (os_path_join_split a) as (h & -> & _).
  destruct h; [now rewrite append_nil_l | discriminate].
Qed.


Lemma os_path_join_plain a :
  os_path_join a n <> "" /\ resolve (os_path_join a n) = resolve a ++ [n].
Proof.
  split; [apply os_path_join_not_empty |].
  rewrite !resolve_components, os_path_join_components, os_path_join_start.
  rewrite fold_left_app. cbn [fold_left]. apply walk_component_plain.
Qed.

Lemma posix_split_join a : posix_split (os_path_join a n) = (trim a, n).
Proof.
  destruct plain_name_inv as (_ & _ & _ & Hs).
  destruct (os_path_join_split a) as (h & -> & Hh & _ & _ & _ & Ht).
  unfold posix_split. rewrite (split_last_append h n Hs Hh).
  now rewrite <- Ht.
Qed.

End PlainNames.

(** ** Looking up a path *)

Lemma walk_app (fs : gmap (list string) node) cs :
  forall k ds,
    walk fs k (cs ++ ds)
    = match walk fs k cs with
      | Ok k' => walk fs k' ds
      | Raise e => Raise e
      | NoFuel => NoFuel
      end.
Proof.
  induction cs as [| c cs IH]; intros k ds; cbn [app walk]; [reflexivity |].
  destruct (String.eqb c "."); [apply IH |].
  destruct (String.eqb c ".."); [apply IH |].
  destruct (NAME_MAX <? String.length c)%nat; [reflexivity |].
  destruct (fs_node fs (k ++ [c])) as [[| x] |]; [apply IH | reflexivity | reflexivity].
Qed.

Lemma walk_ends (fs : gmap (list string) node) cs : forall k, walk fs k cs <> NoFuel.
Proof.
  induction cs as [| c cs IH]; intros k; cbn [walk]; [discriminate |].
  destruct (String.eqb c "."); [apply IH |].
  destruct (String.eqb c ".."); [apply IH |].
  destruct (NAME_MAX <? String.length c)%nat; [discriminate |].
  destruct (fs_node fs (k ++ [c])) as [[| x] |]; [apply IH | discriminate | discriminate].
Qed.

Lemma walk_raises (fs : gmap (list string) node) cs :
  forall k e,
    walk fs k cs = Raise e ->
    e = FileNotFoundError \/ e = NotADirectoryError \/ e = OSError.
Proof.
  induction cs as [| c cs IH]; intros k e; cbn [walk]; [discriminate |].
  destruct (String.eqb c "."); [apply IH |].
  destruct (String.eqb c ".."); [apply IH |].
  destruct (NAME_MAX <? String.length c)%nat; [intros [= <-]; auto |].
  destruct (fs_node fs (k ++ [c])) as [[| x] |];
    [apply IH | intros [= <-]; auto | intros [= <-]; auto].
Qed.

(** A walk that arrives, arrives where the path leads. *)
Lemma walk_resolve (fs : gmap (list string) node) cs :
  forall k k',
    Forall (fun c => c <> "") cs ->
    walk fs k cs = Ok k' -> fold_left walk_component cs k = k'.
Proof.
  induction cs as [| c cs IH]; intros k k' Hne H; cbn [walk fold_left] in *.
  - now injection H.
  - apply Forall_cons_1 in Hne as [Hc Hne]. apply String.eqb_neq in Hc.
    unfold walk_component at 2. rewrite Hc. cbn [orb].
    destruct (String.eqb c "."); [now apply IH |].
    destruct (String.eqb c ".."); [now apply IH |].
    destruct (NAME_MAX <? String.length c)%nat; [discriminate |].
    destruct (fs_node fs (k ++ [c])) as [[| x] |]; [now apply IH | discriminate..].
Qed.

Lemma fs_node_kept (f g : gmap (list string) node) k :
  keeps_kind f g -> fs_node f k = Some Dir -> fs_node g k = Some Dir.
Proof.
  intros Hk. unfold fs_node. destruct (is_anchor k); [easy |].
  intros H. destruct (Hk k Dir H) as ([| c] & -> & Hs); [reflexivity | destruct Hs].
Qed.

(** A walk that arrives still does when entries are added or files written
    over. *)
Lemma walk_kept (f g : gmap (list string) node) cs :
  forall k k', keeps_kind f g -> walk f k cs = Ok k' -> walk g k cs = Ok k'.
Proof.
  induction cs as [| c cs IH]; intros k k' Hk H; cbn [walk] in *; [exact H |].
  destruct (String.eqb c "."); [now apply IH |].
  destruct (String.eqb c ".."); [now apply IH |].
  destruct (NAME_MAX <? String.length c)%nat; [discriminate |].
  destruct (fs_node f (k ++ [c])) as [[| x] |] eqn:E; try discriminate.
  rewrite (fs_node_kept f g _ Hk E). now apply IH.
Qed.

Lemma opens_kept (f g : gmap (list string) node) local :
  keeps_kind f g -> opens f local -> opens g local.
Proof.
  intros Hk (H1 & H2 & H3). repeat split; try assumption. now apply walk_kept with f.
Qed.

Lemma split_slash_no_slash p : Forall (fun c => has_slash c = false) (split_slash p).
Proof.
  induction p as [| c p IH]; cbn [split_slash]; [now repeat constructor |].
  destruct (Ascii.eqb c slash) eqn:Ec; [now constructor |].
  destruct (split_slash p) as [| h t].
  - repeat constructor. cbn. now rewrite Ec.
  - apply Forall_cons_1 in IH as [Hh Ht]. constructor; [| exact Ht].
    cbn [has_slash]. now rewrite Ec, Hh.
Qed.

Lemma components_no_slash p c : In c (components p) -> has_slash c = false /\ c <> "".
Proof.
  unfold components. intros H. apply List.filter_In in H as [H Hne].
  split.
  - pose proof (split_slash_no_slash p) as Hall.
    rewrite List.Forall_forall in Hall. now apply Hall.
  - apply negb_true_iff in Hne. now apply String.eqb_neq.
Qed.

Lemma last_components p c :
  last (components p) = Some c ->
  components p = removelast (components p) ++ [c] /\ has_slash c = false /\ c <> "".
Proof.
  intros H. apply last_Some in H as (l & E). rewrite E, removelast_last.
  split; [reflexivity |]. apply (components_no_slash p).
  rewrite E. apply in_or_app. right. now left.
Qed.

(** What [namei] finds is at the location the path leads to. *)
Lemma namei_entry (fs : gmap (list string) node) p k c :
  namei fs p = Ok (Entry k c) ->
  resolve p = k ++ [c] /\ plain_name c = true.
Proof.
  unfold namei. destruct (path_error p); [discriminate |].
  destruct (last (components p)) as [c' |] eqn:El; [| discriminate].
  destruct (last_components p c' El) as (Ec & Hs & Hne).
  destruct (walk fs (start p) (removelast (components p))) as [k' | e |] eqn:Ew;
    try discriminate.
  destruct (String.eqb_spec c' ".") as [| Hd]; [discriminate |].
  destruct (String.eqb_spec c' "..") as [| Hdd]; [discriminate |].
  intros [= <- <-].
  assert (Hp : plain_name c' = true).
  { unfold plain_name. apply String.eqb_neq in Hne, Hd, Hdd.
    now rewrite Hne, Hd, Hdd, Hs. }
  split; [| exact Hp].
  rewrite resolve_components, Ec, fold_left_app. cbn [fold_left].
  pose proof (components_not_empty p) as Hall. rewrite Ec in Hall.
  apply Forall_app in Hall as [Hall _].
  rewrite (walk_resolve fs _ _ _ Hall Ew).
  now apply walk_component_plain.
Qed.


(** ** The operations on a path *)

Lemma path_exists_walk (fs : gmap (list string) node) p k :
  path_error p = None ->
  walk fs (start p) (components p) = Ok k ->
  path_exists fs p = true.
Proof.
  intros He Hw. unfold path_exists, namei. rewrite He.
  destruct (last (components p)) as [c |] eqn:El; [| reflexivity].
  destruct (last_components p c El) as (Ec & _ & _).
  rewrite Ec, walk_app in Hw.
  destruct (walk fs (start p) (removelast (components p))) as [k0 | e |];
    try discriminate.
  cbn [walk] in Hw.
  destruct (String.eqb c "."); [reflexivity |].
  destruct (String.eqb c ".."); [reflexivity |].
  unfold too_long.
  destruct (NAME_MAX <? String.length c)%nat; [discriminate |].
  destruct (fs_node fs (k0 ++ [c])) as [[| x] |]; [reflexivity | discriminate..].
Qed.

Lemma fs_write_inv (fs fs' : gmap (list string) node) p content :
  fs_write fs p content = Ok fs' ->
  fs' = <[resolve p := File content]> fs /\ fs !! resolve p <> Some Dir.
Proof.
  unfold fs_write. destruct (namei fs p) as [[k | k c] | e |] eqn:E; try discriminate.
  destruct (namei_entry _ _ _ _ E) as [Hr Hp].
  destruct (ends_with_slash p); [discriminate |].
  destruct (too_long c); [discriminate |].
  rewrite (fs_node_below c Hp fs k []), <- Hr.
  destruct (fs !! resolve p) as [[| x] |]; intros [= <-]; split; congruence.
Qed.

Lemma fs_mkdir_inv (fs fs' : gmap (list string) node) p :
  fs_mkdir fs p = Ok fs' ->
  fs' = <[resolve p := Dir]> fs /\ fs !! resolve p = None.
Proof.
  unfold fs_mkdir. destruct (namei fs p) as [[k | k c] | e |] eqn:E; try discriminate.
  destruct (namei_entry _ _ _ _ E) as [Hr Hp].
  destruct (too_long c); [discriminate |].
  rewrite (fs_node_below c Hp fs k []), <- Hr.
  destruct (fs !! resolve p) as [x |]; intros [= <-]; now split.
Qed.



(** One call of [os.makedirs], by the two paths it may take. *)
Lemma makedirs_step (fuel : nat) (fs : gmap (list string) node) (name : string) :
  let step fs1 :=
    match fs_mkdir fs1 name with
    | Ok fs2 => (Ok tt, fs2)
    | Raise e => (Raise e, fs1)
    | NoFuel => (NoFuel, fs1)
    end in
  makedirs (S fuel) fs name = step fs
  \/ exists head tail,
      (String.length head < String.length name)%nat
      /\ makedirs (S fuel) fs name
         = match makedirs fuel fs head with
           | (Ok _, fs1) | (Raise FileExistsError, fs1) =>
               if String.eqb tail "." then (Ok tt, fs1) else step fs1
           | (Raise e, fs1) => (Raise e, fs1)
           | (NoFuel, fs1) => (NoFuel, fs1)
           end.
Proof.
  intros step. cbn [makedirs].
  pose proof (posix_split_length name) as H1.
  destruct (posix_split name) as [h t]. cbn [fst snd] in H1.
  pose proof (posix_split_length h) as H2.
  destruct (String.eqb_spec t "") as [-> | Ht].
  - destruct (posix_split h) as [h2 t2]. cbn [fst snd] in H2.
    destruct (String.eqb_spec h2 "") as [| Hh2]; cbn [negb andb]; [now left |].
    destruct (String.eqb_spec t2 "") as [| Ht2]; cbn [negb andb]; [now left |].
    destruct (path_exists fs h2); cbn [negb]; [now left |].
    right. exists h2, t2. split; [| reflexivity].
    destruct t2; [congruence |]. cbn [String.length] in H2. lia.
  - destruct (String.eqb_spec h "") as [| Hh]; cbn [negb andb]; [now left |].
    apply String.eqb_neq in Ht. rewrite Ht. cbn [negb andb].
    destruct (path_exists fs h); cbn [negb]; [now left |].
    right. exists h, t. split; [| reflexivity].
    apply String.eqb_neq in Ht. destruct t; [congruence |].
    cbn [String.length] in H1. lia.
Qed.

(** [os.makedirs] adds directories and changes nothing that is there, also
    when it raises. *)
Lemma makedirs_keeps fuel :
  forall (fs fs' : gmap (list string) node) name r,
    makedirs fuel fs name = (r, fs') ->
    forall key x, fs !! key = Some x -> fs' !! key = Some x.
Proof.
  induction fuel as [| fuel IH]; intros fs fs' name r H key x Hx.
  - cbn in H. now injection H as _ <-.
  - assert (Hstep : forall fs1 r1 fs2,
               match fs_mkdir fs1 name with
               | Ok fs2 => (Ok tt, fs2)
               | Raise e => (Raise e, fs1)
               | NoFuel => (NoFuel, fs1)
               end = (r1, fs2) ->
               fs1 !! key = Some x -> fs2 !! key = Some x).
    { intros fs1 r1 fs2 Hm Hx1.
      destruct (fs_mkdir fs1 name) as [f | e |] eqn:Em;
        injection Hm as _ <-; try exact Hx1.
      apply fs_mkdir_inv in Em as [-> Hnone].
      rewrite lookup_insert_ne; [exact Hx1 | congruence]. }
    destruct (makedirs_step fuel fs name) as [E | (head & tail & _ & E)];
      rewrite E in H; clear E.
    + now apply (Hstep fs r fs').
    + destruct (makedirs fuel fs head) as [r0 fs0] eqn:E0.
      pose proof (IH _ _ _ _ E0 key x Hx) as Hx0.
      destruct r0 as [[] | e |].
      * destruct (String.eqb tail ".");
          [now injection H as _ <- | now apply (Hstep fs0 r fs')].
      * destruct e;
          try (now injection H as _ <-).
        destruct (String.eqb tail ".");
          [now injection H as _ <- | now apply (Hstep fs0 r fs')].
      * now injection H as _ <-.
Qed.


Lemma fs_makedirs_keeps (fs fs' : gmap (list string) node) p r :
  fs_makedirs fs p = (r, fs') ->
  forall key x, fs !! key = Some x -> fs' !! key = Some x.
Proof. apply makedirs_keeps. Qed.


(** ** The steps of the mirror on the local side *)

Section LocalSteps.

Variable fs : gmap (list string) node.
Variable local : string.
Variable n : string.
Hypothesis Hn : plain_name n = true.

(** Looking up the entry [n] of [local]: the path is checked, then the walk
    to [local] is made. *)
Lemma namei_join :
  namei fs (os_path_join local n)
  = match path_error (os_path_join local n) with
    | Some e => Raise e
    | None =>
        match walk fs (start local) (components local) with
        | Ok k => Ok (Entry k n)
        | Raise e => Raise e
        | NoFuel => NoFuel
        end
    end.
Proof using Hn.
  destruct (plain_name_inv n Hn) as (_ & H2 & H3 & _).
  unfold namei. destruct (path_error (os_path_join local n)); [reflexivity |].
  rewrite (os_path_join_components n Hn), last_snoc, removelast_last.
  rewrite (os_path_join_start n Hn).
  apply String.eqb_neq in H2, H3. now rewrite H2, H3.
Qed.

(** [os.makedirs] on the entry [n] of a directory that is there makes one
    directory. *)
Lemma makedirs_join :
  trim local = "" \/ path_exists fs (trim local) = true ->
  fs_makedirs fs (os_path_join local n)
  = match fs_mkdir fs (os_path_join local n) with
    | Ok fs2 => (Ok tt, fs2)
    | Raise e => (Raise e, fs)
    | NoFuel => (NoFuel, fs)
    end.
Proof using Hn.
  intros Hhead. unfold fs_makedirs. cbn [makedirs].
  rewrite (posix_split_join n Hn).
  destruct (plain_name_inv n Hn) as (H1 & _).
  apply String.eqb_neq in H1. rewrite H1.
  destruct Hhead as [-> | ->]; [reflexivity |].
  now rewrite andb_false_r.
Qed.

Hypothesis Hopen : opens fs local.

Lemma opens_trim : trim local = "" \/ path_exists fs (trim local) = true.
Proof using Hopen.
  destruct Hopen as (Hnul & Hlen & Hw).
  destruct (String.eqb_spec local "") as [-> | Hne]; [now left |]. right.
  apply path_exists_walk with (resolve local).
  - unfold path_error. rewrite (trim_has_nul _ Hnul).
    pose proof (trim_not_empty _ Hne) as Ht. apply String.eqb_neq in Ht. rewrite Ht.
    pose proof (trim_length local).
    destruct (Nat.leb_spec PATH_MAX (String.length (trim local))); [lia | reflexivity].
  - now rewrite trim_start, trim_components.
Qed.

Lemma path_error_join :
  path_error (os_path_join local n)
  = if has_nul n then Some ValueError
    else if (PATH_MAX <=? String.length (os_path_join local n))%nat then Some OSError
         else None.
Proof using Hn Hopen.
  destruct Hopen as (Hnul & _).
  unfold path_error. rewrite (os_path_join_has_nul n Hn), Hnul. cbn [orb].
  destruct (has_nul n); [reflexivity |].
  pose proof (os_path_join_not_empty n Hn local) as Hne.
  apply String.eqb_neq in Hne. now rewrite Hne.
Qed.

Lemma namei_child :
  namei fs (os_path_join local n)
  = match path_error (os_path_join local n) with
    | Some e => Raise e
    | None => Ok (Entry (resolve local) n)
    end.
Proof using Hn Hopen.
  rewrite namei_join. destruct Hopen as (_ & _ & ->). reflexivity.
Qed.

Lemma path_exists_child :
  path_exists fs (os_path_join local n)
  = match entry_error local n with
    | Some _ => false
    | None =>
        match fs !! (resolve local ++ [n]) with
        | Some _ => true
        | None => false
        end
    end.
Proof using Hn Hopen.
  unfold path_exists. rewrite namei_child, path_error_join. unfold entry_error.
  destruct (has_nul n); [reflexivity |].
  destruct (PATH_MAX <=? String.length (os_path_join local n))%nat; [reflexivity |].
  cbn [orb]. destruct (too_long n); [reflexivity |].
  rewrite (fs_node_below n Hn fs (resolve local) []).
  rewrite (os_path_join_no_trailing_slash n Hn).
  destruct (fs !! (resolve local ++ [n])) as [[| x] |]; reflexivity.
Qed.

Lemma fs_mkdir_child :
  fs_mkdir fs (os_path_join local n)
  = match entry_error local n with
    | Some e => Raise e
    | None =>
        match fs !! (resolve local ++ [n]) with
        | Some _ => Raise FileExistsError
        | None => Ok (<[resolve local ++ [n] := Dir]> fs)
        end
    end.
Proof using Hn Hopen.
  unfold fs_mkdir. rewrite namei_child, path_error_join. unfold entry_error.
  destruct (has_nul n); [reflexivity |].
  destruct (PATH_MAX <=? String.length (os_path_join local n))%nat; [reflexivity |].
  cbn [orb]. destruct (too_long n); [reflexivity |].
  now rewrite (fs_node_below n Hn fs (resolve local) []).
Qed.

Lemma fs_makedirs_child :
  fs_makedirs fs (os_path_join local n)
  = match entry_error local n with
    | Some e => (Raise e, fs)
    | None =>
        match fs !! (resolve local ++ [n]) with
        | Some _ => (Raise FileExistsError, fs)
        | None => (Ok tt, <[resolve local ++ [n] := Dir]> fs)
        end
    end.
Proof using Hn Hopen.
  rewrite (makedirs_join opens_trim), fs_mkdir_child.
  destruct (entry_error local n); [reflexivity |].
  destruct (fs !! (resolve local ++ [n])); reflexivity.
Qed.

Lemma fs_write_child content :
  fs_write fs (os_path_join local n) content
  = match entry_error local n with
    | Some e => Raise e
    | None =>
        match fs !! (resolve local ++ [n]) with
        | Some Dir => Raise IsADirectoryError
        | _ => Ok (<[resolve local ++ [n] := File content]> fs)
        end
    end.
Proof using Hn Hopen.
  unfold fs_write. rewrite namei_child, path_error_join. unfold entry_error.
  destruct (has_nul n); [reflexivity |].
  destruct (PATH_MAX <=? String.length (os_path_join local n))%nat; [reflexivity |].
  cbn [orb]. rewrite (os_path_join_no_trailing_slash n Hn).
  destruct (too_long n); [reflexivity |].
  now rewrite (fs_node_below n Hn fs (resolve local) []).
Qed.

Lemma entry_error_none :
  entry_error local n = None ->
  has_nul n = false
  /\ (String.length (os_path_join local n) < PATH_MAX)%nat
  /\ too_long n = false.
Proof using Type.
  unfold entry_error. destruct (has_nul n); [discriminate |].
  destruct (Nat.leb_spec PATH_MAX (String.length (os_path_join local n)));
    [discriminate |].
  cbn [orb]. destruct (too_long n); [discriminate |]. now repeat split.
Qed.

(** The walk to the entry [n] of [local]. *)
Lemma walk_child :
  walk fs (start (os_path_join local n)) (components (os_path_join local n))
  = if too_long n then Raise OSError
    else match fs !! (resolve local ++ [n]) with
         | Some Dir => Ok (resolve local ++ [n])
         | Some (File _) => Raise NotADirectoryError
         | None => Raise FileNotFoundError
         end.
Proof using Hn Hopen.
  destruct (plain_name_inv n Hn) as (_ & H2 & H3 & _).
  rewrite (os_path_join_components n Hn), (os_path_join_start n Hn), walk_app.
  destruct Hopen as (_ & _ & ->). cbn [walk].
  apply String.eqb_neq in H2, H3. rewrite H2, H3. unfold too_long.
  destruct (NAME_MAX <? String.length n)%nat; [reflexivity |].
  rewrite (fs_node_below n Hn fs (resolve local) []).
  destruct (fs !! (resolve local ++ [n])) as [[| x] |]; reflexivity.
Qed.

(** A subfolder that is there as a directory can be entered. *)
Lemma opens_child :
  entry_error local n = None ->
  fs !! (resolve local ++ [n]) = Some Dir ->
  opens fs (os_path_join local n).
Proof using Hn Hopen.
  intros He Hd. destruct (entry_error_none He) as (Hnul & Hlen & Hlong).
  destruct (os_path_join_plain n Hn local) as [_ Hr].
  repeat split.
  - rewrite (os_path_join_has_nul n Hn), Hnul. now destruct Hopen as (-> & _).
  - exact Hlen.
  - now rewrite walk_child, Hlong, Hd, Hr.
Qed.

End LocalSteps.

(** ** The walk *)

Section Walk.

Variable net : request -> response.
Variable self : SharePointClient.
Variables site_id drive_id : pyval.

Lemma list_item_folder recur item id name acc w :
  is_folder_item item id name ->
  list_item recur item acc w
  = bind (recur (PStr id))
         (fun sub => ret ((acc ++ [folder_entry (PStr name)]) ++ sub)) w.
Proof.
  intros (d & -> & Hf & Hn & Hi). unfold list_item. cbn [py_in py_getitem].
  now rewrite Hf, bind_lift_ok, Hn, bind_lift_ok, Hi, bind_lift_ok.
Qed.

Lemma list_item_file recur item id name mime acc w :
  is_file_item item id name mime ->
  list_item recur item acc w
  = (Ok (acc ++ [file_entry (PStr name) (PStr mime)]), w).
Proof.
  intros (d & f & -> & Hnf & Hf & Hm & Hn & Hi). unfold list_item.
  cbn [py_in py_getitem]. rewrite Hnf, bind_lift_ok.
  unfold dict_has. rewrite Hf, bind_lift_ok, Hn, bind_lift_ok, bind_lift_ok.
  cbn [py_getitem]. now rewrite Hm, bind_lift_ok.
Qed.

(** The loop of the walk over the elements that describe a served tree
    appends the pre-order listing of the tree. *)
Lemma walk_loop cs :
  forall items fuel level acc w,
    describes items cs ->
    serves_items net self site_id drive_id cs ->
    (depth cs <= fuel)%nat ->
    exists w',
      for_each
        (list_item (fun id =>
           list_folder_contents net fuel self site_id drive_id id level))
        items acc w
      = (Ok (acc ++ preorder cs), w').
Proof.
  induction cs as [| id name sub IHsub rest IHrest | id name mime rsp rest IHrest];
    intros items fuel level acc w Hdesc Hs Hd;
    describes_inv Hdesc items item.
  - exists w. cbn. now rewrite app_nil_r.
  - destruct Hdesc as [Hitem Hdesc].
    cbn [serves_items] in Hs. destruct Hs as (Hl & Hsub & Hrest).
    cbn [depth] in Hd.
    destruct fuel as [| fuel']; [lia |].
    cbn [for_each].
    destruct (list_folder_contents_listing _ _ _ _ _ _ Hl)
      as (subitems & Hsubdesc & Hrun).
    destruct (IHsub subitems fuel' (level + 1) []
                (sent (get_request self (children_url site_id drive_id (PStr id))) w)
                Hsubdesc Hsub ltac:(lia)) as (w1 & E1).
    cbn [app] in E1.
    destruct (IHrest items (S fuel') level
                ((acc ++ [folder_entry (PStr name)]) ++ preorder sub) w1
                Hdesc Hrest ltac:(lia)) as (w2 & E2).
    exists w2.
    erewrite bind_ok.
    2:{ rewrite (list_item_folder _ _ _ _ _ _ Hitem). erewrite bind_ok.
        2:{ rewrite Hrun. exact E1. }
        reflexivity. }
    rewrite E2. cbn [preorder]. f_equal. f_equal.
    rewrite <- !app_assoc. reflexivity.
  - destruct Hdesc as [Hitem Hdesc].
    cbn [serves_items] in Hs. destruct Hs as (_ & Hrest).
    cbn [depth] in Hd.
    cbn [for_each].
    destruct (IHrest items fuel level (acc ++ [file_entry (PStr name) (PStr mime)]) w
                Hdesc Hrest Hd) as (w2 & E2).
    exists w2.
    erewrite bind_ok by exact (list_item_file _ _ _ _ _ _ _ Hitem).
    rewrite E2. cbn [preorder]. rewrite <- app_assoc. reflexivity.
Qed.

Lemma preorder_length cs : length (preorder cs) = (nfolders cs + nfiles cs)%nat.
Proof.
  induction cs as [| id name sub IHsub rest IHrest | id name mime rsp rest IHrest];
    cbn [preorder nfolders nfiles length].
  - reflexivity.
  - rewrite length_app, IHsub, IHrest. lia.
  - rewrite IHrest. lia.
Qed.

End Walk.

(** C1.  On a folder holding a finite tree with N folders and M files, with
    room for the nesting of the tree, [list_folder_contents] returns the
    pre-order listing of the tree: N+M entries, one per item, each folder
    before its subtree, a subtree before the folder's next sibling, siblings
    in the order of the API. *)
Theorem list_folder_contents_preorder :
  forall net self site_id drive_id folder_id cs fuel level w,
    serves net self site_id drive_id folder_id cs ->
    (depth cs < fuel)%nat ->
    fst (list_folder_contents net fuel self site_id drive_id folder_id level w)
    = Ok (preorder cs)
    /\ length (preorder cs) = (nfolders cs + nfiles cs)%nat.
Proof.
  intros net self site_id drive_id folder_id cs fuel level w [Hl Hs] Hd.
  split; [| apply preorder_length].
  destruct fuel as [| fuel']; [lia |].
  destruct (list_folder_contents_listing _ _ _ _ _ _ Hl) as (items & Hdesc & Hrun).
  rewrite Hrun.
  destruct (walk_loop net self site_id drive_id cs items fuel' (level + 1) []
              (sent (get_request self (children_url site_id drive_id folder_id)) w)
              Hdesc Hs ltac:(lia)) as (w' & E).
  rewrite E. reflexivity.
Qed.

(** ** Token acquisition and identifier resolution *)

(** C5, as stated, fails: with a body that lacks [access_token] the call
    returns [None] and raises nothing. *)
Lemma get_access_token_missing_field_silent :
  fst (get_access_token rejecting_net example_client empty_world) = Ok PNone
  /\ ~ surfaces_error (get_access_token rejecting_net example_client empty_world).
Proof.
  split; [reflexivity |].
  intros [e He]. cbv in He. discriminate He.
Qed.

(** C5, amended.  When the body of the identity provider's response is an
    object without the [access_token] field, [get_access_token] returns
    [None] without raising; the constructor stores that as [access_token],
    and later requests carry the header [Authorization: Bearer None]. *)
Theorem get_access_token_absent_is_none :
  forall net tenant client secret resource_url w d,
    let self := new_client tenant client secret resource_url PNone in
    rsp_json (net (token_request self)) = Some (PDict d) ->
    dict_lookup "access_token" d = None ->
    get_access_token net self w = (Ok PNone, sent (token_request self) w)
    /\ __init__ net tenant client secret resource_url w
       = (Ok (new_client tenant client secret resource_url PNone),
          sent (token_request self) w)
    /\ authorization (new_client tenant client secret resource_url PNone)
       = [("Authorization", "Bearer None")].
Proof.
  intros net tenant client secret resource_url w d self Hj Hd.
  assert (E : get_access_token net self w = (Ok PNone, sent (token_request self) w)).
  { unfold get_access_token, requests_post, send, bind at 1.
    fold (token_request self). unfold response_json. rewrite Hj.
    rewrite bind_ret. cbn [py_get]. rewrite Hd. reflexivity. }
  split; [exact E |]. split; [| reflexivity].
  unfold __init__. fold (new_client tenant client secret resource_url PNone).
  fold self. erewrite bind_ok by exact E. reflexivity.
Qed.

Lemma get_access_token_absent_example :
  get_access_token rejecting_net
    (new_client "your-tenant-id" "your-client-id" "your-client-secret" resource PNone)
    empty_world
  = (Ok PNone,
     sent (token_request
             (new_client "your-tenant-id" "your-client-id" "your-client-secret"
                         resource PNone)) empty_world)
  /\ __init__ rejecting_net "your-tenant-id" "your-client-id" "your-client-secret"
              resource empty_world
     = (Ok (new_client "your-tenant-id" "your-client-id" "your-client-secret"
                       resource PNone),
        sent (token_request
                (new_client "your-tenant-id" "your-client-id" "your-client-secret"
                            resource PNone)) empty_world)
  /\ authorization
       (new_client "your-tenant-id" "your-client-id" "your-client-secret"
                   resource PNone)
     = [("Authorization", "Bearer None")].
Proof.
  apply (get_access_token_absent_is_none rejecting_net
           "your-tenant-id" "your-client-id" "your-client-secret" resource
           empty_world [("error", PStr "invalid_client")]);
    reflexivity.
Defined.

(** A loop that only collects [(id, name)] pairs leaves the world alone. *)
Lemma collect_pairs_world items :
  forall acc w,
    snd (for_each (fun item rootdir =>
                     let* id := lift (py_getitem item "id") in
                     let* name := lift (py_getitem item "name") in
                     ret (rootdir ++ [(id, name)]))
                  items acc w) = w.
Proof.
  induction items as [| item items IH]; intros acc w; cbn [for_each].
  - reflexivity.
  - unfold bind at 1. unfold bind at 1. unfold lift at 1.
    destruct (py_getitem item "id") as [id | e |]; try reflexivity.
    unfold bind at 1. unfold lift at 1.
    destruct (py_getitem item "name") as [name | e |]; try reflexivity.
    cbn [ret]. apply IH.
Qed.

(** C9.  [get_folder_content] does not look at [folder_path]: whatever it
    is, the call sends the one request for the children of the drive root
    and returns what the call with ['root'] returns. *)
Theorem get_folder_content_ignores_folder_path :
  forall net self site_id drive_id folder_path w,
    get_folder_content net self site_id drive_id folder_path w
    = get_folder_content net self site_id drive_id (PStr "root") w
    /\ snd (get_folder_content net self site_id drive_id folder_path w)
       = sent (get_request self (root_children_url site_id drive_id)) w
    /\ root_children_url site_id drive_id
       = "https://graph.microsoft.com/v1.0/sites/" +:+ py_str site_id
           +:+ "/drives/" +:+ py_str drive_id +:+ "/root/children".
Proof.
  intros net self site_id drive_id folder_path w.
  split; [reflexivity |]. split; [| reflexivity].
  unfold get_folder_content, requests_get, send, bind at 1.
  fold (get_request self (root_children_url site_id drive_id)).
  fold (sent (get_request self (root_children_url site_id drive_id)) w).
  unfold bind at 1. unfold response_json.
  destruct (rsp_json _) as [items_data |]; [| reflexivity].
  cbn [ret]. unfold bind at 1. unfold lift at 1.
  destruct (py_in "value" items_data) as [[|] | e |]; try reflexivity.
  unfold bind at 1. unfold lift at 1.
  destruct (py_getitem items_data "value") as [value | e |]; try reflexivity.
  unfold bind at 1. unfold lift at 1.
  destruct (py_iter value) as [items | e |]; try reflexivity.
  apply collect_pairs_world.
Qed.

(** ** File downloads *)

Lemma download_file_failed net self download_url local_path file_name w :
  rsp_status (net (get_request self download_url)) <> 200 ->
  download_file net self download_url local_path file_name w
  = (Ok tt, logged_failure self download_url file_name
                           (net (get_request self download_url)) w).
Proof.
  intros Hst. unfold download_file, requests_get, send, bind at 1.
  fold (get_request self download_url).
  destruct (Z.eqb_spec (rsp_status (net (get_request self download_url))) 200)
    as [E | _]; [contradiction |].
  reflexivity.
Qed.

Lemma download_file_sent net self download_url local_path file_name w :
  w_sent (snd (download_file net self download_url local_path file_name w))
  = w_sent w ++ [get_request self download_url].
Proof.
  unfold download_file, requests_get, send, bind at 1.
  fold (get_request self download_url).
  destruct (rsp_status (net (get_request self download_url)) =? 200);
    [| reflexivity].
  destruct file_name; try reflexivity.
  cbn [as_str]. rewrite bind_ret. unfold bind, open_wb_write. cbn [w_fs].
  destruct (fs_write _ _ _); reflexivity.
Qed.


Lemma download_item_file net self site_id drive_id recur local item id name mime w :
  is_file_item item id name mime ->
  download_item net self site_id drive_id recur local item tt w
  = download_file net self (file_download_url site_id drive_id (PStr id))
                  local (PStr name) w.
Proof.
  intros (d & f & -> & Hnf & Hf & _ & Hn & Hi). unfold download_item.
  cbn [py_in py_getitem]. rewrite Hnf, bind_lift_ok.
  unfold dict_has. now rewrite Hf, bind_lift_ok, Hn, bind_lift_ok, Hi, bind_lift_ok.
Qed.


(** C4.  The URL the mirror requests for a file is built from the item's own
    identifier, but on the module-level [resource], which ends in a slash:
    it is not the content URL of the interface. *)
Theorem download_url_doubled_slash :
  forall net self site_id drive_id recur local item id name mime w,
    is_file_item item id name mime ->
    w_sent (snd (download_item net self site_id drive_id recur local item tt w))
    = w_sent w ++ [get_request self (file_download_url site_id drive_id (PStr id))]
    /\ file_download_url site_id drive_id (PStr id)
       = "https://graph.microsoft.com//v1.0/sites/" +:+ py_str site_id
           +:+ "/drives/" +:+ py_str drive_id +:+ "/items/" +:+ id +:+ "/content"
    /\ file_download_url site_id drive_id (PStr id)
       <> content_url site_id drive_id (PStr id).
Proof.
  intros net self site_id drive_id recur local item id name mime w Hitem.
  split; [| split].
  - rewrite (download_item_file _ _ _ _ _ _ _ _ _ _ _ Hitem).
    apply download_file_sent.
  - reflexivity.
  - unfold file_download_url, content_url, resource. cbn. intros H.
    discriminate H.
Qed.

(** ** Malformed and unmarked listings *)


Lemma download_item_folder net self site_id drive_id recur local item id name w :
  is_folder_item item id name ->
  download_item net self site_id drive_id recur local item tt w
  = bind (let* present := os_path_exists (os_path_join local name) in
          if present then ret tt else os_makedirs (os_path_join local name))
         (fun _ => recur (PStr id) (os_path_join local name)) w.
Proof.
  intros (d & -> & Hf & Hn & Hi). unfold download_item. cbn [py_in py_getitem].
  rewrite Hf, bind_lift_ok, Hn, bind_lift_ok. cbn [as_str].
  rewrite bind_ret, bind_assoc.
  apply bind_ext. intros present w1. apply bind_ext. intros _ w2.
  now rewrite Hi, bind_lift_ok.
Qed.





Lemma for_each_skip {S} (body : pyval -> S -> M S) pre item post :
  (forall s w, body item s w = (Ok s, w)) ->
  forall s w,
    for_each body (pre ++ item :: post) s w = for_each body (pre ++ post) s w.
Proof.
  intros Hskip s w. rewrite !for_each_app. apply bind_ext. intros s' w'.
  cbn [for_each]. erewrite bind_ok by apply Hskip. reflexivity.
Qed.

Lemma list_item_unmarked recur item acc w :
  unmarked item -> list_item recur item acc w = (Ok acc, w).
Proof.
  intros [Hfolder Hfile]. unfold list_item. rewrite Hfolder, bind_lift_ok.
  rewrite Hfile, bind_lift_ok. reflexivity.
Qed.

Lemma download_item_unmarked net self site_id drive_id recur local item u w :
  unmarked item ->
  download_item net self site_id drive_id recur local item u w = (Ok u, w).
Proof.
  intros [Hfolder Hfile]. unfold download_item. rewrite Hfolder, bind_lift_ok.
  rewrite Hfile, bind_lift_ok. destruct u. reflexivity.
Qed.

(** C10.  An item with neither a [folder] nor a [file] marker is dropped:
    the walk and the mirror do on a listing that holds it what they do on
    the listing without it.  A children response without the [value] field
    gives an empty walk, and a mirror that only sends the request. *)
Theorem unmarked_item_dropped :
  forall net self site_id drive_id folder_id item d fuel level,
    unmarked item ->
    rsp_json (net (get_request self (children_url site_id drive_id folder_id)))
    = Some (PDict d) ->
    dict_lookup "value" d = None ->
    (forall recur pre post acc w,
        list_item recur item acc w = (Ok acc, w)
        /\ for_each (list_item recur) (pre ++ item :: post) acc w
           = for_each (list_item recur) (pre ++ post) acc w)
    /\ (forall recur local pre post w,
           download_item net self site_id drive_id recur local item tt w = (Ok tt, w)
           /\ for_each (download_item net self site_id drive_id recur local)
                       (pre ++ item :: post) tt w
              = for_each (download_item net self site_id drive_id recur local)
                         (pre ++ post) tt w)
    /\ (forall w,
           list_folder_contents net (S fuel) self site_id drive_id folder_id level w
           = (Ok [], sent (get_request self (children_url site_id drive_id folder_id)) w))
    /\ (forall local w,
           download_folder_contents net (S fuel) self site_id drive_id folder_id
                                    local level w
           = (Ok tt, sent (get_request self (children_url site_id drive_id folder_id)) w)).
Proof.
  intros net self site_id drive_id folder_id item d fuel level Hu Hj Hd.
  split; [| split; [| split]].
  - intros recur pre post acc w. split.
    + now apply list_item_unmarked.
    + apply for_each_skip. intros s w0. now apply list_item_unmarked.
  - intros recur local pre post w. split.
    + now apply download_item_unmarked.
    + apply for_each_skip. intros s w0. now apply download_item_unmarked.
  - intros w. cbn [list_folder_contents].
    unfold requests_get, send, bind at 1. unfold response_json.
    fold (get_request self (children_url site_id drive_id folder_id)).
    rewrite Hj, bind_ret. cbn [py_in]. unfold dict_has. rewrite Hd. reflexivity.
  - intros local w. cbn [download_folder_contents].
    unfold requests_get, send, bind at 1. unfold response_json.
    fold (get_request self (children_url site_id drive_id folder_id)).
    rewrite Hj, bind_ret. cbn [py_in]. unfold dict_has. rewrite Hd. reflexivity.
Qed.

(** ** What the overlay holds *)

Lemma folder_paths_head cs p :
  In p (folder_paths cs) -> exists m p', p = m :: p' /\ In m (top_names cs).
Proof.
  induction cs as [| id name sub IHsub rest IHrest | id name mime r rest IHrest];
    cbn [folder_paths top_names]; intros H.
  - destruct H.
  - destruct H as [<- | H]; [exists name, []; split; [reflexivity | now left] |].
    apply in_app_or in H as [H | H].
    + apply in_map_iff in H as (p' & <- & _).
      exists name, p'. split; [reflexivity | now left].
    + destruct (IHrest H) as (m & p' & -> & Hm). exists m, p'.
      split; [reflexivity | now right].
  - destruct (IHrest H) as (m & p' & -> & Hm). exists m, p'.
    split; [reflexivity | now right].
Qed.

Lemma file_paths_head cs p r :
  In (p, r) (file_paths cs) -> exists m p', p = m :: p' /\ In m (top_names cs).
Proof.
  induction cs as [| id name sub IHsub rest IHrest | id name mime r' rest IHrest];
    cbn [file_paths top_names]; intros H.
  - destruct H.
  - apply in_app_or in H as [H | H].
    + apply in_map_iff in H as ([p' r''] & E & _). injection E as <- _.
      exists name, p'. split; [reflexivity | now left].
    + destruct (IHrest H) as (m & p' & -> & Hm). exists m, p'.
      split; [reflexivity | now right].
  - destruct H as [E | H].
    + injection E as <- _. exists name, []. split; [reflexivity | now left].
    + destruct (IHrest H) as (m & p' & -> & Hm). exists m, p'.
      split; [reflexivity | now right].
Qed.

Lemma prefix_child (k : list string) m n p :
  (k ++ [m]) `prefix_of` (k ++ n :: p) -> m = n.
Proof. intros H. apply prefix_app_inv in H. now apply prefix_cons_inv_1 in H. Qed.

Lemma snoc_app (k : list string) n p : k ++ n :: p = (k ++ [n]) ++ p.
Proof. now rewrite <- app_assoc. Qed.

(** The overlay changes nothing but the locations of the tree's folders and
    of its downloaded files. *)
Lemma overlay_untouched cs :
  forall k (fs : gmap (list string) node) key,
    (forall p, In p (folder_paths cs) -> key <> k ++ p) ->
    (forall p r, In (p, r) (file_paths cs) -> rsp_status r = 200 -> key <> k ++ p) ->
    overlay k cs fs !! key = fs !! key.
Proof.
  induction cs as [| id name sub IHsub rest IHrest | id name mime r rest IHrest];
    intros k fs key Hfo Hfi; cbn [overlay].
  - reflexivity.
  - rewrite IHrest, IHsub.
    + apply lookup_insert_ne. intros E. apply (Hfo [name]); [now left | now symmetry].
    + intros p Hp. rewrite <- (snoc_app k name p). apply Hfo. right.
      apply in_or_app. left. now apply in_map.
    + intros p r Hp Hr. rewrite <- (snoc_app k name p). apply Hfi with r; [| exact Hr].
      cbn [file_paths]. apply in_or_app. left.
      apply in_map_iff. now exists (p, r).
    + intros p Hp. apply Hfo. right. apply in_or_app. now right.
    + intros p r Hp Hr. apply Hfi with r; [| exact Hr].
      cbn [file_paths]. apply in_or_app. now right.
  - rewrite IHrest.
    + destruct (Z.eqb_spec (rsp_status r) 200) as [E | _]; [| reflexivity].
      apply lookup_insert_ne. intros E'.
      apply (Hfi [name] r); [now left | exact E | now symmetry].
    + exact Hfo.
    + intros p r' Hp Hr. apply Hfi with r'; [now right | exact Hr].
Qed.

Lemma overlay_outside (cs : forest) (k : list string)
      (fs : gmap (list string) node) (key : list string) :
  (forall m, In m (top_names cs) -> ~ (k ++ [m]) `prefix_of` key) ->
  overlay k cs fs !! key = fs !! key.
Proof.
  intros Hout. apply overlay_untouched.
  - intros p Hp ->. destruct (folder_paths_head _ _ Hp) as (m & p' & -> & Hm).
    apply (Hout m Hm). rewrite (snoc_app k m p'). now apply prefix_app_r.
  - intros p r Hp _ ->. destruct (file_paths_head _ _ _ Hp) as (m & p' & -> & Hm).
    apply (Hout m Hm). rewrite (snoc_app k m p'). now apply prefix_app_r.
Qed.

(** Below a child named [n], the items named otherwise change nothing. *)
Lemma overlay_sibling (cs : forest) (k : list string)
      (fs : gmap (list string) node) (n : string) (p : list string) :
  ~ In n (top_names cs) ->
  overlay k cs fs !! (k ++ n :: p) = fs !! (k ++ n :: p).
Proof.
  intros Hn. apply overlay_outside. intros m Hm Hp.
  apply prefix_child in Hp. now subst m.
Qed.

(** At the child itself, the items below it change nothing. *)
Lemma overlay_above (cs : forest) (k : list string) (fs : gmap (list string) node) :
  overlay k cs fs !! k = fs !! k.
Proof.
  apply overlay_outside. intros m _ Hp. now apply prefix_snoc_not in Hp.
Qed.

Lemma overlay_folder cs :
  forall (k : list string) (fs : gmap (list string) node) p,
    names_ok cs -> In p (folder_paths cs) ->
    overlay k cs fs !! (k ++ p) = Some Dir.
Proof.
  induction cs as [| id name sub IHsub rest IHrest | id name mime r rest IHrest];
    intros k fs p Hok Hp; cbn [overlay folder_paths names_ok] in *.
  - destruct Hp.
  - destruct Hok as (_ & Hfresh & Hsub & Hrest).
    destruct Hp as [<- | Hp]; [| apply in_app_or in Hp as [Hp | Hp]].
    + rewrite overlay_sibling by exact Hfresh.
      rewrite overlay_above. apply lookup_insert_eq.
    + apply in_map_iff in Hp as (p' & <- & Hp').
      rewrite overlay_sibling by exact Hfresh.
      rewrite (snoc_app k name p'). now apply IHsub.
    + now apply IHrest.
  - destruct Hok as (_ & _ & Hrest). now apply IHrest.
Qed.

Lemma overlay_file cs :
  forall (k : list string) (fs : gmap (list string) node) p r,
    names_ok cs -> In (p, r) (file_paths cs) -> rsp_status r = 200 ->
    overlay k cs fs !! (k ++ p) = Some (File (rsp_content r)).
Proof.
  induction cs as [| id name sub IHsub rest IHrest | id name mime r' rest IHrest];
    intros k fs p r Hok Hp Hr; cbn [overlay file_paths names_ok] in *.
  - destruct Hp.
  - destruct Hok as (_ & Hfresh & Hsub & Hrest).
    apply in_app_or in Hp as [Hp | Hp].
    + apply in_map_iff in Hp as ([p' r''] & E & Hp'). cbn [fst snd] in E.
      injection E as <- ->.
      rewrite overlay_sibling by exact Hfresh.
      rewrite (snoc_app k name p'). now apply IHsub.
    + now apply IHrest.
  - destruct Hok as (_ & Hfresh & Hrest).
    destruct Hp as [E | Hp].
    + injection E as <- <-.
      rewrite overlay_sibling by exact Hfresh.
      rewrite Hr. cbn [Z.eqb Pos.eqb]. apply lookup_insert_eq.
    + now apply IHrest.
Qed.

Lemma overlay_failed cs :
  forall (k : list string) (fs : gmap (list string) node) p r,
    names_ok cs -> In (p, r) (file_paths cs) -> rsp_status r <> 200 ->
    overlay k cs fs !! (k ++ p) = fs !! (k ++ p).
Proof.
  induction cs as [| id name sub IHsub rest IHrest | id name mime r' rest IHrest];
    intros k fs p r Hok Hp Hr; cbn [overlay file_paths names_ok] in *.
  - destruct Hp.
  - destruct Hok as (_ & Hfresh & Hsub & Hrest).
    apply in_app_or in Hp as [Hp | Hp].
    + apply in_map_iff in Hp as ([p' r''] & E & Hp'). cbn [fst snd] in E.
      injection E as <- ->.
      rewrite overlay_sibling by exact Hfresh.
      rewrite (snoc_app k name p'). rewrite (IHsub _ _ _ _ Hsub Hp' Hr).
      apply lookup_insert_ne.
      destruct (file_paths_head _ _ _ Hp') as (m & q & -> & _).
      intros E. apply (f_equal (@length string)) in E.
      rewrite !length_app in E. cbn [length] in E. lia.
    + rewrite (IHrest _ _ _ _ Hrest Hp Hr).
      destruct (file_paths_head _ _ _ Hp) as (m & q & -> & Hm).
      assert (m <> name) by (intros ->; contradiction).
      rewrite overlay_outside.
      * apply lookup_insert_ne. intros E.
        apply (f_equal (fun l => l !! length k)) in E.
        rewrite !lookup_app_r, Nat.sub_diag in E by lia. cbn in E. congruence.
      * intros m' _ Hpre.
        apply prefix_app_l in Hpre. apply prefix_child in Hpre. congruence.
  - destruct Hok as (_ & Hfresh & Hrest).
    destruct Hp as [E | Hp].
    + injection E as <- <-.
      rewrite overlay_sibling by exact Hfresh.
      destruct (Z.eqb_spec (rsp_status r') 200); [contradiction | reflexivity].
    + rewrite (IHrest _ _ _ _ Hrest Hp Hr).
      destruct (file_paths_head _ _ _ Hp) as (m & q & -> & Hm).
      assert (m <> name) by (intros ->; contradiction).
      destruct (rsp_status r' =? 200); [| reflexivity].
      apply lookup_insert_ne. intros E.
      apply (f_equal (fun l => l !! length k)) in E.
      rewrite !lookup_app_r, Nat.sub_diag in E by lia. cbn in E. congruence.
Qed.

(** ** Entries that are kept *)

Lemma same_kind_refl x : same_kind x x.
Proof. now destruct x. Qed.

Lemma same_kind_trans x y z : same_kind x y -> same_kind y z -> same_kind x z.
Proof. now destruct x, y, z. Qed.

Lemma keeps_kind_refl f : keeps_kind f f.
Proof. intros key x Hx. exists x. split; [exact Hx | apply same_kind_refl]. Qed.

Lemma keeps_kind_trans f g h : keeps_kind f g -> keeps_kind g h -> keeps_kind f h.
Proof.
  intros Hfg Hgh key x Hx. destruct (Hfg key x Hx) as (y & Hy & Hxy).
  destruct (Hgh key y Hy) as (z & Hz & Hyz). exists z.
  split; [exact Hz | now apply same_kind_trans with y].
Qed.

Lemma keeps_all_kind (f g : gmap (list string) node) :
  (forall key x, f !! key = Some x -> g !! key = Some x) -> keeps_kind f g.
Proof.
  intros H key x Hx. exists x. split; [now apply H | apply same_kind_refl].
Qed.

Lemma keeps_all_content (D : list string -> Prop) (f g : gmap (list string) node) :
  (forall key x, f !! key = Some x -> g !! key = Some x) -> keeps_content D f g.
Proof. intros H key c _ Hc. now apply H. Qed.

Lemma keeps_content_trans (D : list string -> Prop) f g h :
  keeps_content D f g -> keeps_content D g h -> keeps_content D f h.
Proof. intros Hfg Hgh key c HD Hc. apply Hgh; [exact HD |]. now apply Hfg. Qed.

Lemma keeps_content_sub (D D' : list string -> Prop) f g :
  keeps_content D f g -> (forall key, D' key -> D key) -> keeps_content D' f g.
Proof. intros H Hsub key c HD. apply H. now apply Hsub. Qed.

Lemma insert_file_kind (f : gmap (list string) node) (kn : list string) c :
  f !! kn <> Some Dir -> keeps_kind f (<[kn := File c]> f).
Proof.
  intros Hnd key x Hx. destruct (decide (kn = key)) as [<- | Hne].
  - rewrite lookup_insert_eq. exists (File c). split; [reflexivity |].
    destruct x; [congruence | exact I].
  - rewrite lookup_insert_ne by exact Hne. exists x.
    split; [exact Hx | apply same_kind_refl].
Qed.

Lemma insert_file_content (f : gmap (list string) node) (kn : list string) c :
  keeps_content (fun key => key <> kn) f (<[kn := File c]> f).
Proof. intros key c' Hne Hc. now rewrite lookup_insert_ne by congruence. Qed.

Lemma insert_dir_kind (f : gmap (list string) node) (kn : list string) :
  (forall c, f !! kn <> Some (File c)) -> keeps_kind f (<[kn := Dir]> f).
Proof.
  intros Hnf key x Hx. destruct (decide (kn = key)) as [<- | Hne].
  - rewrite lookup_insert_eq. exists Dir. split; [reflexivity |].
    destruct x as [| c]; [exact I | now elim (Hnf c)].
  - rewrite lookup_insert_ne by exact Hne. exists x.
    split; [exact Hx | apply same_kind_refl].
Qed.

(** ** The mirror on a served tree *)

Lemma world_ext (a b : world) :
  w_fs a = w_fs b -> w_stdout a = w_stdout b -> w_sent a = w_sent b -> a = b.
Proof. destruct a, b. cbn. now intros -> -> ->. Qed.

Lemma no_clash_folder_inv (fs : gmap (list string) node) (k : list string)
      id n sub rest :
  no_clash fs k (Ffolder id n sub rest) ->
  (forall c, fs !! (k ++ [n]) <> Some (File c))
  /\ no_clash fs (k ++ [n]) sub /\ no_clash fs k rest.
Proof.
  intros [Hfo Hfi]. cbn [folder_paths file_paths] in *. repeat split.
  - intros c. apply Hfo. now left.
  - intros p c Hp. rewrite <- (snoc_app k n p). apply Hfo. right.
    apply in_or_app. left. now apply in_map.
  - intros p r Hp Hr. rewrite <- (snoc_app k n p). apply Hfi with r; [| exact Hr].
    apply in_or_app. left. apply in_map_iff. now exists (p, r).
  - intros p c Hp. apply Hfo. right. apply in_or_app. now right.
  - intros p r Hp Hr. apply Hfi with r; [| exact Hr]. apply in_or_app. now right.
Qed.

Lemma no_clash_file_inv (fs : gmap (list string) node) (k : list string)
      id n mime r rest :
  no_clash fs k (Ffile id n mime r rest) ->
  (rsp_status r = 200 -> fs !! (k ++ [n]) <> Some Dir) /\ no_clash fs k rest.
Proof.
  intros [Hfo Hfi]. cbn [folder_paths file_paths] in *. repeat split.
  - intros Hr. apply Hfi with r; [now left | exact Hr].
  - exact Hfo.
  - intros p r' Hp Hr. apply Hfi with r'; [now right | exact Hr].
Qed.

(** [no_clash] looks at the locations below the items only. *)
Lemma no_clash_ext (fs fs' : gmap (list string) node) (k : list string) cs :
  (forall m p, In m (top_names cs) -> fs' !! (k ++ m :: p) = fs !! (k ++ m :: p)) ->
  no_clash fs k cs -> no_clash fs' k cs.
Proof.
  intros Hag [Hfo Hfi]. split.
  - intros p c Hp. destruct (folder_paths_head _ _ Hp) as (m & q & -> & Hm).
    rewrite Hag by exact Hm. now apply Hfo.
  - intros p r Hp Hr. destruct (file_paths_head _ _ _ Hp) as (m & q & -> & Hm).
    rewrite Hag by exact Hm. now apply Hfi with r.
Qed.

Lemma no_clash_sub (fs : gmap (list string) node) (k : list string) n x sub :
  no_clash fs (k ++ [n]) sub -> no_clash (<[k ++ [n] := x]> fs) (k ++ [n]) sub.
Proof.
  apply no_clash_ext. intros m p _. apply lookup_insert_ne.
  intros E. apply (f_equal (@length string)) in E.
  rewrite !length_app in E. cbn [length] in E. lia.
Qed.

Lemma sibling_differs (k : list string) n m p : m <> n -> k ++ [n] <> k ++ m :: p.
Proof.
  intros Hne E. apply (f_equal (fun l => l !! length k)) in E.
  rewrite !lookup_app_r, Nat.sub_diag in E by lia. cbn in E. congruence.
Qed.

Lemma no_clash_rest_file (fs : gmap (list string) node) (k : list string) n x rest :
  ~ In n (top_names rest) ->
  no_clash fs k rest -> no_clash (<[k ++ [n] := x]> fs) k rest.
Proof.
  intros Hfresh. apply no_clash_ext. intros m p Hm.
  apply lookup_insert_ne, sibling_differs. now intros ->.
Qed.

Lemma no_clash_rest_folder (fs : gmap (list string) node) (k : list string)
      n sub rest :
  ~ In n (top_names rest) ->
  no_clash fs k rest ->
  no_clash (overlay (k ++ [n]) sub (<[k ++ [n] := Dir]> fs)) k rest.
Proof.
  intros Hfresh. apply no_clash_ext. intros m p Hm.
  assert (m <> n) by now intros ->.
  rewrite overlay_outside.
  - now apply lookup_insert_ne, sibling_differs.
  - intros m' _ Hpre.
    apply prefix_app_l in Hpre. apply prefix_child in Hpre. congruence.
Qed.

(** Where nothing of the wrong kind is in the way, the overlay keeps what
    is there. *)
Lemma overlay_keeps_kind cs :
  forall (k : list string) (fs : gmap (list string) node),
    no_clash fs k cs -> names_ok cs -> keeps_kind fs (overlay k cs fs).
Proof.
  induction cs as [| id name sub IHsub rest IHrest | id name mime r rest IHrest];
    intros k fs Hnc Hok; cbn [overlay names_ok] in *.
  - apply keeps_kind_refl.
  - destruct Hok as (_ & Hfresh & Hoksub & Hokrest).
    apply no_clash_folder_inv in Hnc as (Hnf & Hncsub & Hncrest).
    apply keeps_kind_trans with (<[k ++ [name] := Dir]> fs);
      [now apply insert_dir_kind |].
    apply keeps_kind_trans
      with (overlay (k ++ [name]) sub (<[k ++ [name] := Dir]> fs)).
    + apply IHsub; [now apply no_clash_sub | exact Hoksub].
    + apply IHrest; [now apply no_clash_rest_folder | exact Hokrest].
  - destruct Hok as (_ & Hfresh & Hokrest).
    apply no_clash_file_inv in Hnc as (Hnd & Hncrest).
    destruct (Z.eqb_spec (rsp_status r) 200) as [Hst | _].
    + apply keeps_kind_trans with (<[k ++ [name] := File (rsp_content r)]> fs).
      * apply insert_file_kind. now apply Hnd.
      * apply IHrest; [now apply no_clash_rest_file | exact Hokrest].
    + now apply IHrest.
Qed.

Section MirrorSteps.

Variable net : request -> response.
Variable self : SharePointClient.
Variables site_id drive_id : pyval.

(** The directory of a subfolder is there after the check and, when
    needed, [os.makedirs]. *)
Lemma ensure_child local n w :
  plain_name n = true ->
  opens (w_fs w) local ->
  entry_error local n = None ->
  (forall c, w_fs w !! (resolve local ++ [n]) <> Some (File c)) ->
  (let* present := os_path_exists (os_path_join local n) in
   if present then ret tt else os_makedirs (os_path_join local n)) w
  = (Ok tt, set_fs (<[resolve local ++ [n] := Dir]> (w_fs w)) w).
Proof.
  intros Hn Hd He Hnf. unfold bind, os_path_exists.
  rewrite (path_exists_child (w_fs w) local n Hn Hd), He.
  destruct (w_fs w !! (resolve local ++ [n])) as [[| c] |] eqn:E.
  - cbn [ret]. f_equal. apply world_ext; try reflexivity.
    cbn [set_fs w_fs]. symmetry. now apply insert_id.
  - now elim (Hnf c).
  - unfold os_makedirs.
    now rewrite (fs_makedirs_child (w_fs w) local n Hn Hd), He, E.
Qed.

Lemma download_file_ok url local n w :
  rsp_status (net (get_request self url)) = 200 ->
  plain_name n = true ->
  opens (w_fs w) local ->
  entry_error local n = None ->
  w_fs w !! (resolve local ++ [n]) <> Some Dir ->
  download_file net self url local (PStr n) w
  = (Ok tt,
     {| w_fs := <[resolve local ++ [n]
                  := File (rsp_content (net (get_request self url)))]> (w_fs w);
        w_stdout := w_stdout w ++ ["File downloaded: " +:+ os_path_join local n];
        w_sent := w_sent w ++ [get_request self url] |}).
Proof.
  intros Hst Hn Hd He Hnd.
  unfold download_file, requests_get, send, bind at 1.
  fold (get_request self url). rewrite Hst. cbn [Z.eqb Pos.eqb as_str].
  rewrite bind_ret. unfold bind, open_wb_write. cbn [w_fs].
  rewrite (fs_write_child (w_fs w) local n Hn Hd), He.
  destruct (w_fs w !! (resolve local ++ [n])) as [[| c] |]; [congruence | | ];
    reflexivity.
Qed.

(** The loop of the mirror over the elements that describe a served tree,
    into a directory that is there and holds nothing of the wrong kind. *)
Lemma mirror_loop cs :
  forall items fuel level local w,
    describes items cs ->
    serves_items net self site_id drive_id cs ->
    (depth cs <= fuel)%nat ->
    names_ok cs ->
    fits local cs ->
    opens (w_fs w) local ->
    no_clash (w_fs w) (resolve local) cs ->
    for_each
      (download_item net self site_id drive_id
         (fun id new_path =>
            download_folder_contents net fuel self site_id drive_id id new_path level)
         local)
      items tt w
    = (Ok tt, mirrored self site_id drive_id local cs w).
Proof.
  induction cs as [| id name sub IHsub rest IHrest | id name mime rsp rest IHrest];
    intros items fuel level local w Hdesc Hs Hdepth Hok Hfit Hd Hnc;
    describes_inv Hdesc items item.
  - cbn [for_each ret]. f_equal.
    apply world_ext; cbn; now rewrite ?app_nil_r.
  - destruct Hdesc as [Hitem Hdesc].
    cbn [serves_items] in Hs. destruct Hs as (Hl & Hsub & Hrest).
    cbn [names_ok] in Hok. destruct Hok as (Hn & Hfresh & Hoksub & Hokrest).
    cbn [fits] in Hfit. destruct Hfit as (He & Hfitsub & Hfitrest).
    pose proof Hnc as Hnc0.
    apply no_clash_folder_inv in Hnc as (Hnf & Hncsub & Hncrest).
    cbn [depth] in Hdepth. destruct fuel as [| fuel']; [lia |].
    destruct (os_path_join_plain name Hn local) as (_ & Hr).
    destruct (download_folder_contents_listing _ _ _ _ _ _ Hl)
      as (subitems & Hsubdesc & Hrun).
    pose proof (insert_dir_kind (w_fs w) (resolve local ++ [name]) Hnf) as Hk1.
    cbn [for_each].
    erewrite bind_ok.
    2:{ rewrite (download_item_folder _ _ _ _ _ _ _ _ _ _ Hitem).
        erewrite bind_ok by now apply ensure_child.
        rewrite Hrun.
        apply IHsub; cbn [sent set_fs w_fs]; try assumption; try lia.
        - apply opens_child; try assumption.
          + now apply opens_kept with (w_fs w).
          + apply lookup_insert_eq.
        - rewrite Hr. now apply no_clash_sub. }
    rewrite IHrest; try assumption; try lia.
    + f_equal. apply world_ext; cbn [mirrored sent set_fs w_fs w_stdout w_sent].
      * cbn [overlay]. now rewrite Hr.
      * cbn [mirror_log]. now rewrite app_assoc.
      * cbn [mirror_requests]. now rewrite <- !app_assoc.
    + cbn [mirrored sent set_fs w_fs]. rewrite Hr.
      apply opens_kept with (w_fs w); [| exact Hd].
      apply keeps_kind_trans with (1 := Hk1).
      apply overlay_keeps_kind; [now apply no_clash_sub | exact Hoksub].
    + cbn [mirrored sent set_fs w_fs]. rewrite Hr.
      now apply no_clash_rest_folder.
  - destruct Hdesc as [Hitem Hdesc].
    cbn [serves_items] in Hs. destruct Hs as (Hnet & Hrest).
    cbn [names_ok] in Hok. destruct Hok as (Hn & Hfresh & Hokrest).
    cbn [fits] in Hfit. destruct Hfit as (He & Hfitrest).
    apply no_clash_file_inv in Hnc as (Hnd & Hncrest).
    cbn [depth] in Hdepth.
    cbn [for_each].
    destruct (Z.eq_dec (rsp_status rsp) 200) as [Hst | Hst].
    + erewrite bind_ok.
      2:{ rewrite (download_item_file _ _ _ _ _ _ _ _ _ _ _ Hitem).
          apply download_file_ok; try assumption.
          - now rewrite Hnet.
          - now apply Hnd. }
      rewrite Hnet. rewrite IHrest; try assumption.
      * f_equal. apply world_ext; cbn [mirrored w_fs w_stdout w_sent].
        -- cbn [overlay]. now rewrite Hst.
        -- cbn [mirror_log]. rewrite Hst. cbn [Z.eqb Pos.eqb].
           now rewrite <- app_assoc.
        -- cbn [mirror_requests]. now rewrite <- app_assoc.
      * cbn [w_fs]. apply opens_kept with (w_fs w); [| exact Hd].
        apply insert_file_kind. now apply Hnd.
      * cbn [w_fs]. now apply no_clash_rest_file.
    + erewrite bind_ok.
      2:{ rewrite (download_item_file _ _ _ _ _ _ _ _ _ _ _ Hitem).
          apply download_file_failed.
          now rewrite Hnet. }
      rewrite Hnet. rewrite IHrest; try assumption.
      f_equal. apply world_ext;
        cbn [mirrored logged_failure w_fs w_stdout w_sent py_str].
      * cbn [overlay].
        destruct (Z.eqb_spec (rsp_status rsp) 200); [contradiction | reflexivity].
      * cbn [mirror_log].
        destruct (Z.eqb_spec (rsp_status rsp) 200); [contradiction |].
        now rewrite <- app_assoc.
      * cbn [mirror_requests]. now rewrite <- app_assoc.
Qed.

End MirrorSteps.

Lemma failure_logged cs :
  forall local p r,
    In (p, r) (file_paths cs) -> rsp_status r <> 200 ->
    In (failure_line (leaf_name p) r) (mirror_log local cs).
Proof.
  induction cs as [| id name sub IHsub rest IHrest | id name mime r' rest IHrest];
    intros local p r Hp Hr; cbn [file_paths mirror_log] in *.
  - destruct Hp.
  - apply in_or_app. apply in_app_or in Hp as [Hp | Hp].
    + left. apply in_map_iff in Hp as ([p' r''] & E & Hp'). cbn [fst snd] in E.
      injection E as <- ->.
      destruct (file_paths_head _ _ _ Hp') as (m & q & -> & _).
      change (leaf_name (name :: m :: q)) with (leaf_name (m :: q)).
      now apply IHsub.
    + right. now apply IHrest.
  - destruct Hp as [E | Hp].
    + injection E as <- <-. left.
      destruct (Z.eqb_spec (rsp_status r') 200); [contradiction | reflexivity].
    + right. now apply IHrest.
Qed.

(** C2.  A mirror of a finite tree with mirrorable names, whose names and
    local paths are within the limits of the system, into a local root that
    is a directory reached through directories and holds nothing of the
    wrong kind, ends normally and leaves: a directory at the path of every
    remote folder, under the same names and nesting; at the path of every
    file whose download was answered with 200, a file with the downloaded
    content; for every file whose download failed, the printed failure and
    the location as it was; and every other location as it was. *)
Theorem download_folder_contents_mirrors :
  forall net self site_id drive_id folder_id cs fuel level local w,
    serves net self site_id drive_id folder_id cs ->
    (depth cs < fuel)%nat ->
    names_ok cs ->
    fits local cs ->
    opens (w_fs w) local ->
    no_clash (w_fs w) (resolve local) cs ->
    exists w',
      download_folder_contents net fuel self site_id drive_id folder_id local level w
      = (Ok tt, w')
      /\ (forall p, In p (folder_paths cs) ->
                    w_fs w' !! (resolve local ++ p) = Some Dir)
      /\ (forall p r, In (p, r) (file_paths cs) -> rsp_status r = 200 ->
                      w_fs w' !! (resolve local ++ p) = Some (File (rsp_content r)))
      /\ (forall p r, In (p, r) (file_paths cs) -> rsp_status r <> 200 ->
                      w_fs w' !! (resolve local ++ p) = w_fs w !! (resolve local ++ p)
                      /\ In (failure_line (leaf_name p) r) (w_stdout w'))
      /\ (forall key,
             (forall p, In p (folder_paths cs) -> key <> resolve local ++ p) ->
             (forall p r, In (p, r) (file_paths cs) -> rsp_status r = 200 ->
                          key <> resolve local ++ p) ->
             w_fs w' !! key = w_fs w !! key).
Proof.
  intros net self site_id drive_id folder_id cs fuel level local w
         [Hl Hs] Hdepth Hok Hfit Hd Hnc.
  destruct fuel as [| fuel']; [lia |].
  exists (mirrored self site_id drive_id local cs
            (sent (get_request self (children_url site_id drive_id folder_id)) w)).
  split; [| split; [| split; [| split]]].
  - destruct (download_folder_contents_listing _ _ _ _ _ _ Hl)
      as (items & Hdesc & Hrun).
    rewrite Hrun. apply mirror_loop; try assumption. lia.
  - intros p Hp. now apply overlay_folder.
  - intros p r Hp Hr. now apply overlay_file.
  - intros p r Hp Hr. split.
    + cbn [mirrored w_fs sent]. now apply overlay_failed with r.
    + cbn [mirrored w_stdout sent]. apply in_or_app. right.
      now apply failure_logged.
  - intros key Hfo Hfi. cbn [mirrored w_fs sent]. now apply overlay_untouched.
Qed.

(** ** Termination *)





Section Termination.

Variable net : request -> response.
Variable self : SharePointClient.
Variables site_id drive_id : pyval.


(** A folder whose listing holds a folder with its own identifier. *)
Variables loop_id loop_name : string.
Hypothesis Hloop :
  lists (net (get_request self (children_url site_id drive_id (PStr loop_id))))
        (Ffolder loop_id loop_name Fnil Fnil).



End Termination.


(** ** The service built from a tree serves it *)

Lemma list_ascii_of_string_app (a b : string) :
  list_ascii_of_string (a +:+ b) = list_ascii_of_string a ++ list_ascii_of_string b.
Proof.
  induction a as [| c a IH]; rewrite ?append_nil_l, ?append_cons; cbn; congruence.
Qed.

Lemma list_ascii_of_string_inj (a b : string) :
  list_ascii_of_string a = list_ascii_of_string b -> a = b.
Proof.
  intros H. rewrite <- (string_of_list_ascii_of_string a),
              <- (string_of_list_ascii_of_string b).
  now rewrite H.
Qed.

Lemma append_inv_head (p x y : string) : p +:+ x = p +:+ y -> x = y.
Proof.
  induction p as [| c p IH]; rewrite ?append_nil_l, ?append_cons; [easy |].
  intros H. injection H as H. now apply IH.
Qed.

Lemma append_inv_tail (s x y : string) : x +:+ s = y +:+ s -> x = y.
Proof.
  intros H. apply list_ascii_of_string_inj.
  apply (f_equal list_ascii_of_string) in H.
  rewrite !list_ascii_of_string_app in H. now apply app_inv_tail in H.
Qed.

Lemma children_not_content (x y : string) : x +:+ "/children" <> y +:+ "/content".
Proof.
  intros H. apply (f_equal list_ascii_of_string) in H.
  rewrite !list_ascii_of_string_app in H.
  change (list_ascii_of_string "/children")
    with (list_ascii_of_string "/childre" ++ ["n"%char]) in H.
  change (list_ascii_of_string "/content")
    with (list_ascii_of_string "/conten" ++ ["t"%char]) in H.
  rewrite !app_assoc in H. apply app_inj_tail in H as [_ H]. discriminate H.
Qed.

Section TreeServiceServes.

Variable self : SharePointClient.
Variables site_id drive_id : pyval.

Lemma urls_of_disjoint u id1 id2 :
  In u (urls_of site_id drive_id id1) -> In u (urls_of site_id drive_id id2) ->
  id1 = id2.
Proof.
  unfold urls_of, children_url, content_url, file_download_url, resource.
  cbn [In py_str].
  intros [<- | [<- | [<- | []]]] [H | [H | [H | []]]];
    try discriminate H;
    repeat apply append_inv_head in H;
    try (now apply append_inv_tail in H);
    try (now apply children_not_content in H);
    try (symmetry in H; now apply children_not_content in H).
Qed.

Lemma answer_some cs url r :
  answer site_id drive_id cs url = Some r ->
  exists id, In id (item_ids cs) /\ In url (urls_of site_id drive_id id).
Proof.
  induction cs as [| id name sub IHsub rest IHrest | id name mime rsp rest IHrest];
    cbn [answer item_ids]; intros H.
  - discriminate H.
  - destruct (String.eqb_spec url (children_url site_id drive_id (PStr id))) as [-> | _].
    { exists id. split; [now left | now left]. }
    destruct (answer site_id drive_id sub url) as [r' |] eqn:E.
    + destruct (IHsub H) as (id' & Hin & Hu).
      exists id'. split; [right; apply in_or_app; now left | exact Hu].
    + destruct (IHrest H) as (id' & Hin & Hu).
      exists id'. split; [right; apply in_or_app; now right | exact Hu].
  - destruct (String.eqb_spec url (content_url site_id drive_id (PStr id))) as [-> | _].
    { exists id. split; [now left | right; now left]. }
    destruct (String.eqb_spec url (file_download_url site_id drive_id (PStr id)))
      as [-> | _].
    { exists id. split; [now left | right; right; now left]. }
    cbn [orb] in H. destruct (IHrest H) as (id' & Hin & Hu).
    exists id'. split; [now right | exact Hu].
Qed.

Lemma answer_none cs url id :
  In url (urls_of site_id drive_id id) -> ~ In id (item_ids cs) ->
  answer site_id drive_id cs url = None.
Proof.
  intros Hu Hid. destruct (answer site_id drive_id cs url) as [r |] eqn:E; [| reflexivity].
  destruct (answer_some _ _ _ E) as (id' & Hin & Hu').
  rewrite (urls_of_disjoint url id id' Hu Hu') in Hid. contradiction.
Qed.

(** A service that answers as [answer] does serves the items. *)
Lemma answer_serves cs :
  forall net,
    NoDup (item_ids cs) ->
    (forall url r, answer site_id drive_id cs url = Some r ->
                   net (get_request self url) = r) ->
    serves_items net self site_id drive_id cs.
Proof.
  induction cs as [| id name sub IHsub rest IHrest | id name mime rsp rest IHrest];
    intros net Hnd Hnet; cbn [serves_items item_ids] in *.
  - exact I.
  - apply NoDup_cons in Hnd as [Hid Hnd].
    pose proof (proj1 (NoDup_app _ _) Hnd) as (Hndsub & Hdisj & Hndrest).
    assert (Hown : forall url id',
               In id' (item_ids sub ++ item_ids rest) ->
               In url (urls_of site_id drive_id id') ->
               url <> children_url site_id drive_id (PStr id)).
    { intros url id' Hin Hu ->. apply Hid.
      rewrite list_elem_of_In.
      now rewrite (urls_of_disjoint _ id id' (or_introl eq_refl) Hu). }
    split; [| split].
    + rewrite (Hnet _ (listing sub)); [apply lists_listing |].
      cbn [answer]. now rewrite String.eqb_refl.
    + apply IHsub; [exact Hndsub |]. intros url r E. apply Hnet. cbn [answer].
      destruct (answer_some _ _ _ E) as (id' & Hin & Hu).
      destruct (String.eqb_spec url (children_url site_id drive_id (PStr id)))
        as [Eu | _]; [| now rewrite E].
      elim (Hown url id'); [apply in_or_app; now left | exact Hu | exact Eu].
    + apply IHrest; [exact Hndrest |]. intros url r E. apply Hnet. cbn [answer].
      destruct (answer_some _ _ _ E) as (id' & Hin & Hu).
      destruct (String.eqb_spec url (children_url site_id drive_id (PStr id)))
        as [Eu | _].
      { elim (Hown url id'); [apply in_or_app; now right | exact Hu | exact Eu]. }
      rewrite (answer_none sub url id' Hu); [exact E |].
      intros Hin'. apply (Hdisj id'); now rewrite list_elem_of_In.
  - apply NoDup_cons in Hnd as [Hid Hnd].
    split.
    + apply Hnet. cbn [answer]. rewrite (String.eqb_refl (file_download_url _ _ _)).
      now rewrite orb_true_r.
    + apply IHrest; [exact Hnd |]. intros url r E. apply Hnet. cbn [answer].
      destruct (answer_some _ _ _ E) as (id' & Hin & Hu).
      assert (Hne : id <> id').
      { intros ->. apply Hid. now rewrite list_elem_of_In. }
      destruct (String.eqb_spec url (content_url site_id drive_id (PStr id)))
        as [Eu | _].
      { elim Hne. apply (urls_of_disjoint url); [| exact Hu].
        rewrite Eu. right. now left. }
      destruct (String.eqb_spec url (file_download_url site_id drive_id (PStr id)))
        as [Eu | _].
      { elim Hne. apply (urls_of_disjoint url); [| exact Hu].
        rewrite Eu. right. right. now left. }
      exact E.
Qed.

(** Every tree whose identifiers differ from each other and from the
    folder's is served by the service built from it. *)
Lemma tree_net_serves root cs :
  NoDup (root :: item_ids cs) ->
  serves (tree_net site_id drive_id (PStr root) cs) self site_id drive_id
         (PStr root) cs.
Proof.
  intros Hnd. apply NoDup_cons in Hnd as [Hroot Hnd]. split.
  - unfold tree_net, get_request. cbn [rq_method rq_url].
    rewrite String.eqb_refl. apply lists_listing.
  - apply answer_serves; [exact Hnd |]. intros url r E.
    unfold tree_net, get_request. cbn [rq_method rq_url].
    destruct (answer_some _ _ _ E) as (id' & Hin & Hu).
    destruct (String.eqb_spec url (children_url site_id drive_id (PStr root)))
      as [Eu | _]; [| now rewrite E].
    elim Hroot. rewrite list_elem_of_In.
    rewrite (urls_of_disjoint url root id'); [exact Hin | | exact Hu].
    rewrite Eu. now left.
Qed.

End TreeServiceServes.

(** ** The file system under a mirror, whatever it held *)

Section MirrorFs.

Variable net : request -> response.
Variable self : SharePointClient.
Variables site_id drive_id : pyval.

Lemma download_file_fs url local n w :
  fs_view (download_file net self url local (PStr n) w)
  = if rsp_status (net (get_request self url)) =? 200 then
      match fs_write (w_fs w) (os_path_join local n)
                     (rsp_content (net (get_request self url))) with
      | Ok fs1 => (Ok tt, fs1)
      | Raise e => (Raise e, w_fs w)
      | NoFuel => (NoFuel, w_fs w)
      end
    else (Ok tt, w_fs w).
Proof.
  unfold download_file, requests_get, send, bind, as_str, ret,
    open_wb_write, print.
  fold (get_request self url). cbn [w_fs].
  destruct (rsp_status (net (get_request self url)) =? 200); [| reflexivity].
  destruct (fs_write _ _ _); reflexivity.
Qed.

Lemma ensure_directory_fs local n w :
  fs_view ((let* present := os_path_exists (os_path_join local n) in
            if present then ret tt else os_makedirs (os_path_join local n)) w)
  = if path_exists (w_fs w) (os_path_join local n) then (Ok tt, w_fs w)
    else fs_makedirs (w_fs w) (os_path_join local n).
Proof.
  unfold bind, os_path_exists.
  destruct (path_exists (w_fs w) (os_path_join local n)); [reflexivity |].
  unfold os_makedirs. destruct (fs_makedirs _ _); reflexivity.
Qed.

(** The loop of the mirror over a served tree ends as [mirror_fs] does and
    leaves the file system [mirror_fs] leaves. *)
Lemma mirror_loop_fs cs :
  forall items fuel level local w,
    describes items cs ->
    serves_items net self site_id drive_id cs ->
    (depth cs <= fuel)%nat ->
    fs_view
      (for_each
         (download_item net self site_id drive_id
            (fun id new_path =>
               download_folder_contents net fuel self site_id drive_id id new_path level)
            local)
         items tt w)
    = mirror_fs local cs (w_fs w).
Proof.
  induction cs as [| id name sub IHsub rest IHrest | id name mime rsp rest IHrest];
    intros items fuel level local w Hdesc Hs Hdepth;
    describes_inv Hdesc items item; cbn [for_each mirror_fs].
  - reflexivity.
  - destruct Hdesc as [Hitem Hdesc].
    cbn [serves_items] in Hs. destruct Hs as (Hl & Hsub & Hrest).
    cbn [depth] in Hdepth. destruct fuel as [| fuel']; [lia |].
    unfold bind at 1. rewrite (download_item_folder _ _ _ _ _ _ _ _ _ _ Hitem).
    unfold bind at 1.
    pose proof (ensure_directory_fs local name w) as He.
    destruct ((let* present := os_path_exists (os_path_join local name) in
               if present then ret tt else os_makedirs (os_path_join local name)) w)
      as [[[] | e |] w1]; unfold fs_view in He; cbn [fst snd] in He; rewrite <- He;
      [| reflexivity | reflexivity].
    destruct (download_folder_contents_listing _ _ _ _ _ _ Hl)
      as (subitems & Hsubdesc & Hrun).
    rewrite Hrun.
    specialize (IHsub subitems fuel' (level + 1) (os_path_join local name)
                      (sent (get_request self
                               (children_url site_id drive_id (PStr id))) w1)
                      Hsubdesc Hsub ltac:(lia)).
    cbn [sent w_fs] in IHsub.
    destruct (for_each _ subitems tt _) as [[[] | e |] w2];
      unfold fs_view in IHsub; cbn [fst snd] in IHsub; rewrite <- IHsub.
    + apply (IHrest items (S fuel') level local w2 Hdesc Hrest). lia.
    + reflexivity.
    + reflexivity.
  - destruct Hdesc as [Hitem Hdesc].
    cbn [serves_items] in Hs. destruct Hs as (Hnet & Hrest).
    cbn [depth] in Hdepth.
    unfold bind at 1. rewrite (download_item_file _ _ _ _ _ _ _ _ _ _ _ Hitem).
    pose proof (download_file_fs (file_download_url site_id drive_id (PStr id))
                                 local name w) as Hf.
    rewrite Hnet in Hf.
    destruct (download_file net self _ local (PStr name) w) as [[[] | e |] w1];
      unfold fs_view in Hf; cbn [fst snd] in Hf.
    + destruct (rsp_status rsp =? 200).
      * destruct (fs_write _ _ _) as [fs1 | e |]; try discriminate Hf.
        injection Hf as <-. now apply IHrest.
      * injection Hf as <-. now apply IHrest.
    + destruct (rsp_status rsp =? 200); [| discriminate Hf].
      destruct (fs_write _ _ _) as [fs1 | e' |]; try discriminate Hf.
      exact Hf.
    + destruct (rsp_status rsp =? 200); [| discriminate Hf].
      destruct (fs_write _ _ _) as [fs1 | e' |]; try discriminate Hf.
      exact Hf.
Qed.

End MirrorFs.

(** *** What a mirror may change *)

(** Where the items of a tree write, by the name of the item on top. *)
Lemma written_folder k id n sub rest key :
  written k (Ffolder id n sub rest) key
  <-> written (k ++ [n]) sub key \/ written k rest key.
Proof.
  unfold written. cbn [file_paths]. split.
  - intros (q & r & Hin & Hr & ->). apply in_app_or in Hin as [Hin | Hin].
    + apply in_map_iff in Hin as ([q' r'] & E & Hin). cbn [fst snd] in E.
      injection E as <- <-. left. exists q', r'.
      repeat split; try assumption. apply snoc_app.
    + right. now exists q, r.
  - intros [(q & r & Hin & Hr & ->) | (q & r & Hin & Hr & ->)].
    + exists (n :: q), r. repeat split; [| exact Hr | symmetry; apply snoc_app].
      apply in_or_app. left. apply in_map_iff. now exists (q, r).
    + exists q, r. repeat split; [| exact Hr]. apply in_or_app. now right.
Qed.

Lemma written_file k id n mime r rest key :
  written k (Ffile id n mime r rest) key
  <-> (rsp_status r = 200 /\ key = k ++ [n]) \/ written k rest key.
Proof.
  unfold written. cbn [file_paths]. split.
  - intros (q & r' & [E | Hin] & Hr & ->).
    + injection E as <- <-. now left.
    + right. now exists q, r'.
  - intros [[Hr ->] | (q & r' & Hin & Hr & ->)].
    + exists [n], r. repeat split; [now left | exact Hr].
    + exists q, r'. repeat split; [now right | exact Hr].
Qed.



Lemma ensure_keeps (f f1 : gmap (list string) node) p r :
  (if path_exists f p then (Ok tt, f) else fs_makedirs f p) = (r, f1) ->
  forall key x, f !! key = Some x -> f1 !! key = Some x.
Proof.
  destruct (path_exists f p).
  - now intros [= _ <-].
  - apply fs_makedirs_keeps.
Qed.

(** A mirror keeps what is there, as what it is, and the content of the
    files it does not write itself; also when it ends with an exception. *)
Lemma mirror_fs_effect cs :
  forall local f r f',
    names_ok cs ->
    mirror_fs local cs f = (r, f') ->
    keeps_kind f f'
    /\ keeps_content (fun key => ~ written (resolve local) cs key) f f'.
Proof.
  induction cs as [| id name sub IHsub rest IHrest | id name mime rsp rest IHrest];
    intros local f r f' Hok H; cbn [mirror_fs names_ok] in *.
  - injection H as _ <-. split; [apply keeps_kind_refl |]. now intros key c _.
  - destruct Hok as (Hn & Hfresh & Hoksub & Hokrest).
    destruct (os_path_join_plain name Hn local) as (_ & Hr).
    destruct (if path_exists f (os_path_join local name) then (Ok tt, f)
              else fs_makedirs f (os_path_join local name)) as [r1 f1] eqn:E1.
    pose proof (ensure_keeps _ _ _ _ E1) as H1.
    destruct r1 as [[] | e |].
    2:{ injection H as _ <-.
        split; [now apply keeps_all_kind | now apply keeps_all_content]. }
    2:{ injection H as _ <-.
        split; [now apply keeps_all_kind | now apply keeps_all_content]. }
    destruct (mirror_fs (os_path_join local name) sub f1) as [rs f2] eqn:Es.
    destruct (IHsub _ _ _ _ Hoksub Es) as [Hk2 Hc2]. rewrite Hr in Hc2.
    assert (Hk02 : keeps_kind f f2)
      by (apply keeps_kind_trans with f1; [now apply keeps_all_kind | exact Hk2]).
    assert (Hc02 : keeps_content
                     (fun key => ~ written (resolve local)
                                   (Ffolder id name sub rest) key) f f2).
    { apply keeps_content_trans with f1.
      - now apply keeps_all_content.
      - apply (keeps_content_sub _ _ _ _ Hc2).
        intros key Hnw Hw. apply Hnw. apply written_folder. now left. }
    destruct rs as [[] | e |].
    + destruct (IHrest _ _ _ _ Hokrest H) as [Hk3 Hc3]. split.
      * now apply keeps_kind_trans with f2.
      * apply keeps_content_trans with f2; [exact Hc02 |].
        apply (keeps_content_sub _ _ _ _ Hc3).
        intros key Hnw Hw. apply Hnw. apply written_folder. now right.
    + injection H as _ <-. now split.
    + injection H as _ <-. now split.
  - destruct Hok as (Hn & Hfresh & Hokrest).
    destruct (os_path_join_plain name Hn local) as (_ & Hr).
    destruct (rsp_status rsp =? 200) eqn:Est.
    + apply Z.eqb_eq in Est.
      destruct (fs_write f (os_path_join local name) (rsp_content rsp))
        as [f1 | e |] eqn:Ew.
      2:{ injection H as _ <-. split; [apply keeps_kind_refl |]. now intros key c _. }
      2:{ injection H as _ <-. split; [apply keeps_kind_refl |]. now intros key c _. }
      apply fs_write_inv in Ew as [-> Hnd]. rewrite Hr in *.
      destruct (IHrest _ _ _ _ Hokrest H) as [Hk Hc]. split.
      * apply keeps_kind_trans with (2 := Hk). now apply insert_file_kind.
      * eapply keeps_content_trans.
        -- apply (keeps_content_sub
                    _ _ _ _
                    (insert_file_content f (resolve local ++ [name])
                                         (rsp_content rsp))).
           intros key Hnw ->. apply Hnw. apply written_file. now left.
        -- apply (keeps_content_sub _ _ _ _ Hc).
           intros key Hnw Hw. apply Hnw. apply written_file. now right.
    + destruct (IHrest _ _ _ _ Hokrest H) as [Hk Hc]. split; [exact Hk |].
      apply (keeps_content_sub _ _ _ _ Hc).
      intros key Hnw Hw. apply Hnw. apply written_file. now right.
Qed.

(** *** A local folder that is a file *)

Section Blocked.

Variable fs : gmap (list string) node.
Variable p : string.
Hypothesis Hslash : ends_with_slash p = false.
Hypothesis Hthere : path_exists fs p = true.
Hypothesis Hwalk : walk fs (start p) (components p) = Raise NotADirectoryError.

Lemma namei_blocked n :
  plain_name n = true ->
  namei fs (os_path_join p n)
  = Raise (match path_error (os_path_join p n) with
           | Some e => e
           | None => NotADirectoryError
           end).
Proof using Hwalk.
  intros Hn. rewrite (namei_join fs p n Hn), Hwalk.
  now destruct (path_error (os_path_join p n)).
Qed.

(** Nothing can be made or written below a file: the mirror stops at the
    first item it has to put there. *)
Lemma mirror_fs_blocked cs :
  names_ok cs -> mirror_fs p cs fs = (blocked p cs, fs).
Proof using Hslash Hthere Hwalk.
  induction cs as [| id name sub _ rest IHrest | id name mime rsp rest IHrest];
    intros Hok; cbn [mirror_fs blocked names_ok] in *.
  - reflexivity.
  - destruct Hok as (Hn & _).
    unfold path_exists at 1. rewrite (namei_blocked name Hn).
    rewrite (makedirs_join fs p name Hn)
      by (right; now rewrite (trim_id p Hslash)).
    unfold fs_mkdir. now rewrite (namei_blocked name Hn).
  - destruct Hok as (Hn & _ & Hokrest).
    destruct (rsp_status rsp =? 200); [| now apply IHrest].
    unfold fs_write. now rewrite (namei_blocked name Hn).
Qed.

End Blocked.

Lemma mirror_fs_child_file (cs : forest) (fs : gmap (list string) node)
      (local n : string) (c : list byte) :
  names_ok cs ->
  plain_name n = true ->
  opens fs local ->
  entry_error local n = None ->
  fs !! (resolve local ++ [n]) = Some (File c) ->
  mirror_fs (os_path_join local n) cs fs = (blocked (os_path_join local n) cs, fs).
Proof.
  intros Hok Hn Hopen He Hfile.
  destruct (entry_error_none local n He) as (_ & _ & Hlong).
  apply mirror_fs_blocked; try assumption.
  - now apply os_path_join_no_trailing_slash.
  - now rewrite (path_exists_child fs local n Hn Hopen), He, Hfile.
  - now rewrite (walk_child fs local n Hn Hopen), Hlong, Hfile.
Qed.

(** *** A mirror run again *)






(** ** Worked examples *)

Ltac distinct_ids :=
  cbn [item_ids app];
  repeat constructor; rewrite list_elem_of_In; cbn; intuition discriminate.

Lemma example_served :
  serves example_net example_client (PStr "S") (PStr "D") (PStr "R") example_tree.
Proof. apply tree_net_serves. unfold example_tree. distinct_ids. Qed.

Lemma flaky_served :
  serves flaky_net example_client (PStr "S") (PStr "D") (PStr "R") flaky_tree.
Proof. apply tree_net_serves. unfold flaky_tree. distinct_ids. Qed.

Lemma flaky_names_ok : names_ok flaky_tree.
Proof.
  cbn. repeat split; try reflexivity; intros H;
    repeat (destruct H as [H | H]; [discriminate H |]); exact H.
Qed.

Lemma example_names_ok : names_ok example_tree.
Proof.
  cbn. repeat split; try reflexivity; intros H;
    repeat (destruct H as [H | H]; [discriminate H |]); exact H.
Qed.

(** Hypotheses on concrete paths and trees, by computation. *)
Ltac opens_by_computation :=
  split; [reflexivity |];
  split; [apply Nat.ltb_lt; vm_compute; reflexivity | vm_compute; reflexivity].

Ltac fits_by_computation := cbn [fits]; repeat split; vm_compute; reflexivity.

Lemma data_opens : opens (w_fs data_world) "data".
Proof. opens_by_computation. Qed.

Lemma flaky_fits : fits "data" flaky_tree.
Proof. unfold flaky_tree. fits_by_computation. Qed.

Lemma example_fits : fits "data" example_tree.
Proof. unfold example_tree. fits_by_computation. Qed.

(** Below [data] the example's local file system holds nothing, so nothing
    there is in the way of any tree. *)
Lemma data_no_clash cs : no_clash (w_fs data_world) (resolve "data") cs.
Proof.
  assert (H : forall m (q : list string),
             w_fs data_world !! (["data"] ++ m :: q) = None).
  { intros m q. cbn [w_fs data_world]. now apply lookup_singleton_ne. }
  change (resolve "data") with ["data"]. split.
  - intros p c Hp. destruct (folder_paths_head _ _ Hp) as (m & q & -> & _).
    rewrite H. discriminate.
  - intros p r Hp _. destruct (file_paths_head _ _ _ Hp) as (m & q & -> & _).
    rewrite H. discriminate.
Qed.

(** Paths as the system takes them: [data/x/..] is not there while [data/x]
    is missing; nothing can be written below a file; [os.makedirs] on
    [x/../d] makes [x] before it finds that [d] is there.  And [repr] puts a
    string with an apostrophe in double quotes. *)
Lemma local_paths_example :
  path_exists (w_fs data_world) "data/x/.." = false
  /\ fs_write (w_fs kept_world) "data/keep.txt/sub/a" [] = Raise NotADirectoryError
  /\ fs_makedirs (w_fs d_world) "x/../d"
     = (Raise FileExistsError, {[ ["d"] := Dir; ["x"] := Dir ]})
  /\ py_repr (PStr "Bob's files")
     = String double_quote ("Bob's files" +:+ String double_quote "").
Proof. repeat split; vm_compute; reflexivity. Qed.


Lemma note_item_unmarked : unmarked note_item.
Proof. split; reflexivity. Qed.

(** The example of the specification: the root holds the folder [Reports]
    (with [q1.pdf]) followed by [readme.txt]. *)
Lemma list_folder_contents_example :
  fst (list_folder_contents example_net 2 example_client
         (PStr "S") (PStr "D") (PStr "R") 0 empty_world)
  = Ok example_listing
  /\ length example_listing = 3%nat.
Proof.
  apply (list_folder_contents_preorder example_net example_client
           (PStr "S") (PStr "D") (PStr "R") example_tree 2 0 empty_world).
  - exact example_served.
  - cbn. lia.
Defined.

(** The mirror of the example into [data], with [q1.pdf] refused. *)
Lemma download_folder_contents_example :
  exists w',
    download_folder_contents flaky_net 2 example_client
                             (PStr "S") (PStr "D") (PStr "R") "data" 0 data_world
    = (Ok tt, w')
    /\ w_fs w' !! ["data"; "Reports"] = Some Dir
    /\ w_fs w' !! ["data"; "readme.txt"] = Some (File (bytes_of "read me"))
    /\ w_fs w' !! ["data"; "Reports"; "q1.pdf"] = None
    /\ In "Failed to download q1.pdf: 404 - Not Found" (w_stdout w')
    /\ w_fs w' !! ["data"] = Some Dir.
Proof.
  destruct (download_folder_contents_mirrors
              flaky_net example_client (PStr "S") (PStr "D") (PStr "R") flaky_tree
              2 0 "data" data_world
              flaky_served ltac:(cbn; lia) flaky_names_ok flaky_fits data_opens
              (data_no_clash flaky_tree))
    as (w' & E & Hfo & Hfi & Hfail & Hrest).
  exists w'. split; [exact E |]. split; [| split; [| split; [| split]]].
  - apply (Hfo ["Reports"]). now left.
  - apply (Hfi ["readme.txt"] (ok_content "read me")); [| reflexivity].
    right. now left.
  - destruct (Hfail ["Reports"; "q1.pdf"] not_found) as [Hsame _].
    { now left. } { discriminate. }
    exact Hsame.
  - destruct (Hfail ["Reports"; "q1.pdf"] not_found) as [_ Hlog].
    { now left. } { discriminate. }
    exact Hlog.
  - rewrite (Hrest ["data"]); [reflexivity | |].
    + intros p Hp E'. destruct (folder_paths_head _ _ Hp) as (m & q & -> & _).
      discriminate E'.
    + intros p r Hp _ E'. destruct (file_paths_head _ _ _ Hp) as (m & q & -> & _).
      discriminate E'.
Defined.


(** The request the mirror sends for [q1.pdf]. *)
Lemma download_url_example :
  w_sent (snd (download_item flaky_net example_client (PStr "S") (PStr "D")
                             (fun _ _ => ret tt) "data/Reports"
                             (file_json "I1" "q1.pdf" "application/pdf") tt
                             data_world))
  = [get_request example_client
       "https://graph.microsoft.com//v1.0/sites/S/drives/D/items/I1/content"].
Proof.
  exact (proj1 (download_url_doubled_slash
                  flaky_net example_client (PStr "S") (PStr "D")
                  (fun _ _ => ret tt) "data/Reports"
                  (file_json "I1" "q1.pdf" "application/pdf")
                  "I1" "q1.pdf" "application/pdf" data_world
                  (file_json_is_file_item "I1" "q1.pdf" "application/pdf"))).
Defined.




(** A listing that holds the unmarked item is walked like the listing
    without it, and a folder the service does not know is walked as empty. *)
Lemma unmarked_item_example :
  for_each (list_item (fun _ => ret []))
           ([] ++ note_item :: [file_json "I2" "readme.txt" "text/plain"])
           [] empty_world
  = for_each (list_item (fun _ => ret []))
             ([] ++ [file_json "I2" "readme.txt" "text/plain"]) [] empty_world
  /\ list_folder_contents empty_net 1 example_client
                          (PStr "S") (PStr "D") (PStr "R") 0 empty_world
     = (Ok [],
        sent (get_request example_client
                (children_url (PStr "S") (PStr "D") (PStr "R"))) empty_world).
Proof.
  destruct (unmarked_item_dropped
              empty_net example_client (PStr "S") (PStr "D") (PStr "R") note_item
              [("error", PDict [("code", PStr "itemNotFound")])] 0 0
              note_item_unmarked eq_refl eq_refl)
    as (Hlist & _ & Hwalk & _).
  split.
  - apply Hlist.
  - apply Hwalk.
Defined.

(** The example of the specification on a disk without [data]: the folder
    comes first, and making its directory makes [data] as well. *)
Lemma download_folder_contents_fresh_example :
  let out := download_folder_contents example_net 2 example_client
               (PStr "S") (PStr "D") (PStr "R") "data" 0 empty_world in
  fst out = Ok tt
  /\ w_fs (snd out) !! ["data"] = Some Dir
  /\ w_fs (snd out) !! ["data"; "Reports"] = Some Dir
  /\ w_fs (snd out) !! ["data"; "Reports"; "q1.pdf"]
     = Some (File (bytes_of "%PDF-1.7 q1"))
  /\ w_fs (snd out) !! ["data"; "readme.txt"] = Some (File (bytes_of "read me"))
  /\ w_stdout (snd out)
     = ["File downloaded: data/Reports/q1.pdf"; "File downloaded: data/readme.txt"].
Proof. vm_compute. repeat split. Qed.



(** C2, as stated, fails on two counts.  Without the local root the mirror
    of a root-level file raises, and the file that was fetched is not
    written; and where a local file has the name of a remote folder, the
    mirror ends normally and the file stays where the directory should be. *)
Lemma mirror_depends_on_local_state :
  (serves root_file_net example_client (PStr "S") (PStr "D") (PStr "R") root_file_tree
   /\ names_ok root_file_tree
   /\ fst (download_folder_contents root_file_net 1 example_client
             (PStr "S") (PStr "D") (PStr "R") "data" 0 empty_world)
      = Raise FileNotFoundError
   /\ w_fs (snd (download_folder_contents root_file_net 1 example_client
                   (PStr "S") (PStr "D") (PStr "R") "data" 0 empty_world))
      !! ["data"; "readme.txt"] = None)
  /\ (serves empty_folder_net example_client (PStr "S") (PStr "D") (PStr "R")
             empty_folder_tree
      /\ names_ok empty_folder_tree
      /\ fst (download_folder_contents empty_folder_net 2 example_client
                (PStr "S") (PStr "D") (PStr "R") "data" 0 clash_world)
         = Ok tt
      /\ w_fs (snd (download_folder_contents empty_folder_net 2 example_client
                      (PStr "S") (PStr "D") (PStr "R") "data" 0 clash_world))
         !! ["data"; "Reports"] = Some (File (bytes_of "old"))).
Proof.
  split; (split; [| split; [| split]]).
  - apply tree_net_serves. unfold root_file_tree, empty_folder_tree. distinct_ids.
  - cbn. repeat split. intros [].
  - vm_compute. reflexivity.
  - vm_compute. reflexivity.
  - apply tree_net_serves. unfold root_file_tree, empty_folder_tree. distinct_ids.
  - cbn. repeat split. intros [].
  - vm_compute. reflexivity.
  - vm_compute. reflexivity.
Qed.

(** * The footprint of the calls

    What the two recursive methods may do to the world, whatever the
    service answers and however they end: the relations [reads_only] and
    [mirrors_only] hold between the world before and after every step, and
    so between the worlds before and after a call. *)

Lemma requests_get_sent net self url w :
  requests_get net url (authorization self) w
  = (Ok (net (get_request self url)), sent (get_request self url) w).
Proof. reflexivity. Qed.

(** ** Relations that every step keeps *)

Section Maintains.

Variable R : world -> world -> Prop.
Hypothesis R_refl : forall w, R w w.
Hypothesis R_trans : forall a b c, R a b -> R b c -> R a c.

Lemma maintains_ret {A} (a : A) : maintains R (ret a).
Proof. intros w. apply R_refl. Qed.

Lemma maintains_lift {A} (r : res A) : maintains R (lift r).
Proof. intros w. apply R_refl. Qed.

Lemma maintains_as_str v : maintains R (as_str v).
Proof. destruct v; intros w; apply R_refl. Qed.

Lemma maintains_response_json r : maintains R (response_json r).
Proof. unfold response_json. destruct (rsp_json r); intros w; apply R_refl. Qed.

Lemma maintains_bind {A B} (m : M A) (k : A -> M B) :
  maintains R m -> (forall a, maintains R (k a)) -> maintains R (bind m k).
Proof.
  intros Hm Hk w. unfold bind. specialize (Hm w).
  destruct (m w) as [[a | e |] w1]; cbn [snd] in *; try exact Hm.
  eapply R_trans; [exact Hm | apply Hk].
Qed.

Lemma maintains_for_each {S} (body : pyval -> S -> M S) items :
  (forall x s, maintains R (body x s)) ->
  forall s, maintains R (for_each body items s).
Proof.
  intros Hbody. induction items as [| x items IH]; intros s; cbn [for_each].
  - apply maintains_ret.
  - apply maintains_bind; [apply Hbody | exact IH].
Qed.

End Maintains.

Lemma reads_only_refl self site_id drive_id w : reads_only self site_id drive_id w w.
Proof.
  repeat split. exists []. split; [now rewrite app_nil_r | constructor].
Qed.

Lemma reads_only_trans self site_id drive_id a b c :
  reads_only self site_id drive_id a b -> reads_only self site_id drive_id b c ->
  reads_only self site_id drive_id a c.
Proof.
  intros (Hf1 & Ho1 & l1 & Hs1 & Hl1) (Hf2 & Ho2 & l2 & Hs2 & Hl2).
  split; [congruence |]. split; [congruence |].
  exists (l1 ++ l2). split.
  - now rewrite Hs2, Hs1, app_assoc.
  - apply Forall_app. now split.
Qed.

Lemma mirrors_only_refl self site_id drive_id w : mirrors_only self site_id drive_id w w.
Proof.
  split; [apply keeps_kind_refl |]. split.
  - exists []. now rewrite app_nil_r.
  - exists []. split; [now rewrite app_nil_r | constructor].
Qed.

Lemma mirrors_only_trans self site_id drive_id a b c :
  mirrors_only self site_id drive_id a b -> mirrors_only self site_id drive_id b c ->
  mirrors_only self site_id drive_id a c.
Proof.
  intros (Hf1 & (o1 & Ho1) & l1 & Hs1 & Hl1) (Hf2 & (o2 & Ho2) & l2 & Hs2 & Hl2).
  split; [eapply keeps_kind_trans; eassumption |]. split.
  - exists (o1 ++ o2). now rewrite Ho2, Ho1, app_assoc.
  - exists (l1 ++ l2). split.
    + now rewrite Hs2, Hs1, app_assoc.
    + apply Forall_app. now split.
Qed.

(** ** The walk only asks *)

Section WalkFootprint.

Variable net : request -> response.
Variable self : SharePointClient.
Variables site_id drive_id : pyval.

Lemma children_get_reads folder_id :
  maintains (reads_only self site_id drive_id)
            (requests_get net (children_url site_id drive_id folder_id)
                          (authorization self)).
Proof.
  intros w. repeat split.
  exists [get_request self (children_url site_id drive_id folder_id)].
  split; [reflexivity |]. constructor; [| constructor]. now exists folder_id.
Qed.

Lemma list_item_reads recur item acc :
  (forall id, maintains (reads_only self site_id drive_id) (recur id)) ->
  maintains (reads_only self site_id drive_id) (list_item recur item acc).
Proof.
  intros Hrec. unfold list_item.
  pose proof (reads_only_refl self site_id drive_id) as Hr.
  pose proof (reads_only_trans self site_id drive_id) as Ht.
  apply maintains_bind; [assumption | now apply maintains_lift |].
  intros [|].
  - repeat (apply maintains_bind; [assumption | now apply maintains_lift | intros ?]).
    apply maintains_bind; [assumption | apply Hrec | intros ?].
    now apply maintains_ret.
  - apply maintains_bind; [assumption | now apply maintains_lift |].
    intros [|]; [| now apply maintains_ret].
    repeat (apply maintains_bind; [assumption | now apply maintains_lift | intros ?]).
    now apply maintains_ret.
Qed.

Lemma list_folder_contents_reads fuel :
  forall folder_id level,
    maintains (reads_only self site_id drive_id)
              (list_folder_contents net fuel self site_id drive_id folder_id level).
Proof.
  pose proof (reads_only_refl self site_id drive_id) as Hr.
  pose proof (reads_only_trans self site_id drive_id) as Ht.
  induction fuel as [| fuel IH]; intros folder_id level.
  - now apply maintains_lift.
  - cbn [list_folder_contents].
    apply maintains_bind; [assumption | apply children_get_reads | intros rsp].
    apply maintains_bind; [assumption | now apply maintains_response_json | intros v].
    apply maintains_bind; [assumption | now apply maintains_lift |].
    intros [|]; [| now apply maintains_ret].
    repeat (apply maintains_bind; [assumption | now apply maintains_lift | intros ?]).
    apply maintains_for_each; [assumption | assumption |].
    intros x s. apply list_item_reads. intros id. apply IH.
Qed.

End WalkFootprint.

Lemma children_requests_ids self site_id drive_id rqs :
  Forall (children_request self site_id drive_id) rqs ->
  exists ids,
    rqs = map (fun id => get_request self (children_url site_id drive_id id)) ids.
Proof.
  induction 1 as [| rq rqs [id ->] _ [ids ->]].
  - now exists [].
  - now exists (id :: ids).
Qed.

(** X1.  Whatever the service answers and however the call ends,
    [list_folder_contents] leaves the local files and the standard output
    alone, and the requests it sends are requests for the children of
    folders of the drive, with the client's [Authorization] header: it asks
    for no file content and for no new token. *)
Theorem list_folder_contents_only_asks :
  forall net fuel self site_id drive_id folder_id level w,
    let w' :=
      snd (list_folder_contents net fuel self site_id drive_id folder_id level w) in
    w_fs w' = w_fs w
    /\ w_stdout w' = w_stdout w
    /\ exists ids,
        w_sent w'
        = w_sent w
          ++ map (fun id => get_request self (children_url site_id drive_id id)) ids.
Proof.
  intros net fuel self site_id drive_id folder_id level w.
  destruct (list_folder_contents_reads net self site_id drive_id fuel folder_id level w)
    as (Hfs & Hout & rqs & Hsent & Hall).
  cbv zeta. split; [exact Hfs |]. split; [exact Hout |].
  destruct (children_requests_ids _ _ _ _ Hall) as [ids ->].
  now exists ids.
Qed.

(** ** The mirror only adds *)

Lemma fs_write_keeps_kind (fs fs' : gmap (list string) node) p content :
  fs_write fs p content = Ok fs' -> keeps_kind fs fs'.
Proof.
  intros H. apply fs_write_inv in H as [-> Hnd]. now apply insert_file_kind.
Qed.

Lemma fs_makedirs_keeps_kind (fs fs' : gmap (list string) node) p r :
  fs_makedirs fs p = (r, fs') -> keeps_kind fs fs'.
Proof. intros E. apply keeps_all_kind. exact (fs_makedirs_keeps _ _ _ _ E). Qed.

Section MirrorFootprint.

Variable net : request -> response.
Variable self : SharePointClient.
Variables site_id drive_id : pyval.

Lemma mirror_get_adds url :
  mirror_request self site_id drive_id (get_request self url) ->
  maintains (mirrors_only self site_id drive_id)
            (requests_get net url (authorization self)).
Proof.
  intros Hrq w. split; [apply keeps_kind_refl |]. split.
  - exists []. cbn. now rewrite app_nil_r.
  - exists [get_request self url]. split; [reflexivity |]. now constructor.
Qed.

Lemma print_adds line : maintains (mirrors_only self site_id drive_id) (print line).
Proof.
  intros w. split; [apply keeps_kind_refl |]. split.
  - now exists [line].
  - exists []. cbn. split; [now rewrite app_nil_r | constructor].
Qed.

Lemma set_fs_adds (fs' : gmap (list string) node) w :
  keeps_kind (w_fs w) fs' -> mirrors_only self site_id drive_id w (set_fs fs' w).
Proof.
  intros Hk. split; [exact Hk |]. split.
  - exists []. cbn. now rewrite app_nil_r.
  - exists []. cbn. split; [now rewrite app_nil_r | constructor].
Qed.

Lemma os_path_exists_adds p :
  maintains (mirrors_only self site_id drive_id) (os_path_exists p).
Proof. intros w. apply mirrors_only_refl. Qed.

Lemma os_makedirs_adds p :
  maintains (mirrors_only self site_id drive_id) (os_makedirs p).
Proof.
  intros w. unfold os_makedirs.
  destruct (fs_makedirs (w_fs w) p) as [r fs'] eqn:E; cbn [snd].
  apply set_fs_adds. exact (fs_makedirs_keeps_kind _ _ _ _ E).
Qed.

Lemma open_wb_write_adds p content :
  maintains (mirrors_only self site_id drive_id) (open_wb_write p content).
Proof.
  intros w. unfold open_wb_write.
  destruct (fs_write (w_fs w) p content) as [fs' | e |] eqn:E; cbn [snd];
    try apply mirrors_only_refl.
  apply set_fs_adds. exact (fs_write_keeps_kind _ _ _ _ E).
Qed.

Lemma download_file_adds url local file_name :
  mirror_request self site_id drive_id (get_request self url) ->
  maintains (mirrors_only self site_id drive_id)
            (download_file net self url local file_name).
Proof.
  intros Hrq. unfold download_file.
  pose proof (mirrors_only_refl self site_id drive_id) as Hr.
  pose proof (mirrors_only_trans self site_id drive_id) as Ht.
  apply maintains_bind; [assumption | now apply mirror_get_adds | intros rsp].
  destruct (rsp_status rsp =? 200); [| apply print_adds].
  apply maintains_bind; [assumption | now apply maintains_as_str | intros name].
  apply maintains_bind; [assumption | apply open_wb_write_adds | intros _].
  apply print_adds.
Qed.

Lemma download_item_adds recur local item u :
  (forall id new_path,
      maintains (mirrors_only self site_id drive_id) (recur id new_path)) ->
  maintains (mirrors_only self site_id drive_id)
            (download_item net self site_id drive_id recur local item u).
Proof.
  intros Hrec. unfold download_item.
  pose proof (mirrors_only_refl self site_id drive_id) as Hr.
  pose proof (mirrors_only_trans self site_id drive_id) as Ht.
  apply maintains_bind; [assumption | now apply maintains_lift |].
  intros [|].
  - apply maintains_bind; [assumption | now apply maintains_lift | intros name].
    apply maintains_bind; [assumption | now apply maintains_as_str | intros n].
    apply maintains_bind; [assumption | apply os_path_exists_adds | intros present].
    apply maintains_bind; [assumption | | intros _].
    + destruct present; [now apply maintains_ret | apply os_makedirs_adds].
    + apply maintains_bind; [assumption | now apply maintains_lift | intros id].
      apply Hrec.
  - apply maintains_bind; [assumption | now apply maintains_lift |].
    intros [|]; [| now apply maintains_ret].
    apply maintains_bind; [assumption | now apply maintains_lift | intros name].
    apply maintains_bind; [assumption | now apply maintains_lift | intros id].
    apply download_file_adds. exists id. now right.
Qed.

Lemma download_folder_contents_adds fuel :
  forall folder_id local level,
    maintains (mirrors_only self site_id drive_id)
              (download_folder_contents net fuel self site_id drive_id folder_id
                                        local level).
Proof.
  pose proof (mirrors_only_refl self site_id drive_id) as Hr.
  pose proof (mirrors_only_trans self site_id drive_id) as Ht.
  induction fuel as [| fuel IH]; intros folder_id local level.
  - now apply maintains_lift.
  - cbn [download_folder_contents].
    apply maintains_bind; [assumption | | intros rsp].
    { apply mirror_get_adds. exists folder_id. now left. }
    apply maintains_bind; [assumption | now apply maintains_response_json | intros v].
    apply maintains_bind; [assumption | now apply maintains_lift |].
    intros [|]; [| now apply maintains_ret].
    repeat (apply maintains_bind; [assumption | now apply maintains_lift | intros ?]).
    apply maintains_for_each; [assumption | assumption |].
    intros x s. apply download_item_adds. intros id new_path. apply IH.
Qed.

End MirrorFootprint.

(** X2.  Whatever the service answers and however the call ends, every
    request [download_folder_contents] sends is a [GET] with the client's
    [Authorization] header and no body, for the children of a folder or for
    the content of an item at the URL of line 99; and what it prints is
    added to the standard output. *)
Theorem download_folder_contents_requests :
  forall net fuel self site_id drive_id folder_id local level w,
    let w' :=
      snd (download_folder_contents net fuel self site_id drive_id folder_id
                                    local level w) in
    (exists rqs,
        w_sent w' = w_sent w ++ rqs
        /\ Forall (fun rq =>
                     rq_method rq = GET
                     /\ rq_headers rq = authorization self
                     /\ rq_data rq = []
                     /\ exists id,
                         rq_url rq = children_url site_id drive_id id
                         \/ rq_url rq = file_download_url site_id drive_id id)
                  rqs)
    /\ exists lines, w_stdout w' = w_stdout w ++ lines.
Proof.
  intros net fuel self site_id drive_id folder_id local level w.
  destruct (download_folder_contents_adds net self site_id drive_id fuel
              folder_id local level w)
    as (_ & Hout & rqs & Hsent & Hall).
  cbv zeta. split; [| exact Hout].
  exists rqs. split; [exact Hsent |].
  eapply Forall_impl; [exact Hall |].
  intros rq [id [-> | ->]]; repeat split; exists id; [now left | now right].
Qed.

(** X3.  [download_folder_contents] removes nothing: whatever the service
    answers, whatever the names of the items, and however the call ends,
    every local file or directory that was there before the call is there
    after it, a directory as a directory and a file as a file. *)
Theorem download_folder_contents_removes_nothing :
  forall net fuel self site_id drive_id folder_id local level w key x,
    w_fs w !! key = Some x ->
    exists y,
      w_fs (snd (download_folder_contents net fuel self site_id drive_id folder_id
                                          local level w)) !! key = Some y
      /\ same_kind x y.
Proof.
  intros net fuel self site_id drive_id folder_id local level w key x Hx.
  destruct (download_folder_contents_adds net self site_id drive_id fuel
              folder_id local level w) as (Hkeep & _).
  exact (Hkeep key x Hx).
Qed.

(** ** The parameter [level] *)

Lemma for_each_ext {S} (body body' : pyval -> S -> M S) items :
  (forall x s w, body x s w = body' x s w) ->
  forall s w, for_each body items s w = for_each body' items s w.
Proof.
  intros Hbody. induction items as [| x items IH]; intros s w; cbn [for_each].
  - reflexivity.
  - unfold bind. rewrite Hbody. destruct (body' x s w) as [[s' | e |] w']; auto.
Qed.

Lemma list_item_ext recur recur' item acc w :
  (forall id w0, recur id w0 = recur' id w0) ->
  list_item recur item acc w = list_item recur' item acc w.
Proof.
  intros Hrec. unfold list_item.
  apply bind_ext. intros [|] w1; [| reflexivity].
  apply bind_ext. intros name w2. apply bind_ext. intros id w3.
  unfold bind. now rewrite Hrec.
Qed.

Lemma download_item_ext net self site_id drive_id recur recur' local item u w :
  (forall id new_path w0, recur id new_path w0 = recur' id new_path w0) ->
  download_item net self site_id drive_id recur local item u w
  = download_item net self site_id drive_id recur' local item u w.
Proof.
  intros Hrec. unfold download_item.
  apply bind_ext. intros [|] w1; [| reflexivity].
  apply bind_ext. intros name w2. apply bind_ext. intros n w3.
  apply bind_ext. intros present w4. apply bind_ext. intros _ w5.
  apply bind_ext. intros id w6. apply Hrec.
Qed.

(** X4.  The parameter [level] of the two recursive methods has no effect:
    whatever the service answers, a call returns the same, and leaves the
    same world, for every [level]. *)
Theorem level_is_ignored :
  forall net fuel self site_id drive_id folder_id local level level' w,
    list_folder_contents net fuel self site_id drive_id folder_id level w
    = list_folder_contents net fuel self site_id drive_id folder_id level' w
    /\ download_folder_contents net fuel self site_id drive_id folder_id local level w
       = download_folder_contents net fuel self site_id drive_id folder_id local
                                  level' w.
Proof.
  intros net fuel self site_id drive_id.
  induction fuel as [| fuel IH]; intros folder_id local level level' w;
    [split; reflexivity |].
  split.
  - cbn [list_folder_contents].
    apply bind_ext. intros rsp w1. apply bind_ext. intros v w2.
    apply bind_ext. intros [|] w3; [| reflexivity].
    apply bind_ext. intros value w4. apply bind_ext. intros items w5.
    apply for_each_ext. intros x s w6. apply list_item_ext.
    intros id w7. apply (IH id local).
  - cbn [download_folder_contents].
    apply bind_ext. intros rsp w1. apply bind_ext. intros v w2.
    apply bind_ext. intros [|] w3; [| reflexivity].
    apply bind_ext. intros value w4. apply bind_ext. intros items w5.
    apply for_each_ext. intros x s w6. apply download_item_ext.
    intros id new_path w7. apply (IH id new_path).
Qed.

(** ** The recursion limit

    A computation that ended is not changed by a recursive call that is
    allowed to go deeper. *)

Lemma ends_as_refl {A} (m : M A) : ends_as m m.
Proof. now intros w r w' E _. Qed.

Lemma ends_as_bind {A B} (m m' : M A) (k k' : A -> M B) :
  ends_as m m' -> (forall a, ends_as (k a) (k' a)) ->
  ends_as (bind m k) (bind m' k').
Proof.
  intros Hm Hk w r w' E Hr. unfold bind in *.
  destruct (m w) as [[a | e |] w1] eqn:Em.
  - rewrite (Hm w (Ok a) w1 Em) by discriminate. now apply Hk.
  - rewrite (Hm w (Raise e) w1 Em) by discriminate. exact E.
  - injection E as <- _. now destruct Hr.
Qed.

Lemma ends_as_for_each {S} (body body' : pyval -> S -> M S) items :
  (forall x s, ends_as (body x s) (body' x s)) ->
  forall s, ends_as (for_each body items s) (for_each body' items s).
Proof.
  intros Hbody. induction items as [| x items IH]; intros s; cbn [for_each].
  - apply ends_as_refl.
  - apply ends_as_bind; [apply Hbody | exact IH].
Qed.

Lemma list_item_ends_as recur recur' item acc :
  (forall id, ends_as (recur id) (recur' id)) ->
  ends_as (list_item recur item acc) (list_item recur' item acc).
Proof.
  intros Hrec. unfold list_item.
  apply ends_as_bind; [apply ends_as_refl |]. intros [|]; [| apply ends_as_refl].
  apply ends_as_bind; [apply ends_as_refl | intros name].
  apply ends_as_bind; [apply ends_as_refl | intros id].
  apply ends_as_bind; [apply Hrec | intros sub]. apply ends_as_refl.
Qed.

Lemma download_item_ends_as net self site_id drive_id recur recur' local item u :
  (forall id new_path, ends_as (recur id new_path) (recur' id new_path)) ->
  ends_as (download_item net self site_id drive_id recur local item u)
          (download_item net self site_id drive_id recur' local item u).
Proof.
  intros Hrec. unfold download_item.
  apply ends_as_bind; [apply ends_as_refl |]. intros [|]; [| apply ends_as_refl].
  apply ends_as_bind; [apply ends_as_refl | intros name].
  apply ends_as_bind; [apply ends_as_refl | intros n].
  apply ends_as_bind; [apply ends_as_refl | intros present].
  apply ends_as_bind; [apply ends_as_refl | intros _].
  apply ends_as_bind; [apply ends_as_refl | intros id]. apply Hrec.
Qed.

Lemma list_folder_contents_one_more net self site_id drive_id fuel :
  forall folder_id level,
    ends_as (list_folder_contents net fuel self site_id drive_id folder_id level)
            (list_folder_contents net (S fuel) self site_id drive_id folder_id level).
Proof.
  induction fuel as [| fuel IH]; intros folder_id level.
  - intros w r w' [= <- _] Hr. now destruct Hr.
  - cbn [list_folder_contents].
    apply ends_as_bind; [apply ends_as_refl | intros rsp].
    apply ends_as_bind; [apply ends_as_refl | intros body].
    apply ends_as_bind; [apply ends_as_refl |]. intros [|]; [| apply ends_as_refl].
    apply ends_as_bind; [apply ends_as_refl | intros val].
    apply ends_as_bind; [apply ends_as_refl | intros elems].
    apply ends_as_for_each. intros x s. apply list_item_ends_as. intros id. apply IH.
Qed.

Lemma download_folder_contents_one_more net self site_id drive_id fuel :
  forall folder_id local level,
    ends_as (download_folder_contents net fuel self site_id drive_id folder_id
                                      local level)
            (download_folder_contents net (S fuel) self site_id drive_id folder_id
                                      local level).
Proof.
  induction fuel as [| fuel IH]; intros folder_id local level.
  - intros w r w' [= <- _] Hr. now destruct Hr.
  - cbn [download_folder_contents].
    apply ends_as_bind; [apply ends_as_refl | intros rsp].
    apply ends_as_bind; [apply ends_as_refl | intros body].
    apply ends_as_bind; [apply ends_as_refl |]. intros [|]; [| apply ends_as_refl].
    apply ends_as_bind; [apply ends_as_refl | intros val].
    apply ends_as_bind; [apply ends_as_refl | intros elems].
    apply ends_as_for_each. intros x s. apply download_item_ends_as.
    intros id new_path. apply IH.
Qed.

(** X5.  The recursion limit only bounds the depth: a call of one of the
    two recursive methods that ends, with its result or with an exception,
    within some number of nested calls ends the same way and leaves the
    same world when more nested calls are allowed. *)
Theorem more_nested_calls_same_end :
  forall net self site_id drive_id folder_id local level fuel fuel' w,
    (fuel <= fuel')%nat ->
    (fst (list_folder_contents net fuel self site_id drive_id folder_id level w)
     <> NoFuel ->
     list_folder_contents net fuel' self site_id drive_id folder_id level w
     = list_folder_contents net fuel self site_id drive_id folder_id level w)
    /\ (fst (download_folder_contents net fuel self site_id drive_id folder_id
                                      local level w) <> NoFuel ->
        download_folder_contents net fuel' self site_id drive_id folder_id local level w
        = download_folder_contents net fuel self site_id drive_id folder_id
                                   local level w).
Proof.
  intros net self site_id drive_id folder_id local level fuel fuel' w Hle.
  induction Hle as [| fuel' Hle [IHwalk IHmirror]]; [now split |].
  split; intros Hend.
  - specialize (IHwalk Hend). rewrite <- IHwalk in Hend |- *.
    destruct (list_folder_contents net fuel' self site_id drive_id folder_id level w)
      as [r w'] eqn:E.
    exact (list_folder_contents_one_more _ _ _ _ _ _ _ _ _ _ E Hend).
  - specialize (IHmirror Hend). rewrite <- IHmirror in Hend |- *.
    destruct (download_folder_contents net fuel' self site_id drive_id folder_id
                                       local level w) as [r w'] eqn:E.
    exact (download_folder_contents_one_more _ _ _ _ _ _ _ _ _ _ _ E Hend).
Qed.

(** ** The entries of a listing *)

Lemma bind_ok_inv {A B} (m : M A) (k : A -> M B) w b w' :
  bind m k w = (Ok b, w') -> exists a w1, m w = (Ok a, w1) /\ k a w1 = (Ok b, w').
Proof.
  unfold bind. destruct (m w) as [[a | e |] w1]; try discriminate.
  intros E. now exists a, w1.
Qed.

Lemma ret_ok_inv {A} (a b : A) w w' : ret a w = (Ok b, w') -> b = a /\ w' = w.
Proof. unfold ret. now intros [= -> ->]. Qed.

Ltac bind_inv H a w E :=
  apply bind_ok_inv in H; destruct H as (a & w & E & H).

Lemma for_each_returns {S} (P : S -> Prop) (body : pyval -> S -> M S) items :
  (forall x s w s' w', P s -> body x s w = (Ok s', w') -> P s') ->
  forall s w s' w', P s -> for_each body items s w = (Ok s', w') -> P s'.
Proof.
  intros Hbody. induction items as [| x items IH]; intros s w s' w' Hs E;
    cbn [for_each] in E.
  - apply ret_ok_inv in E as [-> _]. exact Hs.
  - bind_inv E s1 w1 E1. eapply IH; [| exact E]. eapply Hbody; eassumption.
Qed.

Lemma list_item_entries recur item acc w l w' :
  (forall id w0 l0 w0', recur id w0 = (Ok l0, w0') -> Forall is_entry l0) ->
  Forall is_entry acc ->
  list_item recur item acc w = (Ok l, w') ->
  Forall is_entry l.
Proof.
  intros Hrec Hacc E. unfold list_item in E.
  bind_inv E is_folder w1 E1. destruct is_folder.
  - bind_inv E name w2 E2. bind_inv E fid w3 E3. bind_inv E sub w4 E4.
    apply ret_ok_inv in E as [-> _].
    apply Forall_app. split; [apply Forall_app; split; [exact Hacc |] |].
    + constructor; [| constructor]. left. now eexists.
    + eapply Hrec. eassumption.
  - bind_inv E is_file w2 E2. destruct is_file.
    + bind_inv E name w3 E3. bind_inv E file w4 E4. bind_inv E mime w5 E5.
      apply ret_ok_inv in E as [-> _].
      apply Forall_app. split; [exact Hacc |].
      constructor; [| constructor]. right. now do 2 eexists.
    + apply ret_ok_inv in E as [-> _]. exact Hacc.
Qed.

Lemma list_folder_contents_entries net self site_id drive_id fuel :
  forall folder_id level w l w',
    list_folder_contents net fuel self site_id drive_id folder_id level w = (Ok l, w') ->
    Forall is_entry l.
Proof.
  induction fuel as [| fuel IH]; intros folder_id level w l w' E;
    [discriminate |].
  cbn [list_folder_contents] in E.
  bind_inv E rsp w1 E1. bind_inv E body w2 E2. bind_inv E has_value w3 E3.
  destruct has_value.
  - bind_inv E val w4 E4. bind_inv E elems w5 E5.
    revert E. apply for_each_returns; [| constructor].
    intros x s w6 s' w7 Hs. apply list_item_entries; [| exact Hs].
    intros id w0 l0 w0'. apply IH.
  - apply ret_ok_inv in E as [-> _]. constructor.
Qed.

Lemma print_content_entry e line w :
  line_of e line ->
  Script.print_content e tt w
  = (Ok tt, {| w_fs := w_fs w; w_stdout := w_stdout w ++ [line]; w_sent := w_sent w |}).
Proof.
  intros [(name & -> & ->) | (name & mime & -> & ->)]; reflexivity.
Qed.

Lemma entry_has_line e : is_entry e -> exists line, line_of e line.
Proof.
  intros [(name & ->) | (name & mime & ->)]; eexists.
  - left. eexists. split; reflexivity.
  - right. do 2 eexists. split; reflexivity.
Qed.

Lemma print_loop_entries l :
  Forall is_entry l ->
  forall w,
    exists lines,
      for_each Script.print_content l tt w
      = (Ok tt, {| w_fs := w_fs w; w_stdout := w_stdout w ++ lines;
                   w_sent := w_sent w |})
      /\ Forall2 line_of l lines.
Proof.
  induction 1 as [| e l He _ IH]; intros w.
  - exists []. split; [| constructor]. cbn. rewrite app_nil_r. now destruct w.
  - destruct (entry_has_line e He) as [line Hline].
    destruct (IH {| w_fs := w_fs w; w_stdout := w_stdout w ++ [line];
                    w_sent := w_sent w |}) as (lines & E & Hlines).
    exists (line :: lines). split; [| now constructor].
    cbn [for_each]. erewrite bind_ok by exact (print_content_entry e line w Hline).
    rewrite E. cbn. now rewrite <- app_assoc.
Qed.

Lemma print_loop_preorder cs :
  forall w,
    for_each Script.print_content (preorder cs) tt w
    = (Ok tt, {| w_fs := w_fs w; w_stdout := w_stdout w ++ preorder_lines cs;
                 w_sent := w_sent w |}).
Proof.
  induction cs as [| id name sub IHsub rest IHrest | id name mime rsp rest IHrest];
    intros w; cbn [preorder preorder_lines].
  - cbn. rewrite app_nil_r. now destruct w.
  - cbn [for_each].
    erewrite bind_ok.
    2:{ apply print_content_entry. left. eexists. split; reflexivity. }
    rewrite for_each_app. erewrite bind_ok by apply IHsub. rewrite IHrest.
    cbn [w_fs w_stdout w_sent py_str]. now rewrite <- !app_assoc.
  - cbn [for_each].
    erewrite bind_ok.
    2:{ apply print_content_entry. right. do 2 eexists. split; reflexivity. }
    rewrite IHrest. cbn [w_fs w_stdout w_sent py_str]. now rewrite <- !app_assoc.
Qed.

(** X6.  Whatever the service answers, every element of a list that
    [list_folder_contents] returns is an entry with the keys [name], [type]
    and [mimeType], of a folder (with [mimeType] [None]) or of a file.  So
    the loop of the script over the list raises nothing and prints one line
    for each entry; the line of a folder ends in [MimeType: None], and the
    default ['N/A'] of line 124 is never printed. *)
Theorem listing_entries_print :
  forall net fuel self site_id drive_id folder_id level w l w',
    list_folder_contents net fuel self site_id drive_id folder_id level w = (Ok l, w') ->
    Forall is_entry l
    /\ forall w0,
        exists lines,
          for_each Script.print_content l tt w0
          = (Ok tt, {| w_fs := w_fs w0; w_stdout := w_stdout w0 ++ lines;
                       w_sent := w_sent w0 |})
          /\ Forall2 line_of l lines.
Proof.
  intros net fuel self site_id drive_id folder_id level w l w' E.
  pose proof (list_folder_contents_entries _ _ _ _ _ _ _ _ _ _ E) as Hl.
  split; [exact Hl |]. now apply print_loop_entries.
Qed.

(** ** A listing that cannot be read *)

Lemma list_folder_contents_malformed net self site_id drive_id folder_id level fuel w :
  malformed (net (get_request self (children_url site_id drive_id folder_id))) ->
  exists e,
    list_folder_contents net (S fuel) self site_id drive_id folder_id level w
    = (Raise e, sent (get_request self (children_url site_id drive_id folder_id)) w).
Proof.
  intros Hm. cbn [list_folder_contents].
  erewrite bind_ok by apply requests_get_sent. unfold response_json.
  destruct Hm as [Hj | v Hj Hv | d v Hj Hd Hv]; rewrite Hj.
  - exists JSONDecodeError. reflexivity.
  - exists TypeError. rewrite bind_ret. destruct v; try discriminate Hv; reflexivity.
  - exists TypeError. rewrite bind_ret. cbn [py_in]. unfold dict_has. rewrite Hd.
    rewrite bind_lift_ok. cbn [py_getitem]. rewrite Hd. rewrite bind_lift_ok.
    destruct v; try discriminate Hv; reflexivity.
Qed.

(** X7.  A malformed answer to the request for a folder's children is not
    handled by [list_folder_contents] either: the call raises, and so does
    the loop of the enclosing folder when it reaches that subfolder, so that
    the entries collected before it are not returned and the items after it
    are not visited. *)
Theorem list_folder_contents_raises_on_malformed :
  forall net self site_id drive_id item id name fuel level,
    let rq := get_request self (children_url site_id drive_id (PStr id)) in
    is_folder_item item id name ->
    malformed (net rq) ->
    (forall w,
        exists e,
          list_folder_contents net (S fuel) self site_id drive_id (PStr id) level w
          = (Raise e, sent rq w))
    /\ (forall rest acc w,
           exists e,
             for_each
               (list_item (fun id =>
                  list_folder_contents net (S fuel) self site_id drive_id id level))
               (item :: rest) acc w
             = (Raise e, sent rq w)).
Proof.
  intros net self site_id drive_id item id name fuel level rq Hitem Hm. split.
  - intros w. now apply list_folder_contents_malformed.
  - intros rest acc w.
    destruct (list_folder_contents_malformed net self site_id drive_id (PStr id)
                level fuel w Hm) as (e & E).
    exists e. cbn [for_each].
    apply bind_raise. rewrite (list_item_folder _ _ _ _ _ _ Hitem).
    now apply bind_raise.
Qed.

(** ** The requests of a walk and of a mirror on a served tree *)

Section Traces.

Variable net : request -> response.
Variable self : SharePointClient.
Variables site_id drive_id : pyval.

Lemma walk_loop_sent cs :
  forall items fuel level acc w,
    describes items cs ->
    serves_items net self site_id drive_id cs ->
    (depth cs <= fuel)%nat ->
    for_each
      (list_item (fun id =>
         list_folder_contents net fuel self site_id drive_id id level))
      items acc w
    = (Ok (acc ++ preorder cs),
       {| w_fs := w_fs w; w_stdout := w_stdout w;
          w_sent := w_sent w ++ walk_requests self site_id drive_id cs |}).
Proof.
  induction cs as [| id name sub IHsub rest IHrest | id name mime rsp rest IHrest];
    intros items fuel level acc w Hdesc Hs Hd;
    describes_inv Hdesc items item.
  - cbn. rewrite !app_nil_r. now destruct w.
  - destruct Hdesc as [Hitem Hdesc].
    cbn [serves_items] in Hs. destruct Hs as (Hl & Hsub & Hrest).
    cbn [depth] in Hd.
    destruct fuel as [| fuel']; [lia |].
    cbn [for_each].
    destruct (list_folder_contents_listing _ _ _ _ _ _ Hl)
      as (subitems & Hsubdesc & Hrun).
    erewrite bind_ok.
    2:{ rewrite (list_item_folder _ _ _ _ _ _ Hitem). erewrite bind_ok.
        2:{ rewrite Hrun.
            apply (IHsub subitems fuel' (level + 1) []); [assumption.. | lia]. }
        reflexivity. }
    rewrite (IHrest items (S fuel') level); [| assumption | assumption | lia].
    cbn [preorder walk_requests w_fs w_stdout w_sent sent app].
    f_equal; [f_equal; now rewrite <- !app_assoc |].
    f_equal. now rewrite <- !app_assoc.
  - destruct Hdesc as [Hitem Hdesc].
    cbn [serves_items] in Hs. destruct Hs as (_ & Hrest).
    cbn [depth] in Hd.
    cbn [for_each].
    erewrite bind_ok by exact (list_item_file _ _ _ _ _ _ _ Hitem).
    rewrite (IHrest items fuel level); [| assumption..].
    cbn [preorder walk_requests]. now rewrite <- app_assoc.
Qed.

Lemma walk_requests_length cs :
  length (walk_requests self site_id drive_id cs) = nfolders cs.
Proof.
  induction cs as [| id name sub IHsub rest IHrest | id name mime rsp rest IHrest];
    cbn [walk_requests nfolders length]; [reflexivity | | exact IHrest].
  rewrite length_app, IHsub, IHrest. reflexivity.
Qed.

Lemma mirror_requests_length cs :
  length (mirror_requests self site_id drive_id cs) = (nfolders cs + nfiles cs)%nat.
Proof.
  induction cs as [| id name sub IHsub rest IHrest | id name mime rsp rest IHrest];
    cbn [mirror_requests nfolders nfiles length]; [reflexivity | |].
  - rewrite length_app, IHsub, IHrest. lia.
  - rewrite IHrest. lia.
Qed.

Lemma mirror_log_length cs : forall local, length (mirror_log local cs) = nfiles cs.
Proof.
  induction cs as [| id name sub IHsub rest IHrest | id name mime rsp rest IHrest];
    intros local; cbn [mirror_log nfiles length]; [reflexivity | |].
  - now rewrite length_app, IHsub, IHrest.
  - now rewrite IHrest.
Qed.

End Traces.

Lemma list_folder_contents_served net self site_id drive_id folder_id cs fuel level w :
  serves net self site_id drive_id folder_id cs ->
  (depth cs < fuel)%nat ->
  list_folder_contents net fuel self site_id drive_id folder_id level w
  = (Ok (preorder cs),
     {| w_fs := w_fs w; w_stdout := w_stdout w;
        w_sent := w_sent w
                  ++ get_request self (children_url site_id drive_id folder_id)
                     :: walk_requests self site_id drive_id cs |}).
Proof.
  intros [Hl Hs] Hd. destruct fuel as [| fuel']; [lia |].
  destruct (list_folder_contents_listing _ _ _ _ _ _ Hl) as (items & Hdesc & Hrun).
  rewrite Hrun, (walk_loop_sent net self site_id drive_id cs items fuel' (level + 1));
    [| assumption | assumption | lia].
  cbn [app w_fs w_stdout w_sent sent]. now rewrite <- app_assoc.
Qed.

Lemma download_folder_contents_served
      net self site_id drive_id folder_id cs fuel level local w :
  serves net self site_id drive_id folder_id cs ->
  (depth cs < fuel)%nat ->
  names_ok cs ->
  fits local cs ->
  opens (w_fs w) local ->
  no_clash (w_fs w) (resolve local) cs ->
  download_folder_contents net fuel self site_id drive_id folder_id local level w
  = (Ok tt,
     mirrored self site_id drive_id local cs
              (sent (get_request self (children_url site_id drive_id folder_id)) w)).
Proof.
  intros [Hl Hs] Hd Hnames Hfit Hdir Hclash. destruct fuel as [| fuel']; [lia |].
  destruct (download_folder_contents_listing _ _ _ _ _ _ Hl) as (items & Hdesc & Hrun).
  rewrite Hrun. apply (mirror_loop net self site_id drive_id cs); try assumption. lia.
Qed.

(** X8.  On a folder that holds a finite tree with N folders, and with room
    for the nesting of the tree, [list_folder_contents] sends N+1 requests:
    one for the children of the folder itself, then one for the children of
    each folder of the tree, in the order of the listing, and none for a
    file. *)
Theorem list_folder_contents_requests :
  forall net self site_id drive_id folder_id cs fuel level w,
    serves net self site_id drive_id folder_id cs ->
    (depth cs < fuel)%nat ->
    w_sent (snd (list_folder_contents net fuel self site_id drive_id folder_id level w))
    = w_sent w
      ++ get_request self (children_url site_id drive_id folder_id)
         :: walk_requests self site_id drive_id cs
    /\ length (walk_requests self site_id drive_id cs) = nfolders cs.
Proof.
  intros net self site_id drive_id folder_id cs fuel level w Hs Hd.
  split; [| apply walk_requests_length].
  now rewrite (list_folder_contents_served _ _ _ _ _ _ _ level w Hs Hd).
Qed.

(** X9.  A mirror of a finite tree with N folders and M files, with names
    and local paths within the limits of the system, into a local folder
    that is a directory reached through directories and holds nothing of the
    wrong kind, sends N+M+1 requests (one for the children of the folder
    itself and of each folder of the tree, one for the content of each file,
    in the order of the listing) and prints M lines: for each file, in that
    order, that it was downloaded, with its local path, or that its download
    failed; it prints nothing for a folder. *)
Theorem download_folder_contents_trace :
  forall net self site_id drive_id folder_id cs fuel level local w,
    serves net self site_id drive_id folder_id cs ->
    (depth cs < fuel)%nat ->
    names_ok cs ->
    fits local cs ->
    opens (w_fs w) local ->
    no_clash (w_fs w) (resolve local) cs ->
    let w' :=
      snd (download_folder_contents net fuel self site_id drive_id folder_id
                                    local level w) in
    w_sent w'
    = w_sent w
      ++ get_request self (children_url site_id drive_id folder_id)
         :: mirror_requests self site_id drive_id cs
    /\ w_stdout w' = w_stdout w ++ mirror_log local cs
    /\ length (mirror_requests self site_id drive_id cs) = (nfolders cs + nfiles cs)%nat
    /\ length (mirror_log local cs) = nfiles cs.
Proof.
  intros net self site_id drive_id folder_id cs fuel level local w
         Hs Hd Hnames Hfit Hdir Hclash.
  cbv zeta.
  rewrite (download_folder_contents_served _ _ _ _ _ _ _ level local w
             Hs Hd Hnames Hfit Hdir Hclash).
  cbn [snd mirrored w_sent w_stdout sent].
  split; [now rewrite <- app_assoc |]. split; [reflexivity |].
  split; [apply mirror_requests_length | apply mirror_log_length].
Qed.

(** * Identifier resolution

    The constructor and the three lookups that come before a walk: what
    they return on the bodies the services may send, and what they ask. *)

(** ** The loop that collects [(id, name)] pairs *)

Lemma collect_pairs_ok items pairs :
  Forall2 has_pair items pairs ->
  forall acc w,
    for_each (fun item rootdir =>
                let* id := lift (py_getitem item "id") in
                let* name := lift (py_getitem item "name") in
                ret (rootdir ++ [(id, name)]))
             items acc w
    = (Ok (acc ++ pairs), w).
Proof.
  induction 1 as [| item [id name] items pairs [Hid Hname] _ IH]; intros acc w;
    cbn [for_each].
  - cbn. now rewrite app_nil_r.
  - cbn [fst snd] in Hid, Hname.
    rewrite Hid, bind_assoc, bind_lift_ok, Hname, bind_assoc, bind_lift_ok, bind_ret.
    rewrite IH. now rewrite <- app_assoc.
Qed.

Lemma collect_pairs_raises items :
  Exists lacks_field items ->
  forall acc w,
    exists e,
      for_each (fun item rootdir =>
                  let* id := lift (py_getitem item "id") in
                  let* name := lift (py_getitem item "name") in
                  ret (rootdir ++ [(id, name)]))
               items acc w
      = (Raise e, w).
Proof.
  induction items as [| item items IH]; intros Hex acc w;
    [now apply Exists_nil in Hex |].
  cbn [for_each].
  destruct (py_getitem item "id") as [id | e |] eqn:Eid.
  - destruct (py_getitem item "name") as [name | e |] eqn:Ename.
    + rewrite bind_assoc, bind_lift_ok, bind_assoc, bind_lift_ok, bind_ret.
      apply IH. apply Exists_cons in Hex as [[Hno | Hno] | Hex]; [| | exact Hex].
      * now destruct (Hno id).
      * now destruct (Hno name).
    + exists e. reflexivity.
    + exfalso. destruct item; cbn in Ename; try discriminate.
      destruct (dict_lookup "name" d); discriminate.
  - exists e. reflexivity.
  - exfalso. destruct item; cbn in Eid; try discriminate.
    destruct (dict_lookup "id" d); discriminate.
Qed.

Lemma describes_pairs cs :
  forall items, describes items cs -> Forall2 has_pair items (top_pairs cs).
Proof.
  induction cs as [| id name sub _ rest IHrest | id name mime rsp rest IHrest];
    intros items Hdesc; describes_inv Hdesc items item; cbn [top_pairs].
  - constructor.
  - destruct Hdesc as [(d & -> & _ & Hn & Hi) Hdesc].
    constructor; [| now apply IHrest].
    split; cbn [py_getitem fst snd]; [now rewrite Hi | now rewrite Hn].
  - destruct Hdesc as [(d & f & -> & _ & _ & _ & Hn & Hi) Hdesc].
    constructor; [| now apply IHrest].
    split; cbn [py_getitem fst snd]; [now rewrite Hi | now rewrite Hn].
Qed.

Lemma get_folder_content_pairs net self site_id drive_id folder_path cs w :
  lists (net (get_request self (root_children_url site_id drive_id))) cs ->
  get_folder_content net self site_id drive_id folder_path w
  = (Ok (top_pairs cs), sent (get_request self (root_children_url site_id drive_id)) w).
Proof.
  intros (d & items & Hj & Hv & Hdesc).
  unfold get_folder_content.
  erewrite bind_ok by apply requests_get_sent.
  unfold response_json. rewrite Hj, bind_ret.
  cbn [py_in py_getitem]. unfold dict_has. rewrite Hv, !bind_lift_ok.
  cbn [py_iter]. rewrite bind_lift_ok.
  now rewrite (collect_pairs_ok items (top_pairs cs) (describes_pairs cs items Hdesc)).
Qed.

Lemma get_folder_content_nothing net self site_id drive_id folder_path w :
  lists_nothing (net (get_request self (root_children_url site_id drive_id))) ->
  get_folder_content net self site_id drive_id folder_path w
  = (Ok [], sent (get_request self (root_children_url site_id drive_id)) w).
Proof.
  intros (d & Hj & Hv). unfold get_folder_content.
  erewrite bind_ok by apply requests_get_sent.
  unfold response_json. rewrite Hj, bind_ret.
  cbn [py_in py_getitem]. unfold dict_has.
  now destruct Hv as [-> | ->].
Qed.

Lemma get_drive_id_pairs net self site_id w d drives pairs :
  rsp_json (net (drives_request self site_id)) = Some (PDict d) ->
  dict_lookup "value" d = Some (PList drives) ->
  Forall2 has_pair drives pairs ->
  get_drive_id net self site_id w = (Ok pairs, sent (drives_request self site_id) w).
Proof.
  intros Hj Hv Hpairs. unfold get_drive_id.
  erewrite bind_ok by apply requests_get_sent.
  fold (drives_request self site_id). unfold response_json. rewrite Hj, bind_ret.
  cbn [py_get]. rewrite Hv, bind_lift_ok. cbn [py_iter]. rewrite bind_lift_ok.
  now rewrite (collect_pairs_ok drives pairs Hpairs).
Qed.

Lemma get_drive_id_nothing net self site_id w :
  lists_nothing (net (drives_request self site_id)) ->
  get_drive_id net self site_id w = (Ok [], sent (drives_request self site_id) w).
Proof.
  intros (d & Hj & Hv). unfold get_drive_id.
  erewrite bind_ok by apply requests_get_sent.
  fold (drives_request self site_id). unfold response_json. rewrite Hj, bind_ret.
  cbn [py_get]. now destruct Hv as [-> | ->].
Qed.

Lemma get_site_id_object net self site_url w d :
  rsp_json (net (site_request self site_url)) = Some (PDict d) ->
  get_site_id net self site_url w
  = (Ok (field "id" d), sent (site_request self site_url) w).
Proof.
  intros Hj. unfold get_site_id. erewrite bind_ok by apply requests_get_sent.
  fold (site_request self site_url). unfold response_json.
  now rewrite Hj, bind_ret.
Qed.

Lemma init_object net tenant client secret resource_url w d :
  rsp_json (net (token_request (new_client tenant client secret resource_url PNone)))
  = Some (PDict d) ->
  __init__ net tenant client secret resource_url w
  = (Ok (new_client tenant client secret resource_url (field "access_token" d)),
     sent (token_request (new_client tenant client secret resource_url PNone)) w).
Proof.
  intros Hj.
  change (__init__ net tenant client secret resource_url w)
    with (bind (let* decoded :=
                  response_json
                    (net (token_request
                            (new_client tenant client secret resource_url PNone))) in
                lift (py_get decoded "access_token" PNone))
               (fun token => ret (new_client tenant client secret resource_url token))
               (sent (token_request
                        (new_client tenant client secret resource_url PNone)) w)).
  unfold response_json. rewrite Hj. now rewrite bind_assoc, bind_ret.
Qed.

(** X10.  When the drive root holds the items [cs], [get_folder_content]
    returns the [(id, name)] pair of each item directly in the root, folders
    and files alike and in the order of the listing, and nothing of what is
    below them. *)
Theorem get_folder_content_lists_root :
  forall net self site_id drive_id folder_path cs w,
    lists (net (get_request self (root_children_url site_id drive_id))) cs ->
    get_folder_content net self site_id drive_id folder_path w
    = (Ok (top_pairs cs), sent (get_request self (root_children_url site_id drive_id)) w).
Proof.
  intros net self site_id drive_id folder_path cs w.
  apply get_folder_content_pairs.
Qed.

(** X11.  [get_drive_id], on a response whose body is a JSON object: without
    a [value] field it returns the empty list; with a [value] list whose
    elements all have an [id] and a [name] it returns their pairs, in order;
    and when some element lacks one of the two it raises, and returns no
    drive at all.  In each case the one request it sent is the request for
    the drives of the site. *)
Theorem get_drive_id_outcomes :
  forall net self site_id w d,
    let rq :=
      get_request self ("https://graph.microsoft.com/v1.0/sites/"
                          +:+ py_str site_id +:+ "/drives") in
    rsp_json (net rq) = Some (PDict d) ->
    (dict_lookup "value" d = None ->
     get_drive_id net self site_id w = (Ok [], sent rq w))
    /\ (forall drives pairs,
           dict_lookup "value" d = Some (PList drives) ->
           Forall2 has_pair drives pairs ->
           get_drive_id net self site_id w = (Ok pairs, sent rq w))
    /\ (forall drives,
           dict_lookup "value" d = Some (PList drives) ->
           Exists lacks_field drives ->
           exists e, get_drive_id net self site_id w = (Raise e, sent rq w)).
Proof.
  intros net self site_id w d rq Hj. split; [| split].
  - intros Hv. apply get_drive_id_nothing. exists d. split; [exact Hj | now left].
  - intros drives pairs Hv Hpairs. now apply (get_drive_id_pairs _ _ _ _ d drives).
  - intros drives Hv Hex. unfold get_drive_id.
    erewrite bind_ok by apply requests_get_sent.
    fold rq. unfold response_json. rewrite Hj, bind_ret.
    cbn [py_get]. rewrite Hv, bind_lift_ok. cbn [py_iter]. rewrite bind_lift_ok.
    now apply collect_pairs_raises.
Qed.

Lemma get_drive_id_sent net self site_id w :
  snd (get_drive_id net self site_id w)
  = sent (get_request self ("https://graph.microsoft.com/v1.0/sites/"
                              +:+ py_str site_id +:+ "/drives")) w.
Proof.
  unfold get_drive_id. erewrite bind_ok by apply requests_get_sent.
  unfold bind at 1. unfold response_json.
  destruct (rsp_json _) as [decoded |]; [| reflexivity].
  cbn [ret]. unfold bind at 1. unfold lift at 1.
  destruct (py_get decoded "value" (PList [])) as [drives | e |]; try reflexivity.
  unfold bind at 1. unfold lift at 1.
  destruct (py_iter drives) as [items | e |]; try reflexivity.
  apply collect_pairs_world.
Qed.

(** X12.  The constructor sends one request, the token request, and looks
    at nothing of the response but its decoded body (not at the status): a
    body that is not JSON makes it raise [JSONDecodeError], a JSON body that
    is not an object [AttributeError], and no client is built; a JSON object
    with an [access_token] field gives a client that holds the value of the
    field and sends it in the [Authorization] header of its requests. *)
Theorem init_outcomes :
  forall net tenant client secret resource_url w,
    let self := new_client tenant client secret resource_url PNone in
    let out := __init__ net tenant client secret resource_url w in
    snd out = sent (token_request self) w
    /\ (rsp_json (net (token_request self)) = None ->
        fst out = Raise JSONDecodeError)
    /\ (forall v, rsp_json (net (token_request self)) = Some v ->
                  (forall d, v <> PDict d) ->
                  fst out = Raise AttributeError)
    /\ (forall d token,
           rsp_json (net (token_request self)) = Some (PDict d) ->
           dict_lookup "access_token" d = Some token ->
           fst out = Ok (new_client tenant client secret resource_url token)
           /\ authorization (new_client tenant client secret resource_url token)
              = [("Authorization", "Bearer " +:+ py_str token)]).
Proof.
  intros net tenant client secret resource_url w self out.
  assert (Hrun : out
                 = bind (let* decoded := response_json (net (token_request self)) in
                         lift (py_get decoded "access_token" PNone))
                        (fun token =>
                           ret (new_client tenant client secret resource_url token))
                        (sent (token_request self) w)) by reflexivity.
  rewrite Hrun. clear Hrun out. unfold response_json.
  destruct (rsp_json (net (token_request self))) as [v |].
  - rewrite bind_assoc, bind_ret.
    split; [| split; [discriminate | split]].
    + destruct v; reflexivity.
    + intros v' [= <-] Hv. destruct v; try reflexivity. now destruct (Hv d).
    + intros d token [= ->] Ht. cbn [py_get]. rewrite Ht. split; reflexivity.
  - split; [reflexivity |]. split; [reflexivity |].
    split; [discriminate | discriminate].
Qed.

(** X13.  A site lookup that fails is not noticed: when the body of the
    response is a JSON object without an [id] field (an error body),
    [get_site_id] returns [None] and raises nothing, and [get_drive_id] on
    that result asks for the drives of a site called [None]. *)
Theorem failed_site_lookup_goes_on :
  forall net self site_url w d,
    let rq :=
      get_request self ("https://graph.microsoft.com/v1.0/sites/" +:+ site_url) in
    rsp_json (net rq) = Some (PDict d) ->
    dict_lookup "id" d = None ->
    get_site_id net self site_url w = (Ok PNone, sent rq w)
    /\ forall w1,
        snd (get_drive_id net self PNone w1)
        = sent (get_request self "https://graph.microsoft.com/v1.0/sites/None/drives")
               w1.
Proof.
  intros net self site_url w d rq Hj Hid. split.
  - unfold get_site_id. erewrite bind_ok by apply requests_get_sent.
    fold rq. unfold response_json. rewrite Hj, bind_ret. cbn [py_get].
    now rewrite Hid.
  - intros w1. apply get_drive_id_sent.
Qed.

(** * Where a download lands *)

Lemma os_path_join_absolute a b : starts_with_slash b = true -> os_path_join a b = b.
Proof. intros H. unfold os_path_join. now rewrite H. Qed.

(** X14.  The name of an item is not checked before it is joined to the
    local folder: for an item whose name starts with a slash the joined path
    is the name itself, so the item is mirrored at that absolute path
    whatever [local_folder_path] is, and a file whose download is answered
    with 200 is written there. *)
Theorem absolute_name_leaves_local_folder :
  forall net self site_id drive_id recur local local' item id name mime w,
    starts_with_slash name = true ->
    is_folder_item item id name \/ is_file_item item id name mime ->
    os_path_join local name = name
    /\ download_item net self site_id drive_id recur local item tt w
       = download_item net self site_id drive_id recur local' item tt w
    /\ (is_file_item item id name mime ->
        let r := net (get_request self (file_download_url site_id drive_id (PStr id))) in
        fs_view (download_item net self site_id drive_id recur local item tt w)
        = if rsp_status r =? 200 then
            match fs_write (w_fs w) name (rsp_content r) with
            | Ok fs1 => (Ok tt, fs1)
            | Raise e => (Raise e, w_fs w)
            | NoFuel => (NoFuel, w_fs w)
            end
          else (Ok tt, w_fs w)).
Proof.
  intros net self site_id drive_id recur local local' item id name mime w Hs Hitem.
  pose proof (os_path_join_absolute local name Hs) as Hj.
  pose proof (os_path_join_absolute local' name Hs) as Hj'.
  split; [exact Hj |]. split.
  - destruct Hitem as [Hitem | Hitem].
    + rewrite !(download_item_folder _ _ _ _ _ _ _ _ _ _ Hitem). now rewrite Hj, Hj'.
    + rewrite !(download_item_file _ _ _ _ _ _ _ _ _ _ _ Hitem).
      unfold download_file. apply bind_ext. intros rsp w1.
      destruct (rsp_status rsp =? 200); [| reflexivity].
      cbn [as_str]. now rewrite !bind_ret, Hj, Hj'.
  - intros Hfile r. rewrite (download_item_file _ _ _ _ _ _ _ _ _ _ _ Hfile).
    rewrite download_file_fs. fold r. now rewrite Hj.
Qed.

Lemma download_file_200 net self url local n w :
  rsp_status (net (get_request self url)) = 200 ->
  download_file net self url local (PStr n) w
  = bind (open_wb_write (os_path_join local n)
                        (rsp_content (net (get_request self url))))
         (fun _ => print ("File downloaded: " +:+ os_path_join local n))
         (sent (get_request self url) w).
Proof.
  intros Hst. unfold download_file. erewrite bind_ok by apply requests_get_sent.
  rewrite Hst. cbn [Z.eqb Pos.eqb as_str]. now rewrite bind_ret.
Qed.

(** X15.  [download_file] on an answer with status 200, for a name that is
    one path component.  The path is checked first: a NUL byte gives
    [ValueError], a path of 4096 bytes or more [OSError].  Then the local
    folder is walked to: a directory on the way that is missing gives
    [FileNotFoundError], a regular file on the way [NotADirectoryError], a
    name of more than 255 bytes on the way [OSError].  In the local folder,
    a name of more than 255 bytes gives [OSError] and a directory of that
    name [IsADirectoryError]; else the file is created, or written over when
    it is there.  No directory is made.  When an exception is raised,
    nothing is printed and nothing is written (the request has been
    sent). *)
Theorem download_file_local_outcomes :
  forall net self url local n w,
    let r := net (get_request self url) in
    let out := download_file net self url local (PStr n) w in
    let asked := sent (get_request self url) w in
    let done target :=
      {| w_fs := <[target := File (rsp_content r)]> (w_fs w);
         w_stdout := w_stdout w ++ ["File downloaded: " +:+ os_path_join local n];
         w_sent := w_sent w ++ [get_request self url] |} in
    rsp_status r = 200 ->
    plain_name n = true ->
    match path_error (os_path_join local n) with
    | Some e => out = (Raise e, asked)
    | None =>
        match walk (w_fs w) (start local) (components local) with
        | Ok k =>
            if too_long n then out = (Raise OSError, asked)
            else match w_fs w !! (k ++ [n]) with
                 | Some Dir => out = (Raise IsADirectoryError, asked)
                 | Some (File _) | None => out = (Ok tt, done (k ++ [n]))
                 end
        | Raise e =>
            out = (Raise e, asked)
            /\ (e = FileNotFoundError \/ e = NotADirectoryError \/ e = OSError)
        | NoFuel => False
        end
    end.
Proof.
  intros net self url local n w r out asked done Hst Hn.
  subst out. rewrite (download_file_200 net self url local n w Hst). fold r.
  unfold bind, open_wb_write. cbn [w_fs sent].
  unfold fs_write. rewrite (namei_join (w_fs w) local n Hn).
  destruct (path_error (os_path_join local n)) as [e |]; [reflexivity |].
  pose proof (walk_ends (w_fs w) (components local) (start local)) as Hends.
  pose proof (walk_raises (w_fs w) (components local) (start local)) as Hraises.
  destruct (walk (w_fs w) (start local) (components local)) as [k | e |];
    [| split; [reflexivity | now apply Hraises] | congruence].
  rewrite (os_path_join_no_trailing_slash n Hn).
  destruct (too_long n); [reflexivity |].
  rewrite (fs_node_below n Hn (w_fs w) k []).
  destruct (w_fs w !! (k ++ [n])) as [[| c] |]; reflexivity.
Qed.

(** X16.  [download_folder_contents] does not make the directory it is asked
    to fill.  When that directory, or a directory on the way to it, is
    missing and the listing of the folder starts with a file whose download
    is answered with 200, the call raises [FileNotFoundError] after the two
    requests, writes and prints nothing, and does not go on to the other
    items. *)
Theorem download_folder_contents_needs_local_folder :
  forall net self site_id drive_id folder_id id name mime r rest fuel level local w,
    let listing_request := get_request self (children_url site_id drive_id folder_id) in
    let content_request :=
      get_request self (file_download_url site_id drive_id (PStr id)) in
    lists (net listing_request) (Ffile id name mime r rest) ->
    net content_request = r ->
    rsp_status r = 200 ->
    plain_name name = true ->
    path_error (os_path_join local name) = None ->
    walk (w_fs w) (start local) (components local) = Raise FileNotFoundError ->
    download_folder_contents net (S fuel) self site_id drive_id folder_id local level w
    = (Raise FileNotFoundError,
       {| w_fs := w_fs w; w_stdout := w_stdout w;
          w_sent := w_sent w ++ [listing_request; content_request] |}).
Proof.
  intros net self site_id drive_id folder_id id name mime r rest fuel level local w
         listing_request content_request Hl Hr Hst Hn Hpath Hlocal.
  destruct (download_folder_contents_listing _ _ _ _ _ _ Hl) as (items & Hdesc & Hrun).
  describes_inv Hdesc items item. destruct Hdesc as [Hitem _].
  rewrite Hrun. cbn [for_each]. fold listing_request.
  erewrite bind_raise; [reflexivity |].
  rewrite (download_item_file _ _ _ _ _ _ _ _ _ _ _ Hitem).
  rewrite download_file_200 by (fold content_request; now rewrite Hr).
  fold content_request. unfold bind, open_wb_write. cbn [w_fs sent].
  unfold fs_write. rewrite (namei_join (w_fs w) local name Hn), Hpath, Hlocal.
  unfold sent. cbn [w_fs w_stdout w_sent]. now rewrite <- app_assoc.
Qed.

(** * The files a mirror leaves alone *)

Lemma download_folder_contents_fs_view
      net self site_id drive_id folder_id cs fuel level local w :
  serves net self site_id drive_id folder_id cs ->
  (depth cs < fuel)%nat ->
  fs_view (download_folder_contents net fuel self site_id drive_id folder_id
                                    local level w)
  = mirror_fs local cs (w_fs w).
Proof.
  intros [Hl Hs] Hd. destruct fuel as [| fuel']; [lia |].
  destruct (download_folder_contents_listing _ _ _ _ _ _ Hl) as (items & Hdesc & Hrun).
  rewrite Hrun.
  rewrite (mirror_loop_fs _ _ _ _ cs); [reflexivity | exact Hdesc | exact Hs | lia].
Qed.

(** X17.  A mirror of a finite tree with mirrorable names changes the
    content of no local file but those at the paths of the remote files
    whose download was answered with 200: every other local file keeps its
    content, whatever the local file system holds and also when the mirror
    ends with an exception. *)
Theorem download_folder_contents_keeps_other_files :
  forall net self site_id drive_id folder_id cs fuel level local w key c,
    serves net self site_id drive_id folder_id cs ->
    (depth cs < fuel)%nat ->
    names_ok cs ->
    w_fs w !! key = Some (File c) ->
    (forall p r, In (p, r) (file_paths cs) -> rsp_status r = 200 ->
                 key <> resolve local ++ p) ->
    w_fs (snd (download_folder_contents net fuel self site_id drive_id folder_id
                                        local level w)) !! key
    = Some (File c).
Proof.
  intros net self site_id drive_id folder_id cs fuel level local w key c
         Hs Hd Hok Hkey Hother.
  pose proof (download_folder_contents_fs_view _ _ _ _ _ _ _ level local w Hs Hd)
    as Hview.
  unfold fs_view in Hview.
  destruct (mirror_fs local cs (w_fs w)) as [r f'] eqn:E.
  injection Hview as _ Hfs. rewrite Hfs.
  destruct (mirror_fs_effect cs local (w_fs w) r f' Hok E) as [_ Hcontent].
  apply Hcontent; [| exact Hkey].
  intros (q & rsp & Hin & Hst & ->). exact (Hother q rsp Hin Hst eq_refl).
Qed.

(** * The script

    The run of [Script.main] is followed call by call, with the results of
    the parts above. *)

Lemma run_ok {A} (m : M A) (k : A -> world -> Script.script_end * world) w a w' :
  m w = (Ok a, w') -> Script.run m k w = k a w'.
Proof. intros E. unfold Script.run. now rewrite E. Qed.

(** ** Runs of the script *)

(** X18.  The script does not check the results it subscripts.  When the
    token response and the site response are JSON objects (error bodies
    included) and the response for the drives lists nothing, the script
    prints the site identifier and [Root folder: []] and ends with an
    uncaught [IndexError] at line 116, after three requests; nothing is
    listed or downloaded. *)
Theorem script_stops_without_drives :
  forall net fuel w dt ds,
    let client := script_client (field "access_token" dt) in
    let site_id := field "id" ds in
    rsp_json (net (token_request client)) = Some (PDict dt) ->
    rsp_json (net (site_request client Script.site_url)) = Some (PDict ds) ->
    lists_nothing (net (drives_request client site_id)) ->
    Script.main net fuel w
    = (Script.UncaughtIndexError,
       {| w_fs := w_fs w;
          w_stdout := w_stdout w
                      ++ ["Site ID: " +:+ py_str site_id; "Root folder: []"];
          w_sent := w_sent w
                    ++ [token_request client;
                        site_request client Script.site_url;
                        drives_request client site_id] |}).
Proof.
  intros net fuel w dt ds client site_id Ht Hs Hd.
  unfold Script.main.
  erewrite run_ok by exact (init_object net _ _ _ _ w dt Ht).
  fold (script_client (field "access_token" dt)). fold client.
  erewrite run_ok by exact (get_site_id_object net client _ _ ds Hs).
  fold site_id.
  erewrite run_ok by reflexivity.
  erewrite run_ok by exact (get_drive_id_nothing net client site_id _ Hd).
  erewrite run_ok by reflexivity.
  cbn. now rewrite <- !app_assoc.
Qed.

(** X19.  When the site has drives and the root of the first drive lists
    nothing, the script prints the site identifier, the drives (as the
    [repr] of the list of their pairs; the identifiers and names are taken
    to be ASCII) and [Root Content: []] and ends with an uncaught
    [IndexError] at line 120, after four requests; nothing is listed or
    downloaded.  Only the first drive is looked at. *)
Theorem script_stops_on_empty_root :
  forall net fuel w dt ds dd drives drive_id drive_name pairs,
    let client := script_client (field "access_token" dt) in
    let site_id := field "id" ds in
    let root_request := get_request client (root_children_url site_id drive_id) in
    rsp_json (net (token_request client)) = Some (PDict dt) ->
    rsp_json (net (site_request client Script.site_url)) = Some (PDict ds) ->
    rsp_json (net (drives_request client site_id)) = Some (PDict dd) ->
    dict_lookup "value" dd = Some (PList drives) ->
    Forall2 has_pair drives ((drive_id, drive_name) :: pairs) ->
    ascii_val site_id = true ->
    ascii_pairs ((drive_id, drive_name) :: pairs) ->
    lists_nothing (net root_request) ->
    Script.main net fuel w
    = (Script.UncaughtIndexError,
       {| w_fs := w_fs w;
          w_stdout := w_stdout w
                      ++ ["Site ID: " +:+ py_str site_id;
                          "Root folder: "
                            +:+ Script.repr_pairs ((drive_id, drive_name) :: pairs);
                          "Root Content: []"];
          w_sent := w_sent w
                    ++ [token_request client;
                        site_request client Script.site_url;
                        drives_request client site_id;
                        root_request] |}).
Proof.
  intros net fuel w dt ds dd drives drive_id drive_name pairs client site_id
         root_request Ht Hs Hd Hv Hpairs _ _ Hroot.
  unfold Script.main.
  erewrite run_ok by exact (init_object net _ _ _ _ w dt Ht).
  fold (script_client (field "access_token" dt)). fold client.
  erewrite run_ok by exact (get_site_id_object net client _ _ ds Hs).
  fold site_id.
  erewrite run_ok by reflexivity.
  erewrite run_ok by exact (get_drive_id_pairs net client site_id _ dd _ _ Hd Hv Hpairs).
  erewrite run_ok by reflexivity.
  unfold Script.first_id at 1. cbn [fst].
  erewrite run_ok
    by exact (get_folder_content_nothing net client site_id drive_id _ _ Hroot).
  erewrite run_ok by reflexivity.
  cbn. now rewrite <- !app_assoc.
Qed.

(** X20.  A whole run.  When the token, the site and the drives are
    answered, the root of the first drive lists the items [root], and the
    first of these items, whatever its kind, is answered as a folder that
    holds the finite tree [cs]: the script prints the site identifier, the
    drives and the pairs of the root (as the [repr] of the lists; the
    identifiers and names are taken to be ASCII), then one line for each
    item of [cs] in pre-order, then mirrors [cs], whose names and local
    paths are within the limits of the system, into [data], which is a
    directory and holds nothing of the wrong kind, and completes.  It asks
    for the children of every folder twice, once to list and once to
    mirror, and for nothing of the other drives or the other items of the
    root. *)
Theorem script_lists_and_mirrors_first_item :
  forall net fuel w dt ds dd drives drive_id drive_name pairs
         root folder_id folder_name others cs,
    let client := script_client (field "access_token" dt) in
    let site_id := field "id" ds in
    let root_request := get_request client (root_children_url site_id drive_id) in
    let folder_request :=
      get_request client (children_url site_id drive_id folder_id) in
    rsp_json (net (token_request client)) = Some (PDict dt) ->
    rsp_json (net (site_request client Script.site_url)) = Some (PDict ds) ->
    rsp_json (net (drives_request client site_id)) = Some (PDict dd) ->
    dict_lookup "value" dd = Some (PList drives) ->
    Forall2 has_pair drives ((drive_id, drive_name) :: pairs) ->
    ascii_val site_id = true ->
    ascii_pairs ((drive_id, drive_name) :: pairs) ->
    lists (net root_request) root ->
    top_pairs root = (folder_id, folder_name) :: others ->
    ascii_pairs (top_pairs root) ->
    serves net client site_id drive_id folder_id cs ->
    (depth cs < fuel)%nat ->
    names_ok cs ->
    fits Script.local_save_path cs ->
    opens (w_fs w) Script.local_save_path ->
    no_clash (w_fs w) (resolve Script.local_save_path) cs ->
    Script.main net fuel w
    = (Script.Completed,
       {| w_fs := overlay ["data"] cs (w_fs w);
          w_stdout := w_stdout w
                      ++ ["Site ID: " +:+ py_str site_id;
                          "Root folder: "
                            +:+ Script.repr_pairs ((drive_id, drive_name) :: pairs);
                          "Root Content: " +:+ Script.repr_pairs (top_pairs root)]
                      ++ preorder_lines cs
                      ++ mirror_log "data" cs;
          w_sent := w_sent w
                    ++ [token_request client;
                        site_request client Script.site_url;
                        drives_request client site_id;
                        root_request]
                    ++ (folder_request :: walk_requests client site_id drive_id cs)
                    ++ (folder_request :: mirror_requests client site_id drive_id cs)
       |}).
Proof.
  intros net fuel w dt ds dd drives drive_id drive_name pairs
         root folder_id folder_name others cs client site_id root_request
         folder_request Ht Hs Hd Hv Hpairs _ _ Hroot Hfirst _ Hserves Hdepth Hnames
         Hfit Hdir Hclash.
  unfold Script.main.
  erewrite run_ok by exact (init_object net _ _ _ _ w dt Ht).
  fold (script_client (field "access_token" dt)). fold client.
  erewrite run_ok by exact (get_site_id_object net client _ _ ds Hs).
  fold site_id.
  erewrite run_ok by reflexivity.
  erewrite run_ok by exact (get_drive_id_pairs net client site_id _ dd _ _ Hd Hv Hpairs).
  erewrite run_ok by reflexivity.
  unfold Script.first_id at 1. cbn [fst].
  erewrite run_ok
    by exact (get_folder_content_pairs net client site_id drive_id _ root _ Hroot).
  erewrite run_ok by reflexivity.
  unfold Script.first_id at 1. rewrite Hfirst. cbn [fst].
  erewrite run_ok
    by exact (list_folder_contents_served net client site_id drive_id folder_id cs
                fuel 0 _ Hserves Hdepth).
  erewrite run_ok by apply print_loop_preorder.
  erewrite run_ok.
  2:{ apply (download_folder_contents_served net client site_id drive_id folder_id cs
               fuel 0 Script.local_save_path); try assumption. }
  fold folder_request. f_equal. apply world_ext.
  - reflexivity.
  - cbn. now rewrite <- !app_assoc.
  - cbn. rewrite <- !app_assoc. cbn. reflexivity.
Qed.

(** * The local path and the second run *)

Lemma path_error_fits local n :
  plain_name n = true ->
  has_nul local = false ->
  entry_error local n = None ->
  path_error (os_path_join local n) = None
  /\ has_nul (os_path_join local n) = false.
Proof.
  intros Hn Hnul He. destruct (entry_error_none local n He) as (Hnuln & Hlen & _).
  assert (Hj : has_nul (os_path_join local n) = false)
    by now rewrite (os_path_join_has_nul n Hn), Hnul, Hnuln.
  split; [| exact Hj].
  unfold path_error. rewrite Hj.
  pose proof (os_path_join_not_empty n Hn local) as Hne.
  apply String.eqb_neq in Hne. rewrite Hne.
  destruct (Nat.leb_spec PATH_MAX (String.length (os_path_join local n)));
    [lia | reflexivity].
Qed.

(** Within the limits, a mirror into a file ends the same way whatever the
    path of the file. *)
Lemma blocked_fits cs :
  forall local local',
    names_ok cs ->
    has_nul local = false -> has_nul local' = false ->
    fits local cs -> fits local' cs ->
    blocked local cs = blocked local' cs.
Proof.
  induction cs as [| id name sub _ rest IHrest | id name mime rsp rest IHrest];
    intros local local' Hok Hnul Hnul' Hfit Hfit'; cbn [blocked names_ok fits] in *.
  - reflexivity.
  - destruct Hok as (Hn & _). destruct Hfit as (He & _). destruct Hfit' as (He' & _).
    destruct (path_error_fits local name Hn Hnul He) as [-> _].
    now destruct (path_error_fits local' name Hn Hnul' He') as [-> _].
  - destruct Hok as (Hn & _ & Hokrest).
    destruct Hfit as (He & Hfit). destruct Hfit' as (He' & Hfit').
    destruct (rsp_status rsp =? 200); [| now apply IHrest].
    destruct (path_error_fits local name Hn Hnul He) as [-> _].
    now destruct (path_error_fits local' name Hn Hnul' He') as [-> _].
Qed.

(** Within the limits, what a mirror does depends on the local folder only
    through the directory its path leads to. *)
Lemma mirror_fs_location cs :
  forall local local' (fs : gmap (list string) node),
    names_ok cs ->
    opens fs local -> opens fs local' ->
    resolve local = resolve local' ->
    fits local cs -> fits local' cs ->
    mirror_fs local cs fs = mirror_fs local' cs fs.
Proof.
  induction cs as [| id name sub IHsub rest IHrest | id name mime rsp rest IHrest];
    intros local local' fs Hok Hopen Hopen' Hres Hfit Hfit';
    cbn [mirror_fs]; [reflexivity | |].
  - cbn [names_ok fits] in *.
    destruct Hok as (Hn & _ & Hsub & Hrest).
    destruct Hfit as (He & Hfitsub & Hfitrest).
    destruct Hfit' as (He' & Hfitsub' & Hfitrest').
    destruct (os_path_join_plain name Hn local) as (_ & Hr).
    destruct (os_path_join_plain name Hn local') as (_ & Hr').
    rewrite (path_exists_child fs local name Hn Hopen),
      (fs_makedirs_child fs local name Hn Hopen),
      (path_exists_child fs local' name Hn Hopen'),
      (fs_makedirs_child fs local' name Hn Hopen'), He, He', Hres.
    assert (Hdir : forall f1,
               keeps_kind fs f1 ->
               f1 !! (resolve local' ++ [name]) = Some Dir ->
               match mirror_fs (os_path_join local name) sub f1 with
               | (Ok _, fs2) => mirror_fs local rest fs2
               | (Raise e, fs2) => (Raise e, fs2)
               | (NoFuel, fs2) => (NoFuel, fs2)
               end
               = match mirror_fs (os_path_join local' name) sub f1 with
                 | (Ok _, fs2) => mirror_fs local' rest fs2
                 | (Raise e, fs2) => (Raise e, fs2)
                 | (NoFuel, fs2) => (NoFuel, fs2)
                 end).
    { intros f1 Hk1 Hd1.
      pose proof (opens_kept _ _ _ Hk1 Hopen) as Ho1.
      pose proof (opens_kept _ _ _ Hk1 Hopen') as Ho1'.
      rewrite (IHsub (os_path_join local name) (os_path_join local' name) f1 Hsub);
        try assumption.
      - destruct (mirror_fs (os_path_join local' name) sub f1) as [rs f2] eqn:Es.
        destruct (mirror_fs_effect sub _ _ _ _ Hsub Es) as [Hk2 _].
        destruct rs as [[] | e |]; [| reflexivity | reflexivity].
        apply IHrest; try assumption.
        + now apply opens_kept with f1.
        + now apply opens_kept with f1.
      - apply opens_child; try assumption. now rewrite Hres.
      - now apply opens_child.
      - now rewrite Hr, Hr', Hres. }
    destruct (fs !! (resolve local' ++ [name])) as [[| c] |] eqn:El.
    + apply Hdir; [apply keeps_kind_refl | exact El].
    + rewrite <- Hres in El.
      rewrite (mirror_fs_child_file sub fs local name c Hsub Hn Hopen He El).
      rewrite Hres in El.
      rewrite (mirror_fs_child_file sub fs local' name c Hsub Hn Hopen' He' El).
      assert (Hb : blocked (os_path_join local name) sub
                   = blocked (os_path_join local' name) sub).
      { destruct Hopen as (Hnul & _), Hopen' as (Hnul' & _).
        apply blocked_fits; try assumption.
        - now destruct (path_error_fits local name Hn Hnul He).
        - now destruct (path_error_fits local' name Hn Hnul' He'). }
      rewrite Hb.
      destruct (blocked (os_path_join local' name) sub) as [[] | e |];
        [| reflexivity | reflexivity].
      now apply IHrest.
    + apply Hdir; [| apply lookup_insert_eq].
      apply insert_dir_kind. intros c. now rewrite El.
  - cbn [names_ok fits] in *.
    destruct Hok as (Hn & _ & Hrest).
    destruct Hfit as (He & Hfitrest). destruct Hfit' as (He' & Hfitrest').
    destruct (rsp_status rsp =? 200); [| now apply IHrest].
    rewrite (fs_write_child fs local name Hn Hopen),
      (fs_write_child fs local' name Hn Hopen'), He, He', Hres.
    assert (Hins : fs !! (resolve local' ++ [name]) <> Some Dir ->
                   mirror_fs local rest
                     (<[resolve local' ++ [name] := File (rsp_content rsp)]> fs)
                   = mirror_fs local' rest
                       (<[resolve local' ++ [name] := File (rsp_content rsp)]> fs)).
    { intros Hnd. pose proof (insert_file_kind fs _ (rsp_content rsp) Hnd) as Hk.
      apply IHrest; try assumption; now apply opens_kept with fs. }
    destruct (fs !! (resolve local' ++ [name])) as [[| c] |] eqn:El;
      [reflexivity | |]; apply Hins; discriminate.
Qed.

(** X21.  What a mirror of a finite tree with mirrorable names, whose names
    and local paths are within the limits of the system, does to the local
    file system, and how it ends, depends on [local_folder_path] only
    through the directory the path leads to: two spellings of one directory
    that is there ([data], [data/], [./data]) give the same outcome and the
    same file system.  (The printed lines show the path as it was
    spelled.) *)
Theorem local_path_spelling :
  forall net self site_id drive_id folder_id cs fuel level local local' w,
    serves net self site_id drive_id folder_id cs ->
    (depth cs < fuel)%nat ->
    names_ok cs ->
    opens (w_fs w) local ->
    opens (w_fs w) local' ->
    resolve local = resolve local' ->
    fits local cs ->
    fits local' cs ->
    let one :=
      download_folder_contents net fuel self site_id drive_id folder_id local level w in
    let other :=
      download_folder_contents net fuel self site_id drive_id folder_id local' level w in
    fst one = fst other /\ w_fs (snd one) = w_fs (snd other).
Proof.
  intros net self site_id drive_id folder_id cs fuel level local local' w
         Hs Hd Hok Hopen Hopen' Hres Hfit Hfit' one other.
  pose proof (download_folder_contents_fs_view _ _ _ _ _ _ _ level local w Hs Hd) as H1.
  pose proof (download_folder_contents_fs_view _ _ _ _ _ _ _ level local' w Hs Hd) as H2.
  fold one in H1. fold other in H2.
  rewrite (mirror_fs_location cs local local' (w_fs w) Hok Hopen Hopen' Hres Hfit Hfit'),
    <- H2 in H1.
  unfold fs_view in H1. injection H1 as Hr Hf. now split.
Qed.

Lemma no_clash_overlay (fs : gmap (list string) node) (k : list string) cs :
  names_ok cs -> no_clash (overlay k cs fs) k cs.
Proof.
  intros Hok. split.
  - intros p c Hp. rewrite (overlay_folder cs k fs p Hok Hp). discriminate.
  - intros p r Hp Hst. rewrite (overlay_file cs k fs p r Hok Hp Hst). discriminate.
Qed.

(** X22.  A second mirror of the unchanged tree, with names and local paths
    within the limits of the system, into a local folder that was a
    directory reached through directories and held nothing of the wrong kind
    before the first, skips no download: it sends the N+M+1 requests of the
    first run again, the content requests of all files included, and prints
    the same lines again. *)
Theorem second_run_downloads_again :
  forall net self site_id drive_id folder_id cs fuel level local w,
    serves net self site_id drive_id folder_id cs ->
    (depth cs < fuel)%nat ->
    names_ok cs ->
    fits local cs ->
    opens (w_fs w) local ->
    no_clash (w_fs w) (resolve local) cs ->
    let first :=
      download_folder_contents net fuel self site_id drive_id folder_id local level w in
    let second :=
      download_folder_contents net fuel self site_id drive_id folder_id local level
                               (snd first) in
    let requests :=
      get_request self (children_url site_id drive_id folder_id)
        :: mirror_requests self site_id drive_id cs in
    w_sent (snd first) = w_sent w ++ requests
    /\ w_sent (snd second) = w_sent (snd first) ++ requests
    /\ w_stdout (snd second) = w_stdout (snd first) ++ mirror_log local cs
    /\ length requests = S (nfolders cs + nfiles cs).
Proof.
  intros net self site_id drive_id folder_id cs fuel level local w
         Hs Hd Hok Hfit Hdir Hclash first second requests.
  assert (E1 : first
               = (Ok tt,
                  mirrored self site_id drive_id local cs
                    (sent (get_request self (children_url site_id drive_id folder_id))
                          w)))
    by now apply download_folder_contents_served.
  assert (E2 : second
               = (Ok tt,
                  mirrored self site_id drive_id local cs
                    (sent (get_request self (children_url site_id drive_id folder_id))
                          (snd first)))).
  { apply download_folder_contents_served; try assumption; rewrite E1;
      cbn [snd mirrored w_fs sent].
    - apply opens_kept with (w_fs w); [| exact Hdir].
      now apply overlay_keeps_kind.
    - now apply no_clash_overlay. }
  rewrite E2. rewrite E1 at 1. cbn [snd mirrored w_sent w_stdout sent].
  subst requests. cbn [length]. rewrite mirror_requests_length.
  repeat split; now rewrite <- ?app_assoc.
Qed.

(** * Worked examples of the calls and of the script *)

Lemma script_served :
  serves script_net (script_client (PStr "token")) (PStr "S") (PStr "D") (PStr "R")
         example_tree.
Proof.
  split; [exact (lists_listing example_tree) |].
  split; [exact (lists_listing _) |]. repeat split.
Qed.

Lemma script_drives :
  Forall2 has_pair [PDict [("id", PStr "D"); ("name", PStr "Documents")]]
          [(PStr "D", PStr "Documents")].
Proof. repeat constructor. Qed.

(** A mirror into [data] keeps the user's file [data/keep.txt]. *)
Lemma download_folder_contents_removes_nothing_example :
  exists y,
    w_fs (snd (download_folder_contents flaky_net 2 example_client
                 (PStr "S") (PStr "D") (PStr "R") "data" 0 kept_world))
      !! ["data"; "keep.txt"] = Some y
    /\ same_kind (File (bytes_of "mine")) y.
Proof.
  apply (download_folder_contents_removes_nothing
           flaky_net 2 example_client (PStr "S") (PStr "D") (PStr "R") "data" 0
           kept_world ["data"; "keep.txt"] (File (bytes_of "mine"))).
  vm_compute. reflexivity.
Defined.

(** The listing of the example prints three lines in the script's loop. *)
Lemma listing_entries_print_example :
  Forall is_entry example_listing
  /\ forall w0,
      exists lines,
        for_each Script.print_content example_listing tt w0
        = (Ok tt, {| w_fs := w_fs w0; w_stdout := w_stdout w0 ++ lines;
                     w_sent := w_sent w0 |})
        /\ Forall2 line_of example_listing lines.
Proof.
  apply (listing_entries_print
           example_net 2 example_client (PStr "S") (PStr "D") (PStr "R") 0 empty_world
           example_listing
           (snd (list_folder_contents example_net 2 example_client
                   (PStr "S") (PStr "D") (PStr "R") 0 empty_world))).
  vm_compute. reflexivity.
Defined.

(** The walk of the example asks for the children of [R] and of [F1]. *)
Lemma list_folder_contents_requests_example :
  w_sent (snd (list_folder_contents example_net 2 example_client
                 (PStr "S") (PStr "D") (PStr "R") 0 empty_world))
  = [get_request example_client
       "https://graph.microsoft.com/v1.0/sites/S/drives/D/items/R/children";
     get_request example_client
       "https://graph.microsoft.com/v1.0/sites/S/drives/D/items/F1/children"]
  /\ length (walk_requests example_client (PStr "S") (PStr "D") example_tree) = 1%nat.
Proof.
  apply (list_folder_contents_requests
           example_net example_client (PStr "S") (PStr "D") (PStr "R") example_tree
           2 0 empty_world).
  - exact example_served.
  - cbn. lia.
Defined.

(** The mirror of the example with the refused [q1.pdf]: four requests, two
    lines. *)
Lemma download_folder_contents_trace_example :
  let w' :=
    snd (download_folder_contents flaky_net 2 example_client
           (PStr "S") (PStr "D") (PStr "R") "data" 0 data_world) in
  w_sent w'
  = [get_request example_client
       "https://graph.microsoft.com/v1.0/sites/S/drives/D/items/R/children";
     get_request example_client
       "https://graph.microsoft.com/v1.0/sites/S/drives/D/items/F1/children";
     get_request example_client
       "https://graph.microsoft.com//v1.0/sites/S/drives/D/items/I1/content";
     get_request example_client
       "https://graph.microsoft.com//v1.0/sites/S/drives/D/items/I2/content"]
  /\ w_stdout w'
     = ["Failed to download q1.pdf: 404 - Not Found";
        "File downloaded: data/readme.txt"]
  /\ length (mirror_requests example_client (PStr "S") (PStr "D") flaky_tree) = 3%nat
  /\ length (mirror_log "data" flaky_tree) = 2%nat.
Proof.
  apply (download_folder_contents_trace
           flaky_net example_client (PStr "S") (PStr "D") (PStr "R") flaky_tree
           2 0 "data" data_world).
  - exact flaky_served.
  - cbn. lia.
  - exact flaky_names_ok.
  - exact flaky_fits.
  - exact data_opens.
  - exact (data_no_clash flaky_tree).
Defined.

(** The root of the example drive: the folder [Shared] and the file
    [notes.txt], as pairs. *)
Lemma get_folder_content_lists_root_example :
  get_folder_content script_net example_client (PStr "S") (PStr "D") (PStr "root")
                     empty_world
  = (Ok [(PStr "R", PStr "Shared"); (PStr "I9", PStr "notes.txt")],
     sent (get_request example_client
             "https://graph.microsoft.com/v1.0/sites/S/drives/D/root/children")
          empty_world).
Proof.
  apply (get_folder_content_lists_root
           script_net example_client (PStr "S") (PStr "D") (PStr "root") script_root
           empty_world).
  exact (lists_listing script_root).
Defined.

(** The drives of the example site. *)
Lemma get_drive_id_outcomes_example :
  get_drive_id script_net example_client (PStr "S") empty_world
  = (Ok [(PStr "D", PStr "Documents")],
     sent (get_request example_client "https://graph.microsoft.com/v1.0/sites/S/drives")
          empty_world).
Proof.
  apply (proj1 (proj2 (get_drive_id_outcomes
                         script_net example_client (PStr "S") empty_world
                         [("value",
                           PList [PDict [("id", PStr "D");
                                         ("name", PStr "Documents")]])]
                         eq_refl))
               [PDict [("id", PStr "D"); ("name", PStr "Documents")]]
               [(PStr "D", PStr "Documents")]).
  - reflexivity.
  - exact script_drives.
Defined.

(** The constructor on the example site, and behind the broken gateway. *)
Lemma init_outcomes_example :
  fst (__init__ script_net "your-tenant-id" "your-client-id" "your-client-secret"
                resource empty_world)
  = Ok example_client
  /\ fst (__init__ broken_net "your-tenant-id" "your-client-id" "your-client-secret"
                   resource empty_world)
     = Raise JSONDecodeError.
Proof.
  split.
  - apply (proj1 (proj2 (proj2 (proj2
             (init_outcomes script_net "your-tenant-id" "your-client-id"
                            "your-client-secret" resource empty_world)))
             [("token_type", PStr "Bearer"); ("access_token", PStr "token")]
             (PStr "token") eq_refl eq_refl)).
  - apply (proj1 (proj2
             (init_outcomes broken_net "your-tenant-id" "your-client-id"
                            "your-client-secret" resource empty_world))).
    reflexivity.
Defined.

(** A site lookup that is refused. *)
Lemma failed_site_lookup_example :
  get_site_id rejecting_net example_client "your-site-url" empty_world
  = (Ok PNone,
     sent (get_request example_client
             "https://graph.microsoft.com/v1.0/sites/your-site-url") empty_world)
  /\ forall w1,
      snd (get_drive_id rejecting_net example_client PNone w1)
      = sent (get_request example_client
                "https://graph.microsoft.com/v1.0/sites/None/drives") w1.
Proof.
  apply (failed_site_lookup_goes_on
           rejecting_net example_client "your-site-url" empty_world
           [("error", PStr "invalid_client")]).
  - reflexivity.
  - reflexivity.
Defined.

(** An item named [/tmp/q1.pdf], mirrored into [data], lands in [/tmp]. *)
Lemma absolute_name_example :
  os_path_join "data" "/tmp/q1.pdf" = "/tmp/q1.pdf"
  /\ download_item example_net example_client (PStr "S") (PStr "D")
                   (fun _ _ => ret tt) "data" absolute_item tt tmp_world
     = download_item example_net example_client (PStr "S") (PStr "D")
                     (fun _ _ => ret tt) "elsewhere" absolute_item tt tmp_world
  /\ fs_view (download_item example_net example_client (PStr "S") (PStr "D")
                            (fun _ _ => ret tt) "data" absolute_item tt tmp_world)
     = (Ok tt, {[ ["/"; "tmp"] := Dir;
                  ["/"; "tmp"; "q1.pdf"] := File (bytes_of "%PDF-1.7 q1") ]}).
Proof.
  destruct (absolute_name_leaves_local_folder
              example_net example_client (PStr "S") (PStr "D") (fun _ _ => ret tt)
              "data" "elsewhere" absolute_item "I1" "/tmp/q1.pdf" "application/pdf"
              tmp_world eq_refl
              (or_intror (file_json_is_file_item "I1" "/tmp/q1.pdf" "application/pdf")))
    as (Hjoin & Hsame & Hfs).
  split; [exact Hjoin |]. split; [exact Hsame |].
  rewrite (Hfs (file_json_is_file_item "I1" "/tmp/q1.pdf" "application/pdf")).
  vm_compute. reflexivity.
Defined.

(** [readme.txt] is written into [data] when [data] is there; the call
    raises when [data] is not there, when the way to the local folder leads
    through a directory that is not there, and when it leads through a
    file. *)
Lemma download_file_local_outcomes_example :
  let url := file_download_url (PStr "S") (PStr "D") (PStr "I2") in
  let asked := sent (get_request example_client url) in
  download_file example_net example_client url "data" (PStr "readme.txt") data_world
  = (Ok tt,
     {| w_fs := <[ ["data"; "readme.txt"] := File (bytes_of "read me") ]>
                  (w_fs data_world);
        w_stdout := ["File downloaded: data/readme.txt"];
        w_sent := [get_request example_client url] |})
  /\ download_file example_net example_client url "data" (PStr "readme.txt")
                   empty_world
     = (Raise FileNotFoundError, asked empty_world)
  /\ download_file example_net example_client url "data/x/.." (PStr "readme.txt")
                   data_world
     = (Raise FileNotFoundError, asked data_world)
  /\ download_file example_net example_client url "data/keep.txt/sub"
                   (PStr "readme.txt") kept_world
     = (Raise NotADirectoryError, asked kept_world).
Proof.
  cbv zeta. split; [| split; [| split]].
  - exact (download_file_local_outcomes
             example_net example_client
             (file_download_url (PStr "S") (PStr "D") (PStr "I2"))
             "data" "readme.txt" data_world eq_refl eq_refl).
  - exact (proj1 (download_file_local_outcomes
                    example_net example_client
                    (file_download_url (PStr "S") (PStr "D") (PStr "I2"))
                    "data" "readme.txt" empty_world eq_refl eq_refl)).
  - exact (proj1 (download_file_local_outcomes
                    example_net example_client
                    (file_download_url (PStr "S") (PStr "D") (PStr "I2"))
                    "data/x/.." "readme.txt" data_world eq_refl eq_refl)).
  - exact (proj1 (download_file_local_outcomes
                    example_net example_client
                    (file_download_url (PStr "S") (PStr "D") (PStr "I2"))
                    "data/keep.txt/sub" "readme.txt" kept_world eq_refl eq_refl)).
Defined.

(** The user's file [data/keep.txt] keeps its content under a mirror. *)
Lemma download_folder_contents_keeps_other_files_example :
  w_fs (snd (download_folder_contents flaky_net 2 example_client
               (PStr "S") (PStr "D") (PStr "R") "data" 0 kept_world))
    !! ["data"; "keep.txt"]
  = Some (File (bytes_of "mine")).
Proof.
  apply (download_folder_contents_keeps_other_files
           flaky_net example_client (PStr "S") (PStr "D") (PStr "R") flaky_tree
           2 0 "data" kept_world ["data"; "keep.txt"] (bytes_of "mine")).
  - exact flaky_served.
  - cbn. lia.
  - exact flaky_names_ok.
  - vm_compute. reflexivity.
  - intros p r Hin _ E. cbn in Hin.
    destruct Hin as [Hin | [Hin | []]]; injection Hin as <- _; discriminate E.
Defined.

(** The script against an identity provider that rejects the credentials and
    a service that answers every request with the same error body. *)
Lemma script_stops_without_drives_example :
  Script.main rejecting_net 0 empty_world
  = (Script.UncaughtIndexError,
     {| w_fs := ∅;
        w_stdout := ["Site ID: None"; "Root folder: []"];
        w_sent :=
          token_request (script_client PNone)
            :: map (get_request (script_client PNone))
                 ["https://graph.microsoft.com/v1.0/sites/your-site-url";
                  "https://graph.microsoft.com/v1.0/sites/None/drives"] |}).
Proof.
  apply (script_stops_without_drives
           rejecting_net 0 empty_world
           [("error", PStr "invalid_client")] [("error", PStr "invalid_client")]).
  - reflexivity.
  - reflexivity.
  - exists [("error", PStr "invalid_client")]. split; [reflexivity | now left].
Defined.

(** The script on a site whose drive is empty. *)
Lemma script_stops_on_empty_root_example :
  Script.main empty_root_net 0 empty_world
  = (Script.UncaughtIndexError,
     {| w_fs := ∅;
        w_stdout := ["Site ID: S"; "Root folder: [('D', 'Documents')]";
                     "Root Content: []"];
        w_sent :=
          token_request example_client
            :: map (get_request example_client)
                 ["https://graph.microsoft.com/v1.0/sites/your-site-url";
                  "https://graph.microsoft.com/v1.0/sites/S/drives";
                  "https://graph.microsoft.com/v1.0/sites/S/drives/D/root/children"]
     |}).
Proof.
  apply (script_stops_on_empty_root
           empty_root_net 0 empty_world
           [("token_type", PStr "Bearer"); ("access_token", PStr "token")]
           [("id", PStr "S")]
           [("value", PList [PDict [("id", PStr "D"); ("name", PStr "Documents")]])]
           [PDict [("id", PStr "D"); ("name", PStr "Documents")]]
           (PStr "D") (PStr "Documents") []).
  - reflexivity.
  - reflexivity.
  - reflexivity.
  - reflexivity.
  - exact script_drives.
  - reflexivity.
  - repeat constructor.
  - exists [("value", PList [])]. split; [reflexivity | now right].
Defined.

(** The script on the example site, with the directory [data] in place. *)
Lemma script_example :
  Script.main script_net 2 data_world
  = (Script.Completed,
     {| w_fs := overlay ["data"] example_tree (w_fs data_world);
        w_stdout := ["Site ID: S";
                     "Root folder: [('D', 'Documents')]";
                     "Root Content: [('R', 'Shared'), ('I9', 'notes.txt')]";
                     "Name: Reports, Type: Folder, MimeType: None";
                     "Name: q1.pdf, Type: File, MimeType: application/pdf";
                     "Name: readme.txt, Type: File, MimeType: text/plain";
                     "File downloaded: data/Reports/q1.pdf";
                     "File downloaded: data/readme.txt"];
        w_sent :=
          token_request example_client
            :: map (get_request example_client)
                 ["https://graph.microsoft.com/v1.0/sites/your-site-url";
                  "https://graph.microsoft.com/v1.0/sites/S/drives";
                  "https://graph.microsoft.com/v1.0/sites/S/drives/D/root/children";
                  "https://graph.microsoft.com/v1.0/sites/S/drives/D/items/R/children";
                  "https://graph.microsoft.com/v1.0/sites/S/drives/D/items/F1/children";
                  "https://graph.microsoft.com/v1.0/sites/S/drives/D/items/R/children";
                  "https://graph.microsoft.com/v1.0/sites/S/drives/D/items/F1/children";
                  "https://graph.microsoft.com//v1.0/sites/S/drives/D/items/I1/content";
                  "https://graph.microsoft.com//v1.0/sites/S/drives/D/items/I2/content"]
     |}).
Proof.
  apply (script_lists_and_mirrors_first_item
           script_net 2 data_world
           [("token_type", PStr "Bearer"); ("access_token", PStr "token")]
           [("id", PStr "S")]
           [("value", PList [PDict [("id", PStr "D"); ("name", PStr "Documents")]])]
           [PDict [("id", PStr "D"); ("name", PStr "Documents")]]
           (PStr "D") (PStr "Documents") []
           script_root (PStr "R") (PStr "Shared") [(PStr "I9", PStr "notes.txt")]
           example_tree).
  - reflexivity.
  - reflexivity.
  - reflexivity.
  - reflexivity.
  - exact script_drives.
  - reflexivity.
  - repeat constructor.
  - exact (lists_listing script_root).
  - reflexivity.
  - repeat constructor.
  - exact script_served.
  - cbn. lia.
  - exact example_names_ok.
  - exact example_fits.
  - exact data_opens.
  - exact (data_no_clash example_tree).
Defined.

(** Mirrors into [data] and into [./data/] leave the same file system. *)
Lemma local_path_spelling_example :
  let one :=
    download_folder_contents flaky_net 2 example_client
                             (PStr "S") (PStr "D") (PStr "R") "data" 0 data_world in
  let other :=
    download_folder_contents flaky_net 2 example_client
                             (PStr "S") (PStr "D") (PStr "R") "./data/" 0 data_world in
  fst one = fst other /\ w_fs (snd one) = w_fs (snd other).
Proof.
  apply (local_path_spelling
           flaky_net example_client (PStr "S") (PStr "D") (PStr "R") flaky_tree
           2 0 "data" "./data/" data_world).
  - exact flaky_served.
  - cbn. lia.
  - exact flaky_names_ok.
  - exact data_opens.
  - opens_by_computation.
  - reflexivity.
  - exact flaky_fits.
  - unfold flaky_tree. fits_by_computation.
Defined.

(** The second mirror of the example asks for [readme.txt] again. *)
Lemma second_run_example :
  let first :=
    download_folder_contents example_net 2 example_client
                             (PStr "S") (PStr "D") (PStr "R") "data" 0 data_world in
  let second :=
    download_folder_contents example_net 2 example_client
                             (PStr "S") (PStr "D") (PStr "R") "data" 0 (snd first) in
  let requests :=
    [get_request example_client
       "https://graph.microsoft.com/v1.0/sites/S/drives/D/items/R/children";
     get_request example_client
       "https://graph.microsoft.com/v1.0/sites/S/drives/D/items/F1/children";
     get_request example_client
       "https://graph.microsoft.com//v1.0/sites/S/drives/D/items/I1/content";
     get_request example_client
       "https://graph.microsoft.com//v1.0/sites/S/drives/D/items/I2/content"] in
  w_sent (snd first) = requests
  /\ w_sent (snd second) = w_sent (snd first) ++ requests
  /\ w_stdout (snd second)
     = w_stdout (snd first)
       ++ ["File downloaded: data/Reports/q1.pdf"; "File downloaded: data/readme.txt"]
  /\ length requests = 4%nat.
Proof.
  apply (second_run_downloads_again
           example_net example_client (PStr "S") (PStr "D") (PStr "R") example_tree
           2 0 "data" data_world).
  - exact example_served.
  - cbn. lia.
  - exact example_names_ok.
  - exact example_fits.
  - exact data_opens.
  - exact (data_no_clash example_tree).
Defined.

(** Behind the broken gateway the walk of a folder that holds [Reports]
    raises, whatever it has collected. *)
Lemma list_folder_contents_raises_example :
  (forall w,
      exists e,
        list_folder_contents broken_net 1 example_client
                             (PStr "S") (PStr "D") (PStr "F1") 0 w
        = (Raise e,
           sent (get_request example_client
                   (children_url (PStr "S") (PStr "D") (PStr "F1"))) w))
  /\ (forall rest acc w,
         exists e,
           for_each
             (list_item (fun id =>
                list_folder_contents broken_net 1 example_client
                                     (PStr "S") (PStr "D") id 0))
             (folder_json "F1" "Reports" :: rest) acc w
           = (Raise e,
              sent (get_request example_client
                      (children_url (PStr "S") (PStr "D") (PStr "F1"))) w)).
Proof.
  apply (list_folder_contents_raises_on_malformed
           broken_net example_client (PStr "S") (PStr "D")
           (folder_json "F1" "Reports") "F1" "Reports" 0 0).
  - apply folder_json_is_folder_item.
  - apply malformed_not_json. reflexivity.
Defined.

(** The walk of the example needs two nested calls and is the same with
    forty. *)
Lemma more_nested_calls_example :
  list_folder_contents example_net 40 example_client
                       (PStr "S") (PStr "D") (PStr "R") 0 empty_world
  = list_folder_contents example_net 2 example_client
                         (PStr "S") (PStr "D") (PStr "R") 0 empty_world.
Proof.
  apply (proj1 (more_nested_calls_same_end
                  example_net example_client (PStr "S") (PStr "D") (PStr "R")
                  "data" 0 2 40 empty_world ltac:(lia))).
  vm_compute. discriminate.
Defined.

(** The root of the example drive that holds [readme.txt] alone, mirrored on
    a disk without [data]. *)
Lemma download_folder_contents_needs_local_folder_example :
  download_folder_contents root_file_net 1 example_client
                           (PStr "S") (PStr "D") (PStr "R") "data" 0 empty_world
  = (Raise FileNotFoundError,
     {| w_fs := ∅; w_stdout := [];
        w_sent :=
          map (get_request example_client)
            ["https://graph.microsoft.com/v1.0/sites/S/drives/D/items/R/children";
             "https://graph.microsoft.com//v1.0/sites/S/drives/D/items/I2/content"]
     |}).
Proof.
  apply (download_folder_contents_needs_local_folder
           root_file_net example_client (PStr "S") (PStr "D") (PStr "R")
           "I2" "readme.txt" "text/plain" (ok_content "read me") Fnil
           0 0 "data" empty_world).
  - exact (lists_listing root_file_tree).
  - reflexivity.
  - reflexivity.
  - reflexivity.
  - reflexivity.
  - reflexivity.
Defined.
